(** * pypet trajectories: run ledger, exploration, expansion and merge

    A shallow embedding of [pypet/trajectory.py].  The trajectory object is
    a record of the attributes the methods read and write; every method is
    a computation in a state-and-exception monad whose state survives a
    raised exception, as the attributes of a Python object do.

    Dictionaries keyed by name are [gmap]s.  The parameter objects live in
    one store, [_parameters], keyed by full name; [_explored_parameters]
    holds references to the same objects and is therefore a list of keys
    into that store.  Where Python iterates over a dictionary the embedding
    iterates over [map_to_list], i.e. in the canonical key order of the map
    instead of insertion order; the order decides at most which of several
    pending exceptions is raised first. *)

From Stdlib Require Import ZArith String Ascii List Decimal DecimalString DecimalN Lia Sorted.
From stdpp Require Import base gmap strings list fin_maps.

Open Scope Z_scope.

(** ** Values held by leaves *)

(** Modelled from the spec: the parameter classes of [pypet/parameter.py]
    are not part of the sources.  A leaf holds a scalar value; the two
    pluggable checks of the spec (4.2), [sameType] and [equalValues], are
    [_values_of_same_type] and [_equal_values]. *)
Inductive value :=
  | VInt (z : Z)
  | VStr (s : string).

#[global] Instance value_eq_dec : EqDecision value.
Proof. solve_decision. Defined.

Definition _values_of_same_type (a b : value) : bool :=
  match a, b with
  | VInt _, VInt _ => true
  | VStr _, VStr _ => true
  | _, _ => false
  end.

Definition _equal_values (a b : value) : bool := bool_decide (a = b).

(** ** Exceptions and the method monad *)

Inductive exn :=
  | TypeError
  | ValueError
  | AttributeError
  | KeyError
  | IndexError
  | UnboundLocalError
  | ParameterLockedException.

#[global] Instance exn_eq_dec : EqDecision exn.
Proof. solve_decision. Defined.

Inductive result (A : Type) :=
  | Ok (a : A)
  | Raise (e : exn).
Arguments Ok {A} a.
Arguments Raise {A} e.

Definition is_ok {A} (r : result A) : bool :=
  match r with Ok _ => true | Raise _ => false end.

(** A method running on a state [S]: it returns the state it leaves behind
    together with its value or the exception it raised. *)
Definition M (S A : Type) : Type := S -> S * result A.

Definition ret {S A} (a : A) : M S A := fun s => (s, Ok a).

Definition raise {S A} (e : exn) : M S A := fun s => (s, Raise e).

Definition bind {S A B} (m : M S A) (k : A -> M S B) : M S B :=
  fun s => match m s with
           | (s', Ok a) => k a s'
           | (s', Raise e) => (s', Raise e)
           end.

Definition gets {S A} (f : S -> A) : M S A := fun s => (s, Ok (f s)).

Definition modify {S} (f : S -> S) : M S unit := fun s => (f s, Ok tt).

Definition lift_result {S A} (r : result A) : M S A := fun s => (s, r).

Notation "'let!' x ':=' c1 'in' c2" := (bind c1 (fun x => c2))
  (at level 10, x name, c1 at level 100, c2 at level 200).
Notation "'let!' ' pat ':=' c1 'in' c2" :=
  (bind c1 (fun x => match x with pat => c2 end))
  (at level 10, pat pattern, c1 at level 100, c2 at level 200).
Notation "'run!' c1 'in' c2" := (bind c1 (fun _ => c2))
  (at level 10, c1 at level 100, c2 at level 200).

(** [for x in l: body x] *)
Fixpoint for_each {S A} (l : list A) (body : A -> M S unit) : M S unit :=
  match l with
  | [] => ret tt
  | x :: l' => run! body x in for_each l' body
  end.

(** A [for] loop that threads local variables [acc] through its body. *)
Fixpoint for_fold {S A B} (l : list A) (body : B -> A -> M S B) (acc : B) : M S B :=
  match l with
  | [] => ret acc
  | x :: l' => let! acc' := body acc x in for_fold l' body acc'
  end.

(** Reading a local variable that may not have been assigned yet. *)
Definition read_local {S A} (v : option A) : M S A :=
  match v with
  | Some a => ret a
  | None => raise UnboundLocalError
  end.

(** Run a method of one trajectory inside a computation over the pair
    (current trajectory, other trajectory). *)
Definition on_self {S T A} (m : M S A) : M (S * T) A :=
  fun st => match m (fst st) with (s', r) => ((s', snd st), r) end.

Definition on_other {S T A} (m : M T A) : M (S * T) A :=
  fun st => match m (snd st) with (t', r) => ((fst st, t'), r) end.

(** ** Parameters *)

(** Modelled from the spec: [pypet/parameter.py] is not part of the
    sources.  Section 3 and 4.2 of the spec describe a LeafEntity: a value,
    an ordered range with one value per run, a lock, and explored iff the
    range is non-empty.  [p_data] is the externally visible value returned
    by [f_get()], [p_default] the value set before exploration. *)
Record Param := mkParam {
  p_data : value;
  p_default : value;
  p_range : list value;
  p_locked : bool;
  p_full_copy : bool
}.

#[global] Instance Param_eq_dec : EqDecision Param.
Proof. solve_decision. Defined.

Definition set_p_data (v : value) (p : Param) : Param :=
  mkParam v (p_default p) (p_range p) (p_locked p) (p_full_copy p).
Definition set_p_range (r : list value) (p : Param) : Param :=
  mkParam (p_data p) (p_default p) r (p_locked p) (p_full_copy p).
Definition set_p_locked (b : bool) (p : Param) : Param :=
  mkParam (p_data p) (p_default p) (p_range p) b (p_full_copy p).
Definition set_p_full_copy (b : bool) (p : Param) : Param :=
  mkParam (p_data p) (p_default p) (p_range p) (p_locked p) b.

(** Modelled from the spec: a leaf is explored iff its range is non-empty. *)
Definition f_has_range (p : Param) : bool :=
  match p_range p with [] => false | _ :: _ => true end.

Definition p_f_get (p : Param) : value := p_data p.

Definition f_get_range (p : Param) : list value := p_range p.

(** Modelled from the spec: the length of a leaf is the length of its
    range (``an ordered sequence of values, length L''). *)
Definition p_len (p : Param) : Z := Z.of_nat (length (p_range p)).

Definition f_lock (p : Param) : Param := set_p_locked true p.
Definition f_unlock (p : Param) : Param := set_p_locked false p.

(** Modelled from the spec: ``explore(values) fails if already explored or
    locked, else sets range = values, marks explored''. *)
Definition _explore (values : list value) (p : Param) : result Param :=
  if p_locked p then Raise ParameterLockedException
  else if f_has_range p then Raise TypeError
  else Ok (set_p_range values p).

(** Modelled from the spec: ``expand(extra_values) appends to an existing
    range (fails if not already explored, or if locked)''. *)
Definition _expand (values : list value) (p : Param) : result Param :=
  if p_locked p then Raise ParameterLockedException
  else if negb (f_has_range p) then Raise TypeError
  else Ok (set_p_range (p_range p ++ values) p).

(** Modelled from the spec: ``restoreDefault() resets the externally-visible
    value to whatever was set before exploration''. *)
Definition _restore_default (p : Param) : Param :=
  set_p_data (p_default p) p.

(** Python list indexing [l[i]], negative indices counting from the end. *)
Definition py_index {A} (l : list A) (i : Z) : option A :=
  let n := Z.of_nat (length l) in
  if (0 <=? i) && (i <? n) then l !! Z.to_nat i
  else if (- n <=? i) && (i <? 0) then l !! Z.to_nat (n + i)
  else None.

(** Modelled from the spec: ``setAccessIndex(i) makes getValue() return
    range[i]''; a leaf without a range is left as it is. *)
Definition _set_parameter_access (idx : Z) (p : Param) : result Param :=
  if f_has_range p then
    match py_index (p_range p) idx with
    | Some v => Ok (set_p_data v p)
    | None => Raise IndexError
    end
  else Ok p.

(** Modelled from the spec: shrinking removes the exploration range of an
    unlocked leaf ([f_shrink]: ``removes all exploration ranges from the
    parameters''). *)
Definition _shrink (p : Param) : result Param :=
  if p_locked p then Raise ParameterLockedException
  else Ok (set_p_range [] p).

(** ** Run names *)

(** Modelled from the spec: [pypet/pypetconstants.py] is not part of the
    sources.  Section 6: run names are ["run_"] followed by the index
    zero-padded to width 8; one reserved sentinel names the shared branch. *)
Definition RUN_NAME : string := "run_".
Definition RUN_NAME_DUMMY : string := "run_ALL".

Fixpoint zeros (n : nat) : string :=
  match n with
  | O => EmptyString
  | S n' => String "0" (zeros n')
  end.

Definition zero_pad (width : nat) (s : string) : string :=
  zeros (width - String.length s) +:+ s.

(** ['%08d' % idx]: the sign, when there is one, counts towards the width. *)
Definition fmt_08d (idx : Z) : string :=
  if idx <? 0
  then "-" +:+ zero_pad 7 (NilZero.string_of_uint (N.to_uint (Z.to_N (- idx))))
  else zero_pad 8 (NilZero.string_of_uint (N.to_uint (Z.to_N idx))).

Definition FORMATTED_RUN_NAME (idx : Z) : string := RUN_NAME +:+ fmt_08d idx.

(** ** The trajectory *)

(** The information dictionary of one run.  Time stamps and run times are
    opaque tokens; [ri_name] and [ri_parameter_summary] are optional because
    the dictionaries written by [_merge_single_runs] do not carry them. *)
Record RunInfo := mkRunInfo {
  ri_idx : Z;
  ri_timestamp : string;
  ri_finish_timestamp : string;
  ri_runtime : string;
  ri_time : string;
  ri_completed : Z;
  ri_name : option string;
  ri_parameter_summary : option string;
  ri_short_environment_hexsha : string
}.

#[global] Instance RunInfo_eq_dec : EqDecision RunInfo.
Proof. solve_decision. Defined.

Definition set_ri_completed (c : Z) (i : RunInfo) : RunInfo :=
  mkRunInfo (ri_idx i) (ri_timestamp i) (ri_finish_timestamp i) (ri_runtime i)
            (ri_time i) c (ri_name i) (ri_parameter_summary i)
            (ri_short_environment_hexsha i).

(** Python truthiness of an integer. *)
Definition truthy (z : Z) : bool := negb (z =? 0).

(** A group or result node of the tree, by the attributes the merge reads:
    whether it is a leaf, the run branch it hangs under, its comment and
    annotations, and its links (link name to full name of the linked node). *)
Record Node := mkNode {
  v_is_leaf : bool;
  v_run_branch : string;
  v_comment : string;
  v_annotations : list (string * string);
  n_links : gmap string string
}.

(** An entry of the reverse link index: the linking node, by its full name
    and run branch, and the names of its links to the linked node. *)
Record linking := mkLinking {
  linking_full_name : string;
  linking_run_branch : string;
  link_set : list string
}.

(** Messages handed to the logger. *)
Inductive log_record :=
  | InfoAlreadyExplored
  | InfoMergingLinks
  | WarnTrialAndDuplicates
  | WarnLinkedUnderDummy (linked : string)
  | WarnLinkingUnderDummy (linking : string)
  | WarnLinkNamedDummy (link linking : string)
  | DebugLinkExists (link linked : string)
  | ErrorCouldNotCopyLink (link linking linked : string) (e : exn).

#[global] Instance log_record_eq_dec : EqDecision log_record.
Proof. solve_decision. Defined.

(** [_single_run_ids] is one bidirectional dictionary, ``1 <-> 'run_00000001'
    in both directions''.  Every write stores a name under an index and
    that index under the name, so its integer-keyed half and its
    string-keyed half are kept as two typed maps. *)
Record run_ids := mkRunIds {
  name_of_idx : gmap Z string;
  idx_of_name : gmap string Z
}.

Record Trajectory := mkTrajectory {
  _is_run : bool;
  _length_during_nfc : option Z;
  _parameters : gmap string Param;
  _explored_parameters : list string;
  _single_run_ids : run_ids;
  _run_information : gmap string RunInfo;
  _idx : Z;
  _crun : option string;
  _full_copy : bool;
  _stored : bool;
  _expansion_not_stored : bool;
  _nodes : gmap string Node;
  _run_parent_groups : list string;
  _linked_by : list (string * list linking);
  _logger : list log_record
}.

Definition set_is_run (b : bool) (t : Trajectory) : Trajectory :=
  mkTrajectory b (_length_during_nfc t) (_parameters t) (_explored_parameters t)
    (_single_run_ids t) (_run_information t) (_idx t) (_crun t) (_full_copy t)
    (_stored t) (_expansion_not_stored t) (_nodes t) (_run_parent_groups t) (_linked_by t) (_logger t).
Definition set_length_during_nfc (l : option Z) (t : Trajectory) : Trajectory :=
  mkTrajectory (_is_run t) l (_parameters t) (_explored_parameters t)
    (_single_run_ids t) (_run_information t) (_idx t) (_crun t) (_full_copy t)
    (_stored t) (_expansion_not_stored t) (_nodes t) (_run_parent_groups t) (_linked_by t) (_logger t).
Definition set_parameters (ps : gmap string Param) (t : Trajectory) : Trajectory :=
  mkTrajectory (_is_run t) (_length_during_nfc t) ps (_explored_parameters t)
    (_single_run_ids t) (_run_information t) (_idx t) (_crun t) (_full_copy t)
    (_stored t) (_expansion_not_stored t) (_nodes t) (_run_parent_groups t) (_linked_by t) (_logger t).
Definition set_explored_parameters (e : list string) (t : Trajectory) : Trajectory :=
  mkTrajectory (_is_run t) (_length_during_nfc t) (_parameters t) e
    (_single_run_ids t) (_run_information t) (_idx t) (_crun t) (_full_copy t)
    (_stored t) (_expansion_not_stored t) (_nodes t) (_run_parent_groups t) (_linked_by t) (_logger t).
Definition set_single_run_ids (ids : run_ids) (t : Trajectory) : Trajectory :=
  mkTrajectory (_is_run t) (_length_during_nfc t) (_parameters t) (_explored_parameters t)
    ids (_run_information t) (_idx t) (_crun t) (_full_copy t)
    (_stored t) (_expansion_not_stored t) (_nodes t) (_run_parent_groups t) (_linked_by t) (_logger t).
Definition set_run_information (ri : gmap string RunInfo) (t : Trajectory) : Trajectory :=
  mkTrajectory (_is_run t) (_length_during_nfc t) (_parameters t) (_explored_parameters t)
    (_single_run_ids t) ri (_idx t) (_crun t) (_full_copy t)
    (_stored t) (_expansion_not_stored t) (_nodes t) (_run_parent_groups t) (_linked_by t) (_logger t).
Definition set_idx (i : Z) (t : Trajectory) : Trajectory :=
  mkTrajectory (_is_run t) (_length_during_nfc t) (_parameters t) (_explored_parameters t)
    (_single_run_ids t) (_run_information t) i (_crun t) (_full_copy t)
    (_stored t) (_expansion_not_stored t) (_nodes t) (_run_parent_groups t) (_linked_by t) (_logger t).
Definition set_crun (c : option string) (t : Trajectory) : Trajectory :=
  mkTrajectory (_is_run t) (_length_during_nfc t) (_parameters t) (_explored_parameters t)
    (_single_run_ids t) (_run_information t) (_idx t) c (_full_copy t)
    (_stored t) (_expansion_not_stored t) (_nodes t) (_run_parent_groups t) (_linked_by t) (_logger t).
Definition set_full_copy (b : bool) (t : Trajectory) : Trajectory :=
  mkTrajectory (_is_run t) (_length_during_nfc t) (_parameters t) (_explored_parameters t)
    (_single_run_ids t) (_run_information t) (_idx t) (_crun t) b
    (_stored t) (_expansion_not_stored t) (_nodes t) (_run_parent_groups t) (_linked_by t) (_logger t).
Definition set_stored (b : bool) (t : Trajectory) : Trajectory :=
  mkTrajectory (_is_run t) (_length_during_nfc t) (_parameters t) (_explored_parameters t)
    (_single_run_ids t) (_run_information t) (_idx t) (_crun t) (_full_copy t)
    b (_expansion_not_stored t) (_nodes t) (_run_parent_groups t) (_linked_by t) (_logger t).
Definition set_expansion_not_stored (b : bool) (t : Trajectory) : Trajectory :=
  mkTrajectory (_is_run t) (_length_during_nfc t) (_parameters t) (_explored_parameters t)
    (_single_run_ids t) (_run_information t) (_idx t) (_crun t) (_full_copy t)
    (_stored t) b (_nodes t) (_run_parent_groups t) (_linked_by t) (_logger t).
Definition set_nodes (ns : gmap string Node) (t : Trajectory) : Trajectory :=
  mkTrajectory (_is_run t) (_length_during_nfc t) (_parameters t) (_explored_parameters t)
    (_single_run_ids t) (_run_information t) (_idx t) (_crun t) (_full_copy t)
    (_stored t) (_expansion_not_stored t) ns (_run_parent_groups t) (_linked_by t) (_logger t).
Definition set_linked_by (lb : list (string * list linking))
    (t : Trajectory) : Trajectory :=
  mkTrajectory (_is_run t) (_length_during_nfc t) (_parameters t) (_explored_parameters t)
    (_single_run_ids t) (_run_information t) (_idx t) (_crun t) (_full_copy t)
    (_stored t) (_expansion_not_stored t) (_nodes t) (_run_parent_groups t) lb (_logger t).
Definition set_run_parent_groups (g : list string) (t : Trajectory) : Trajectory :=
  mkTrajectory (_is_run t) (_length_during_nfc t) (_parameters t) (_explored_parameters t)
    (_single_run_ids t) (_run_information t) (_idx t) (_crun t) (_full_copy t)
    (_stored t) (_expansion_not_stored t) (_nodes t) g (_linked_by t) (_logger t).
Definition set_logger (l : list log_record) (t : Trajectory) : Trajectory :=
  mkTrajectory (_is_run t) (_length_during_nfc t) (_parameters t) (_explored_parameters t)
    (_single_run_ids t) (_run_information t) (_idx t) (_crun t) (_full_copy t)
    (_stored t) (_expansion_not_stored t) (_nodes t) (_run_parent_groups t) (_linked_by t) l.

Definition log (r : log_record) : M Trajectory unit :=
  modify (fun t => set_logger (_logger t ++ [r]) t).

(** ** Run ledger *)

(** Modelled from the spec: [pypet/utils/decorators.py] is not part of the
    sources.  A method decorated [@not_in_run] is not available while the
    trajectory is used as a single run. *)
Definition not_in_run : M Trajectory unit :=
  fun t => if _is_run t then (t, Raise TypeError) else (t, Ok tt).

Definition __len__ (t : Trajectory) : Z :=
  match _length_during_nfc t with
  | Some l => l
  | None => Z.of_nat (size (_run_information t))
  end.

(** [self._single_run_ids[name_or_idx]] *)
Definition f_idx_to_run (name_or_idx : Z + string) : M Trajectory (Z + string) :=
  fun t =>
    match name_or_idx with
    | inl idx =>
        match name_of_idx (_single_run_ids t) !! idx with
        | Some name => (t, Ok (inr name))
        | None => (t, Raise KeyError)
        end
    | inr name =>
        match idx_of_name (_single_run_ids t) !! name with
        | Some idx => (t, Ok (inl idx))
        | None => (t, Raise KeyError)
        end
    end.

(** [self._run_information[key]]: the keys of that dictionary are names. *)
Definition run_information_item (key : Z + string) : M Trajectory RunInfo :=
  fun t =>
    match key with
    | inr name =>
        match _run_information t !! name with
        | Some info => (t, Ok info)
        | None => (t, Raise KeyError)
        end
    | inl _ => (t, Raise KeyError)
    end.

(** [f_get_run_information(name_or_idx)] for a given name or index: on a
    [KeyError] the key is converted with [f_idx_to_run] and looked up again. *)
Definition f_get_run_information (name_or_idx : Z + string) : M Trajectory RunInfo :=
  fun t =>
    match run_information_item name_or_idx t with
    | (t', Ok info) => (t', Ok info)
    | (t', Raise KeyError) =>
        (let! converted := f_idx_to_run name_or_idx in
         run_information_item converted) t'
    | (t', Raise e) => (t', Raise e)
    end.

Definition _is_completed (name_or_id : option (Z + string)) : M Trajectory Z :=
  match name_or_id with
  | None =>
      gets (fun t =>
        if forallb (fun kv => truthy (ri_completed (snd kv)))
                   (map_to_list (_run_information t))
        then 1 else 0)
  | Some k =>
      let! info := f_get_run_information k in
      ret (ri_completed info)
  end.

Definition f_is_completed (name_or_id : option (Z + string)) : M Trajectory Z :=
  run! not_in_run in _is_completed name_or_id.

Definition _add_run_info (idx : Z) : M Trajectory unit :=
  let runname := FORMATTED_RUN_NAME idx in
  run! modify (fun t =>
         set_single_run_ids
           (mkRunIds (name_of_idx (_single_run_ids t))
                     (<[runname := idx]> (idx_of_name (_single_run_ids t)))) t) in
  run! modify (fun t =>
         set_single_run_ids
           (mkRunIds (<[idx := runname]> (name_of_idx (_single_run_ids t)))
                     (idx_of_name (_single_run_ids t))) t) in
  let info_dict :=
    mkRunInfo idx "42.0" "1.337" "forever and ever" "~waste ur t1me with a phd"
              0 (Some runname) (Some "Not yet my friend!") "notyet1" in
  modify (fun t => set_run_information (<[runname := info_dict]> (_run_information t)) t).

(** The attributes after a successful [Trajectory(...)]: every dictionary
    empty, then [self._add_run_info(0)] because ``per definition the length
    is set to be 1''. *)
Definition __init__ : Trajectory :=
  fst (_add_run_info 0
         {| _is_run := false;
            _length_during_nfc := None;
            _parameters := ∅;
            _explored_parameters := [];
            _single_run_ids := mkRunIds ∅ ∅;
            _run_information := ∅;
            _idx := -1;
            _crun := None;
            _full_copy := false;
            _stored := false;
            _expansion_not_stored := false;
            _nodes := ∅;
            _run_parent_groups := [];
            _linked_by := [];
            _logger := [] |}).

(** ** Lookup in the tree *)

(** What [f_get] can return: a parameter leaf, or a group or result node. *)
Inductive item :=
  | IParam (p : Param)
  | INode (n : Node).

Definition item_is_leaf (i : item) : bool :=
  match i with IParam _ => true | INode n => v_is_leaf n end.

Definition item_is_parameter (i : item) : bool :=
  match i with IParam _ => true | INode _ => false end.

(** Modelled from the spec: [pypet/naturalnaming.py] is not part of the
    sources.  Section 4.1: [resolve] walks the query as an exact dotted
    path from the root and fails with [NotFound] when nothing is there.
    Keys are full names, so the full name of the item found is the key. *)
Definition f_get (key : string) : M Trajectory item :=
  fun t =>
    match _parameters t !! key with
    | Some p => (t, Ok (IParam p))
    | None =>
        match _nodes t !! key with
        | Some n => (t, Ok (INode n))
        | None => (t, Raise AttributeError)
        end
    end.

Definition f_contains (key : string) (t : Trajectory) : bool :=
  bool_decide (is_Some (_parameters t !! key)) || bool_decide (is_Some (_nodes t !! key)).

(** Writing through a reference to the parameter object stored under [key]. *)
Definition store_param (key : string) (p : Param) : M Trajectory unit :=
  modify (fun t => set_parameters (<[key := p]> (_parameters t)) t).

(** [self._explored_parameters[name] = act_param] *)
Definition add_explored (name : string) : M Trajectory unit :=
  modify (fun t =>
    if bool_decide (name ∈ _explored_parameters t) then t
    else set_explored_parameters (_explored_parameters t ++ [name]) t).

(** ** The current-run cursor *)

Definition f_restore_default : M Trajectory unit :=
  run! not_in_run in
  run! modify (set_idx (-1)) in
  run! modify (set_crun None) in
  let! explored := gets _explored_parameters in
  for_each explored (fun key =>
    modify (fun t => set_parameters (alter _restore_default key (_parameters t)) t)).

Definition _set_explored_parameters_to_idx (idx : Z) : M Trajectory unit :=
  let! explored := gets _explored_parameters in
  for_each explored (fun key =>
    let! ps := gets _parameters in
    match ps !! key with
    | Some p =>
        let! p' := lift_result (_set_parameter_access idx p) in
        store_param key p'
    | None => ret tt
    end).

Definition f_set_crun (name_or_idx : option (Z + string)) : M Trajectory unit :=
  run! not_in_run in
  match name_or_idx with
  | None => f_restore_default
  | Some (inr name) =>
      if bool_decide (name = RUN_NAME_DUMMY) then f_restore_default
      else
        let! r := f_idx_to_run (inr name) in
        run! match r with
             | inl idx => modify (set_idx idx)
             | inr _ => ret tt
             end in
        run! modify (set_crun (Some name)) in
        let! i := gets _idx in
        _set_explored_parameters_to_idx i
  | Some (inl idx) =>
      if idx =? -1 then f_restore_default
      else
        let! r := f_idx_to_run (inl idx) in
        run! match r with
             | inr name => modify (set_crun (Some name))
             | inl _ => ret tt
             end in
        run! modify (set_idx idx) in
        let! i := gets _idx in
        _set_explored_parameters_to_idx i
  end.

(** [range(a, b)] *)
Definition py_range (a b : Z) : list Z := seqZ a (b - a).

Definition f_get_run_names (sort : bool) : M Trajectory (list string) :=
  if sort then
    let! n := gets __len__ in
    for_fold (py_range 0 n)
      (fun acc idx =>
         let! r := f_idx_to_run (inl idx) in
         match r with
         | inr name => ret (acc ++ [name])
         | inl _ => ret acc
         end) []
  else gets (fun t => (map_to_list (_run_information t)).*1).

(** The generator [f_iter_runs], driven to exhaustion by a loop whose body
    is [body]; the value is the list of names it yielded. *)
Definition f_iter_runs (body : string -> M Trajectory unit) : M Trajectory (list string) :=
  run! not_in_run in
  let! names := f_get_run_names true in
  let! yielded :=
    for_fold names
      (fun acc run_name =>
         run! f_set_crun (Some (inr run_name)) in
         run! body run_name in
         ret (acc ++ [run_name])) [] in
  run! f_set_crun None in
  ret yielded.

Definition _make_single_run (idx : Z) : M Trajectory unit :=
  run! modify (set_is_run false) in
  run! f_set_crun (Some (inl idx)) in
  modify (set_is_run true).

(** [self._run_information[self.v_crun]['completed'] = 1]; the removal of
    the run's results that follows works on the tree only. *)
Definition _finalize_run : M Trajectory unit :=
  let! crun := gets _crun in
  let! ri := gets _run_information in
  match crun with
  | Some name =>
      match ri !! name with
      | Some info =>
          modify (set_run_information (<[name := set_ri_completed 1 info]> ri))
      | None => raise KeyError
      end
  | None => raise KeyError
  end.

Definition f_lock_parameters : M Trajectory unit :=
  run! not_in_run in
  modify (fun t => set_parameters (f_lock <$> _parameters t) t).

(** The setter of [v_full_copy]. *)
Definition set_v_full_copy (val : bool) : M Trajectory unit :=
  run! not_in_run in
  let! cur := gets _full_copy in
  if bool_decide (val = cur) then ret tt
  else
    run! modify (set_full_copy val) in
    let! explored := gets _explored_parameters in
    for_each explored (fun key =>
      modify (fun t => set_parameters (alter (set_p_full_copy val) key (_parameters t)) t)).

(** ** Shrinking *)

Definition f_shrink : M Trajectory unit :=
  run! not_in_run in
  let! stored := gets _stored in
  if stored then raise TypeError
  else
    let! explored := gets _explored_parameters in
    run! for_each explored (fun key =>
           let! ps := gets _parameters in
           match ps !! key with
           | Some p =>
               run! store_param key (f_unlock p) in
               let! p' := lift_result (_shrink (f_unlock p)) in
               store_param key p'
           | None => ret tt
           end) in
    run! modify (set_explored_parameters []) in
    run! modify (set_run_information ∅) in
    run! modify (set_single_run_ids (mkRunIds ∅ ∅)) in
    _add_run_info 0.

(** ** Exploration and expansion *)

(** The body of the loop of [f_explore]; its local variables are [count]
    and [length], the latter unassigned until the first branch that sets it
    has run. *)
Definition f_explore_body (locals : Z * option Z) (kv : string * list value)
    : M Trajectory (Z * option Z) :=
  let '(count, length) := locals in
  let '(key, builditerable) := kv in
  let! act_param := f_get key in
  if negb (item_is_leaf act_param) || negb (item_is_parameter act_param)
  then raise ValueError
  else
    match act_param with
    | INode _ => raise ValueError
    | IParam p =>
        let! p' := lift_result (_explore builditerable p) in
        run! store_param key p' in
        run! add_explored key in
        let! len_self := gets __len__ in
        let length :=
          if (count =? 0) && (len_self =? 1) then Some (p_len p')
          else if 1 <? len_self then Some len_self
          else length in
        let! l := read_local length in
        if negb (l =? p_len p') then raise ValueError
        else ret (count + 1, length)
    end.

Definition f_explore (build_dict : list (string * list value)) : M Trajectory unit :=
  run! not_in_run in
  let! len_self := gets __len__ in
  let! n_explored := gets (fun t => length (_explored_parameters t)) in
  let! already :=
    (if 1 <? len_self then ret true
     else if (0 <? n_explored)%nat then ret true
     else let! c := f_is_completed (Some (inl 0)) in ret (truthy c)) in
  if already : bool then raise TypeError
  else
    run! (if (0 <? n_explored)%nat then log InfoAlreadyExplored else ret tt) in
    let! '(count, length) := for_fold build_dict f_explore_body (0, None) in
    let! l := read_local length in
    for_each (py_range 0 l) _add_run_info.

Definition f_expand_body (locals : Z * option Z) (kv : string * list value)
    : M Trajectory (Z * option Z) :=
  let '(count, length) := locals in
  let '(key, builditerable) := kv in
  let! act_param := f_get key in
  match act_param with
  | INode _ => raise AttributeError
  | IParam p =>
      run! store_param key (f_unlock p) in
      let! p' := lift_result (_expand builditerable (f_unlock p)) in
      run! store_param key p' in
      run! add_explored key in
      if count =? 0 then ret (count + 1, Some (p_len p'))
      else
        let! l := read_local length in
        if negb (l =? p_len p') then raise ValueError
        else ret (count + 1, length)
  end.

Definition f_expand (build_dict : list (string * list value)) : M Trajectory unit :=
  run! not_in_run in
  let! enlarge_set :=
    for_fold build_dict
      (fun acc kv => run! f_get (fst kv) in ret (acc ++ [fst kv])) [] in
  let! explored := gets _explored_parameters in
  if negb (bool_decide (list_to_set explored =@{gset string} list_to_set enlarge_set))
  then raise TypeError
  else
    let! '(count, length) := for_fold build_dict f_expand_body (0, None) in
    let! original_length := gets __len__ in
    let! l := read_local length in
    run! for_each (py_range original_length l) _add_run_info in
    let! stored := gets _stored in
    if stored then modify (set_expansion_not_stored true) else ret tt.

(** ** Pickling *)

(** [__getstate__] returns a copy of the attribute dictionary without the
    logger; [self] is not changed.  The copy has the shape of a trajectory. *)
Definition __getstate__ (t : Trajectory) : result Trajectory :=
  let result := t in
  let narrowed :=
    if negb (_full_copy t) then
      let r1 :=
        if negb (_idx t =? -1) then
          match name_of_idx (_single_run_ids t) !! _idx t with
          | Some runname =>
              match _run_information t !! runname with
              | Some info =>
                  Ok (set_single_run_ids
                        (mkRunIds {[ _idx t := runname ]} {[ runname := _idx t ]})
                        (set_run_information {[ runname := info ]} result))
              | None => Raise KeyError
              end
          | None => Raise KeyError
          end
        else Ok result in
      match r1 with
      | Ok r =>
          match _length_during_nfc t with
          | None => Ok (set_length_during_nfc (Some (__len__ t)) r)
          | Some _ => Ok r
          end
      | Raise e => Raise e
      end
    else Ok result in
  match narrowed with
  | Ok r => Ok (set_logger [] r)
  | Raise e => Raise e
  end.

(** [__setstate__] on the blank object that unpickling creates:
    [self.__dict__.update(statedict)], then a new logger. *)
Definition __setstate__ (statedict : Trajectory) : Trajectory :=
  set_logger [] statedict.

(** A parameter leaf holding [v], as [f_add_parameter] creates it. *)
Definition new_param (v : value) : Param := mkParam v v [] false false.

(** Modelled from the spec: [f_add_parameter] belongs to
    [pypet/naturalnaming.py], which is not part of the sources.  Section
    4.1: [add] fails with [NameConflict] if the path already exists. *)
Definition f_add_parameter (name : string) (v : value) : M Trajectory unit :=
  fun t =>
    if f_contains name t then (t, Raise AttributeError)
    else (set_parameters (<[name := new_param v]> (_parameters t)) t, Ok tt).

(** ** Names and paths *)

(** [needle in hay] for strings. *)
Fixpoint str_in (needle hay : string) : bool :=
  String.prefix needle hay ||
  match hay with
  | EmptyString => false
  | String _ hay' => str_in needle hay'
  end.

(** [key.split('.')] *)
Fixpoint split_dot (key : string) : list string :=
  match key with
  | EmptyString => [EmptyString]
  | String c key' =>
      if Ascii.eqb c "." then EmptyString :: split_dot key'
      else match split_dot key' with
           | [] => [String c EmptyString]
           | h :: t => String c h :: t
           end
  end.

(** ['.'.join(split_key)] *)
Definition join_dot (split_key : list string) : string := String.concat "." split_key.

(** The positions of the segments of a full name that start with ["run_"]:
    [for idx, split in enumerate(full_name.split('.'))]. *)
Definition run_positions (full_name : string) : list nat :=
  List.map fst
    (List.filter (fun p => String.prefix RUN_NAME (snd p))
       (imap (fun idx split => (idx, split)) (split_dot full_name))).

Definition _rename_key (key : string) (pos_list : list nat) (new_name : string) : string :=
  let split_key := split_dot key in
  let split_key := fold_left (fun sk pos => <[pos := new_name]> sk) pos_list split_key in
  join_dot split_key.

(** Lookup in an ordered dictionary kept as a list of items. *)
Fixpoint assoc {A} (key : string) (d : list (string * A)) : option A :=
  match d with
  | [] => None
  | (k, v) :: d' => if bool_decide (k = key) then Some v else assoc key d'
  end.

(** [d[key] = v] on an ordered dictionary: a present key keeps its place. *)
Fixpoint assoc_set {A} (key : string) (v : A) (d : list (string * A)) : list (string * A) :=
  match d with
  | [] => [(key, v)]
  | (k, w) :: d' => if bool_decide (k = key) then (k, v) :: d' else (k, w) :: assoc_set key v d'
  end.

(** ** Adding nodes and links to the tree *)

(** Modelled from the spec: [pypet/naturalnaming.py] is not part of the
    sources.  A node hangs under the run branch named by the first segment
    of its path that starts with ["run_"], and under ['trajectory'] when
    there is none. *)
Definition run_branch_of (full_name : string) : string :=
  match List.filter (String.prefix RUN_NAME) (split_dot full_name) with
  | [] => "trajectory"
  | seg :: _ => seg
  end.

(** The proper prefixes of a path, shortest first: the groups above it. *)
Definition ancestors (full_name : string) : list string :=
  let segs := split_dot full_name in
  List.map (fun n => join_dot (take n segs)) (seq 1 (length segs - 1)).

(** Modelled from the spec: Section 4.1, [add(path, node)] fails with
    [NameConflict] if the path already exists; the groups above the new
    node are created when they are missing, and a group that gets a run
    group as a child is recorded in [_run_parent_groups]. *)
Definition add_node (full_name : string) (is_leaf : bool) (comment : string)
    (annotations : list (string * string)) : M Trajectory unit :=
  fun t =>
    if f_contains full_name t then (t, Raise AttributeError)
    else
      let fresh name leaf c a :=
        mkNode leaf (run_branch_of name) c a ∅ in
      let nodes :=
        fold_left
          (fun ns anc =>
             if bool_decide (is_Some (ns !! anc)) || bool_decide (is_Some (_parameters t !! anc))
             then ns else <[anc := fresh anc false "" []]> ns)
          (ancestors full_name) (_nodes t) in
      let nodes := <[full_name := fresh full_name is_leaf comment annotations]> nodes in
      let parents :=
        fold_left
          (fun ps path =>
             match reverse (split_dot path) with
             | last_seg :: _ :: _ =>
                 let parent := join_dot (take (length (split_dot path) - 1) (split_dot path)) in
                 if String.prefix RUN_NAME last_seg && negb (bool_decide (parent ∈ ps))
                 then ps ++ [parent] else ps
             | _ => ps
             end)
          (ancestors full_name ++ [full_name]) (_run_parent_groups t) in
      (set_run_parent_groups parents (set_nodes nodes t), Ok tt).

Definition f_add_result (full_name comment : string) : M Trajectory unit :=
  add_node full_name true comment [].

Definition f_add_group (full_name : string) : M Trajectory unit :=
  add_node full_name false "" [].

(** Adding a group that carries the annotations and the comment of another. *)
Definition f_add_annotated_group (full_name comment : string)
    (annotations : list (string * string)) : M Trajectory unit :=
  add_node full_name false comment annotations.

(** [d[linked][linking] = (node, link_set + {link})] on the reverse index. *)
Definition register_link (linked linking_name link : string)
    (lb : list (string * list linking)) : list (string * list linking) :=
  let entries := default [] (assoc linked lb) in
  let add e :=
    if bool_decide (linking_full_name e = linking_name)
    then mkLinking (linking_full_name e) (linking_run_branch e)
           (if bool_decide (link ∈ link_set e) then link_set e else link_set e ++ [link])
    else e in
  let entries' :=
    if existsb (fun e => bool_decide (linking_full_name e = linking_name)) entries
    then List.map add entries
    else entries ++ [mkLinking linking_name (run_branch_of linking_name) [link]] in
  assoc_set linked entries' lb.

(** Modelled from the spec: Sections 3 and 4.3, [addLink(source, name,
    target)]: the link is stored in the source group and the reverse index
    gains its entry in the same step; a leaf cannot hold links. *)
Definition f_add_link (source link target : string) : M Trajectory unit :=
  fun t =>
    match _nodes t !! source with
    | Some n =>
        if v_is_leaf n then (t, Raise AttributeError)
        else
          let n' := mkNode (v_is_leaf n) (v_run_branch n) (v_comment n)
                           (v_annotations n) (<[link := target]> (n_links n)) in
          (set_linked_by (register_link target source link (_linked_by t))
             (set_nodes (<[source := n']> (_nodes t)) t), Ok tt)
    | None => (t, Raise AttributeError)
    end.

Definition item_run_branch (i : item) : string :=
  match i with
  | IParam _ => "trajectory"
  | INode n => v_run_branch n
  end.

(** [try: body except (AttributeError, ValueError) as e: handler e] *)
Definition try_except {S} (body : M S unit) (handler : exn -> M S unit) : M S unit :=
  fun s =>
    match body s with
    | (s', Ok tt) => (s', Ok tt)
    | (s', Raise AttributeError) => handler AttributeError s'
    | (s', Raise ValueError) => handler ValueError s'
    | (s', Raise e) => (s', Raise e)
    end.

(** ** Merging: compatibility check *)

Definition get_param (key : string) : M Trajectory Param :=
  let! i := f_get key in
  match i with
  | IParam p => ret p
  | INode _ => raise AttributeError
  end.

(** [_check_if_both_have_same_parameters] with
    [ignore_trajectory_derived_parameters=True].  The state is the pair of
    the current and the other trajectory, which are two distinct objects.
    Loading from the storage service has no counterpart: both trajectories
    are taken fully loaded. *)
Definition _check_if_both_have_same_parameters : M (Trajectory * Trajectory) unit :=
  run! on_self f_restore_default in
  run! on_other f_restore_default in
  let! allmyparams := gets (fun st => _parameters (fst st)) in
  let! allotherparams := gets (fun st => _parameters (snd st)) in
  let my_keyset : gset string := dom allmyparams in
  let other_keyset : gset string := dom allotherparams in
  run! (if negb (bool_decide (my_keyset = other_keyset)) then
          let diff1 := my_keyset ∖ other_keyset in
          let diff2 := other_keyset ∖ my_keyset in
          let run_difference_can_be_resolved :=
            forallb (str_in RUN_NAME) (elements diff1) &&
            forallb (str_in RUN_NAME) (elements diff2) in
          if negb run_difference_can_be_resolved then raise TypeError else ret tt
        else ret tt) in
  for_each (map_to_list allotherparams) (fun kv =>
    let! my_param := on_self (get_param (fst kv)) in
    if str_in RUN_NAME (fst kv) then ret tt
    else if negb (_values_of_same_type (p_f_get my_param) (p_f_get (snd kv)))
    then raise TypeError
    else ret tt).

(** ** Merging: parameters *)

Definition as_int (v : value) : option Z :=
  match v with VInt z => Some z | VStr _ => None end.

Definition py_max (l : list Z) : option Z :=
  match l with
  | [] => None
  | x :: l' => Some (fold_left Z.max l' x)
  end.

(** The range of a trial parameter, or its single value as a range of
    length one. *)
Definition trial_list (p : Param) : list value :=
  if f_has_range p then f_get_range p else [p_f_get p].

(** The sanity check on one trial range: [max] of the set of its values,
    and the comparison of that set with [set(range(max + 1))].  A value
    that is not an integer makes [max] or the addition raise [TypeError]. *)
Definition check_trial_range (values : list value) : result (Z * list Z) :=
  match mapM as_int values with
  | None => Raise TypeError
  | Some zs =>
      match py_max zs with
      | None => Raise ValueError
      | Some maxtrial =>
          if bool_decide (list_to_set zs =@{gset Z} list_to_set (seqZ 0 (maxtrial + 1)))
          then Ok (maxtrial, zs)
          else Raise TypeError
      end
  end.

(** The local variables of [_merge_parameters] that the trial block sets. *)
Record trial_locals := mkTrialLocals {
  mymaxtrial_T1 : Z;
  other_trial_list : list Z
}.

Definition merge_trial_block (trial_parameter_name : string)
    : M (Trajectory * Trajectory) trial_locals :=
  let! my_trial_parameter := on_self (f_get trial_parameter_name) in
  let! other_trial_parameter := on_other (f_get trial_parameter_name) in
  match my_trial_parameter with
  | INode _ => raise TypeError
  | IParam my_p =>
      match other_trial_parameter with
      | INode _ => raise AttributeError
      | IParam other_p =>
          let my_trial_list := trial_list my_p in
          let other_trial_list := trial_list other_p in
          let! '(t1, _) := lift_result (check_trial_range my_trial_list) in
          let! '(_, others) := lift_result (check_trial_range other_trial_list) in
          run! on_self (add_explored trial_parameter_name) in
          ret (mkTrialLocals t1 others)
      end
  end.

(** The loop that marks parameters for merging; its locals are
    [params_to_change] (the keys, in insertion order) and
    [remove_duplicates]. *)
Definition mark_body (trial_parameter_name : option string)
    (locals : list string * bool) (kv : string * Param)
    : M (Trajectory * Trajectory) (list string * bool) :=
  let '(params_to_change, remove_duplicates) := locals in
  let '(key, other_param) := kv in
  if str_in RUN_NAME key then ret locals
  else
    let! my_param := on_self (get_param key) in
    if negb (_values_of_same_type (p_f_get my_param) (p_f_get other_param))
    then raise TypeError
    else if bool_decide (Some key = trial_parameter_name) then ret locals
    else if f_has_range my_param || f_has_range other_param ||
            negb (_equal_values (p_f_get my_param) (p_f_get other_param))
    then ret (params_to_change ++ [key],
              if negb (f_has_range my_param) && negb (f_has_range other_param)
              then false else remove_duplicates)
    else ret locals.

(** [if param.f_has_range(): param._set_parameter_access(run)] on the
    parameter object stored under [key]; the value is that object. *)
Definition param_at_run (key : string) (run : Z) : M Trajectory Param :=
  let! param := get_param key in
  if f_has_range param then
    let! p' := lift_result (_set_parameter_access run param) in
    run! store_param key p' in
    ret p'
  else ret param.

(** One comparison of run [irun] of the other trajectory with run [jrun] of
    the current one over all marked parameters; the loop is left at the
    first parameter that differs.  The value is [change]. *)
Definition compare_runs (params_to_change : list string) (irun jrun : Z)
    : M (Trajectory * Trajectory) bool :=
  let! '(change, _) :=
    for_fold params_to_change
      (fun (locals : bool * bool) key =>
         let '(change, broken) := locals in
         if broken then ret locals
         else
           let! other_param := on_other (param_at_run key irun) in
           let! my_param := on_self (param_at_run key jrun) in
           let val1 := p_f_get my_param in
           let val2 := p_f_get other_param in
           if negb (_equal_values val1 val2) then ret (false, true)
           else ret (change, false))
      (true, false) in
  ret change.

(** The search for duplicate points: quadratic in the numbers of runs. *)
Definition remove_duplicate_runs (params_to_change : list string) (use_runs : list bool)
    : M (Trajectory * Trajectory) (list bool) :=
  let! len_other := gets (fun st => __len__ (snd st)) in
  let! use_runs :=
    for_fold (py_range 0 len_other)
      (fun use_runs irun =>
         let! len_self := gets (fun st => __len__ (fst st)) in
         let! '(use_runs, _) :=
           for_fold (py_range 0 len_self)
             (fun (locals : list bool * bool) jrun =>
                let '(use_runs, broken) := locals in
                if broken then ret locals
                else
                  let! change := compare_runs params_to_change irun jrun in
                  if change then ret (<[Z.to_nat irun := false]> use_runs, true)
                  else ret (use_runs, false))
             (use_runs, false) in
         ret use_runs)
      use_runs in
  run! for_each params_to_change (fun key =>
         run! on_other (modify (fun t =>
                set_parameters (alter _restore_default key (_parameters t)) t)) in
         on_self (modify (fun t =>
                set_parameters (alter _restore_default key (_parameters t)) t))) in
  ret use_runs.

(** The values of the other trajectory that extend the range of [key]. *)
Definition other_range_of (trial_parameter_name : option string) (tl : option trial_locals)
    (use_runs : list bool) (adding_length : nat) (key : string) (other_param : Param)
    : M (Trajectory * Trajectory) (list value) :=
  if bool_decide (Some key = trial_parameter_name) then
    let! l := read_local tl in
    ret (List.map (fun x => VInt (x + mymaxtrial_T1 l + 1)) (other_trial_list l))
  else if f_has_range other_param then
    ret (List.map snd (List.filter fst (zip use_runs (f_get_range other_param))))
  else ret (replicate adding_length (p_f_get other_param)).

Definition extend_body (trial_parameter_name : option string) (tl : option trial_locals)
    (use_runs : list bool) (adding_length : nat) (key : string)
    : M (Trajectory * Trajectory) unit :=
  let! my_param := on_self (get_param key) in
  let! other_param := on_other (get_param key) in
  let! other_range :=
    other_range_of trial_parameter_name tl use_runs adding_length key other_param in
  run! (if negb (f_has_range my_param) then
          run! on_self (store_param key (f_unlock my_param)) in
          let! len_self := gets (fun st => __len__ (fst st)) in
          let! p' := lift_result
                       (_explore (replicate (Z.to_nat len_self) (p_f_get my_param))
                                 (f_unlock my_param)) in
          on_self (store_param key p')
        else ret tt) in
  let! my_param := on_self (get_param key) in
  run! on_self (store_param key (f_unlock my_param)) in
  let! p' := lift_result (_expand other_range (f_unlock my_param)) in
  run! on_self (store_param key p') in
  on_self (add_explored key).

(** [_merge_parameters] with [ignore_trajectory_derived_parameters=True]:
    the vector of used runs and the names of the changed parameters. *)
Definition _merge_parameters (remove_duplicates : bool) (trial_parameter_name : option string)
    : M (Trajectory * Trajectory) (list bool * list string) :=
  let trial_given :=
    match trial_parameter_name with
    | Some name => negb (bool_decide (name = EmptyString))
    | None => false
    end in
  let! remove_duplicates :=
    (if trial_given && remove_duplicates
     then run! on_self (log WarnTrialAndDuplicates) in ret false
     else ret remove_duplicates) in
  let! '(params_to_change, tl) :=
    (match trial_parameter_name with
     | Some name =>
         if trial_given
         then let! l := merge_trial_block name in ret ([name], Some l)
         else ret ([], None)
     | None => ret ([], None)
     end) in
  let! params_to_merge := gets (fun st => _parameters (snd st)) in
  let! '(params_to_change, remove_duplicates) :=
    for_fold (map_to_list params_to_merge) (mark_body trial_parameter_name)
             (params_to_change, remove_duplicates) in
  let! len_other := gets (fun st => __len__ (snd st)) in
  let use_runs := replicate (Z.to_nat len_other) true in
  let! use_runs :=
    (if remove_duplicates : bool
     then remove_duplicate_runs params_to_change use_runs
     else ret use_runs) in
  let adding_length := length (List.filter id use_runs) in
  if (adding_length =? 0)%nat then ret (use_runs, [])
  else
    run! for_each params_to_change
           (extend_body trial_parameter_name tl use_runs adding_length) in
    ret (use_runs, params_to_change).

(** ** Merging: results, single runs and links *)

(** The nodes strictly below [root], the groups before what they contain. *)
Definition f_iter_nodes (root : string) (t : Trajectory) : list (string * Node) :=
  let below :=
    List.filter (fun kv => String.prefix (root +:+ ".") (fst kv)) (map_to_list (_nodes t)) in
  let depth (kv : string * Node) := length (split_dot (fst kv)) in
  let deepest := fold_right Nat.max 0%nat (List.map depth below) in
  flat_map (fun d => List.filter (fun kv => (depth kv =? d)%nat) below) (seq 0 (S deepest)).

Definition annotated (n : Node) : bool :=
  negb (bool_decide (v_annotations n = [])) || negb (bool_decide (v_comment n = EmptyString)).

(** [_merge_trajectory_results]: the results of the other trajectory that
    hang under no single run are created empty in the current one. *)
Definition _merge_trajectory_results (rename_dict : list (string * string))
    : M (Trajectory * Trajectory) (list (string * string)) :=
  let! other := gets snd in
  let other_result_nodes :=
    if f_contains "results" other then
      List.filter (fun kv => bool_decide (v_run_branch (snd kv) = "trajectory") ||
                             bool_decide (v_run_branch (snd kv) = RUN_NAME_DUMMY))
                  (f_iter_nodes "results" other)
    else [] in
  for_fold other_result_nodes
    (fun rename_dict kv =>
       let '(full_name, node) := kv in
       let! known := gets (fun st => f_contains full_name (fst st)) in
       if v_is_leaf node then
         if known : bool then ret rename_dict
         else
           run! on_self (f_add_result full_name (v_comment node)) in
           ret (assoc_set full_name full_name rename_dict)
       else
         if negb known && negb (bool_decide (v_annotations node = []))
         then run! on_self (f_add_annotated_group full_name "" (v_annotations node)) in
              ret rename_dict
         else ret rename_dict)
    rename_dict.

(** The nodes of run [run_name] in the other trajectory: for every group
    that is the parent of run groups and contains [run_name], that child
    itself when it is a leaf and everything below it otherwise. *)
Definition run_nodes (run_name : string) (other : Trajectory) : list (string * Node) :=
  flat_map
    (fun parent_group =>
       let path := parent_group +:+ "." +:+ run_name in
       match _nodes other !! path with
       | Some node => if v_is_leaf node then [(path, node)] else f_iter_nodes path other
       | None => []
       end)
    (_run_parent_groups other).

(** The locals of the loop of [_merge_single_runs]. *)
Record single_runs_locals := mkSingleRunsLocals {
  sr_count : Z;
  sr_run_name_dict : list (string * string);
  sr_rename_dict : list (string * string)
}.

Definition merge_run_node (new_runname : string) (rename_dict : list (string * string))
    (kv : string * Node) : M (Trajectory * Trajectory) (list (string * string)) :=
  let '(full_name, node) := kv in
  let pos_list := run_positions full_name in
  let new_full_name := _rename_key full_name pos_list new_runname in
  if v_is_leaf node then
    run! on_self (f_add_result new_full_name (v_comment node)) in
    ret (assoc_set full_name new_full_name rename_dict)
  else if annotated node then
    run! on_self (f_add_annotated_group new_full_name (v_comment node) (v_annotations node)) in
    ret rename_dict
  else ret rename_dict.

(** The record written for a retained run,
    [dict(idx=count, time=time, timestamp=timestamp, ...)]: the index is new,
    the rest is copied, name and parameter summary are left out. *)
Definition merged_info (count : Z) (other_info_dict : RunInfo) : RunInfo :=
  mkRunInfo count (ri_timestamp other_info_dict) (ri_finish_timestamp other_info_dict)
            (ri_runtime other_info_dict) (ri_time other_info_dict)
            (ri_completed other_info_dict) None None
            (ri_short_environment_hexsha other_info_dict).

Definition merge_single_run (used_runs : list bool) (locals : single_runs_locals)
    (run_name : string) : M (Trajectory * Trajectory) single_runs_locals :=
  let! info := on_other (f_get_run_information (inr run_name)) in
  let idx := ri_idx info in
  match py_index used_runs idx with
  | None => raise IndexError
  | Some false => ret locals
  | Some true =>
      let! nodes := gets (fun st => run_nodes run_name (snd st)) in
      let! other_info_dict := on_other (f_get_run_information (inr run_name)) in
      let count := sr_count locals in
      let new_runname := FORMATTED_RUN_NAME count in
      let run_name_dict := assoc_set run_name new_runname (sr_run_name_dict locals) in
      let new_info := merged_info count other_info_dict in
      run! on_self (modify (fun t =>
             set_run_information (<[new_runname := new_info]> (_run_information t)) t)) in
      run! on_self (modify (fun t =>
             set_single_run_ids
               (mkRunIds (<[count := new_runname]> (name_of_idx (_single_run_ids t)))
                         (idx_of_name (_single_run_ids t))) t)) in
      run! on_self (modify (fun t =>
             set_single_run_ids
               (mkRunIds (name_of_idx (_single_run_ids t))
                         (<[new_runname := count]> (idx_of_name (_single_run_ids t)))) t)) in
      let! rename_dict := for_fold nodes (merge_run_node new_runname) (sr_rename_dict locals) in
      ret (mkSingleRunsLocals (count + 1) run_name_dict rename_dict)
  end.

(** [_merge_single_runs]: the dictionary from old to new run names, and the
    rename dictionary it has filled. *)
Definition _merge_single_runs (used_runs : list bool) (rename_dict : list (string * string))
    : M (Trajectory * Trajectory) (list (string * string) * list (string * string)) :=
  let! count := gets (fun st => __len__ (fst st)) in
  let! run_names := on_other (f_get_run_names true) in
  let! locals :=
    for_fold run_names (merge_single_run used_runs)
             (mkSingleRunsLocals count [] rename_dict) in
  ret (sr_run_name_dict locals, sr_rename_dict locals).

(** The new full name of a node of the other trajectory under the run
    renaming: every segment that starts with ["run_"] is replaced when the
    run branch of the node is a renamed run. *)
Definition renamed_full_name (run_name_dict : list (string * string))
    (full_name run_branch : string) : string :=
  match assoc run_branch run_name_dict with
  | Some new_runname => _rename_key full_name (run_positions full_name) new_runname
  | None => full_name
  end.

(** The body of the [try] block of [_merge_links] for one link. *)
Definition copy_link (run_name_dict : list (string * string))
    (new_linked_full_name new_linking_full_name link : string) : M Trajectory unit :=
  run! f_get new_linked_full_name in
  let! present := gets (f_contains new_linking_full_name) in
  let! new_linking_item :=
    (if present : bool then f_get new_linking_full_name
     else run! f_add_group new_linking_full_name in f_get new_linking_full_name) in
  let link := default link (assoc link run_name_dict) in
  match new_linking_item with
  | IParam _ => raise AttributeError
  | INode n =>
      if negb (bool_decide (is_Some (n_links n !! link)))
      then f_add_link new_linking_full_name link new_linked_full_name
      else log (DebugLinkExists link new_linked_full_name)
  end.

Definition merge_links_of (run_name_dict : list (string * string))
    (old_linked_name new_linked_full_name : string) (entry : linking)
    : M (Trajectory * Trajectory) unit :=
  let linking_full_name := linking_full_name entry in
  run! (if str_in RUN_NAME_DUMMY linking_full_name
        then on_self (log (WarnLinkingUnderDummy linking_full_name))
        else ret tt) in
  let new_linking_full_name :=
    renamed_full_name run_name_dict linking_full_name (linking_run_branch entry) in
  for_each (link_set entry) (fun link =>
    if bool_decide (link = RUN_NAME_DUMMY)
    then on_self (log (WarnLinkNamedDummy link linking_full_name))
    else
      on_self (try_except
        (copy_link run_name_dict new_linked_full_name new_linking_full_name link)
        (fun e => log (ErrorCouldNotCopyLink link linking_full_name old_linked_name e)))).

Definition _merge_links (run_name_dict : list (string * string))
    : M (Trajectory * Trajectory) unit :=
  let! linked_items := gets (fun st => _linked_by (snd st)) in
  if (0 <? length linked_items)%nat then
    run! on_self (log InfoMergingLinks) in
    for_each linked_items (fun kv =>
      let '(old_linked_name, old_link_dict) := kv in
      if str_in RUN_NAME_DUMMY old_linked_name
      then on_self (log (WarnLinkedUnderDummy old_linked_name))
      else
        let! old_linked_item := on_other (f_get old_linked_name) in
        let new_linked_full_name :=
          renamed_full_name run_name_dict old_linked_name (item_run_branch old_linked_item) in
        for_each old_link_dict
          (merge_links_of run_name_dict old_linked_name new_linked_full_name))
  else ret tt.

(** ** Merging: the whole operation *)

(** [f_merge] with [ignore_trajectory_derived_parameters=True], which is
    also what the default does for trajectories without derived parameters
    below the trajectory branch.  The entries written to the [config]
    subtree, the backup, the requests to the storage service and the final
    [f_store] work on the [config] subtree and on disk, which are not part
    of the state here. *)
Definition f_merge (trial_parameter : option string)
    (remove_duplicates ignore_trajectory_results move_nodes delete_other_trajectory : bool)
    : M (Trajectory * Trajectory) unit :=
  run! on_self not_in_run in
  if negb move_nodes && delete_other_trajectory then raise ValueError
  else
    run! _check_if_both_have_same_parameters in
    let! '(used_runs, changed_parameters) :=
      _merge_parameters remove_duplicates trial_parameter in
    if forallb negb used_runs then raise ValueError
    else
      let! has_results := gets (fun st => f_contains "results" (snd st)) in
      let! rename_dict :=
        (if negb ignore_trajectory_results && has_results
         then _merge_trajectory_results []
         else ret []) in
      let! '(run_name_dict, rename_dict) := _merge_single_runs used_runs rename_dict in
      _merge_links run_name_dict.

(** The effect of [f_store] on the attributes: outside a single run a
    pending expansion is written out and the trajectory is marked stored. *)
Definition f_store : M Trajectory unit :=
  let! is_run := gets _is_run in
  if is_run : bool then ret tt
  else
    let! stored := gets _stored in
    let! pending := gets _expansion_not_stored in
    run! (if stored && pending then modify (set_expansion_not_stored false) else ret tt) in
    modify (set_stored true).

(** * Specification *)

(** ** Reading a run name back *)

Definition parse_run_name (name : string) : option Z :=
  match name with
  | String "r" (String "u" (String "n" (String "_" digits))) =>
      (fun d => Z.of_N (N.of_uint d)) <$> NilZero.uint_of_string digits
  | _ => None
  end.

(** ** The run ledger of a trajectory of [n] runs *)

(** The two halves of [_single_run_ids] and the keys of [_run_information]
    are exactly the indices [0..n-1] and their formatted names, and every
    record is stored under the name of the index it carries. *)
Record runs_upto (n : Z) (t : Trajectory) : Prop := mkRunsUpto {
  ru_name_of : forall i name,
    name_of_idx (_single_run_ids t) !! i = Some name <->
    0 <= i < n /\ name = FORMATTED_RUN_NAME i;
  ru_idx_of : forall name i,
    idx_of_name (_single_run_ids t) !! name = Some i <->
    0 <= i < n /\ name = FORMATTED_RUN_NAME i;
  ru_info : forall name,
    is_Some (_run_information t !! name) <->
    exists i, 0 <= i < n /\ name = FORMATTED_RUN_NAME i;
  ru_info_idx : forall name info,
    _run_information t !! name = Some info -> name = FORMATTED_RUN_NAME (ri_idx info);
  ru_size : Z.of_nat (size (_run_information t)) = n
}.

Definition ledger_ok (t : Trajectory) : Prop :=
  _length_during_nfc t = None /\ 1 <= __len__ t /\ runs_upto (__len__ t) t.

(** ** Trajectories that the operations can build *)

Inductive op :=
  | OpAddParameter (name : string) (v : value)
  | OpAddResult (name comment : string)
  | OpAddGroup (name : string)
  | OpAddLink (source link target : string)
  | OpLockParameters
  | OpExplore (build_dict : list (string * list value))
  | OpExpand (build_dict : list (string * list value))
  | OpShrink
  | OpSetCrun (name_or_idx : option (Z + string))
  | OpRestoreDefault
  | OpIterRuns
  | OpSetFullCopy (val : bool)
  | OpStore
  | OpMakeSingleRun (idx : Z)
  | OpFinalizeRun.

Definition run_op (o : op) : M Trajectory unit :=
  match o with
  | OpAddParameter name v => f_add_parameter name v
  | OpAddResult name comment => f_add_result name comment
  | OpAddGroup name => f_add_group name
  | OpAddLink source link target => f_add_link source link target
  | OpLockParameters => f_lock_parameters
  | OpExplore build_dict => f_explore build_dict
  | OpExpand build_dict => f_expand build_dict
  | OpShrink => f_shrink
  | OpSetCrun name_or_idx => f_set_crun name_or_idx
  | OpRestoreDefault => f_restore_default
  | OpIterRuns => run! f_iter_runs (fun _ => ret tt) in ret tt
  | OpSetFullCopy val => set_v_full_copy val
  | OpStore => f_store
  | OpMakeSingleRun idx => _make_single_run idx
  | OpFinalizeRun => _finalize_run
  end.

(** The arguments of one call of [f_merge]. *)
Record merge_args := mkMergeArgs {
  ma_trial_parameter : option string;
  ma_remove_duplicates : bool;
  ma_ignore_trajectory_results : bool;
  ma_move_nodes : bool;
  ma_delete_other_trajectory : bool
}.

Definition f_merge_with (a : merge_args) : M (Trajectory * Trajectory) unit :=
  f_merge (ma_trial_parameter a) (ma_remove_duplicates a)
          (ma_ignore_trajectory_results a) (ma_move_nodes a)
          (ma_delete_other_trajectory a).

(** A trajectory is reachable when it is what the constructor and a
    sequence of operations leave behind, whether an operation returned or
    raised.  Both trajectories of a merge count.  Copies made by pickling
    are not built this way; they are the subject of [__getstate__]. *)
Inductive reachable : Trajectory -> Prop :=
  | reach_init : reachable __init__
  | reach_op t o : reachable t -> reachable (fst (run_op o t))
  | reach_merge_self t other a :
      reachable t -> reachable other ->
      reachable (fst (fst (f_merge_with a (t, other))))
  | reach_merge_other t other a :
      reachable t -> reachable other ->
      reachable (snd (fst (f_merge_with a (t, other)))).

(** Two trajectories with the same ledger attributes. *)
Definition same_ledger (t t' : Trajectory) : Prop :=
  _length_during_nfc t' = _length_during_nfc t /\
  _single_run_ids t' = _single_run_ids t /\
  _run_information t' = _run_information t.

(** [preserves P m]: the state [m] leaves behind satisfies [P] whenever the
    state it started from does, also when [m] raises. *)
Definition preserves {S A} (P : S -> Prop) (m : M S A) : Prop :=
  forall s, P s -> P (fst (m s)).

(** ** Sample trajectories *)

(** Two parameters, [p = 0] and [q = 1], nothing explored. *)
Definition ex_pq : Trajectory :=
  fst (run_op (OpAddParameter "parameters.q" (VInt 1))
         (fst (run_op (OpAddParameter "parameters.p" (VInt 0)) __init__))).

(** The same with [p] explored over three runs. *)
Definition ex_p3 : Trajectory :=
  fst (run_op (OpExplore [("parameters.p", [VInt 1; VInt 2; VInt 3])]) ex_pq).

(** ** Exploring a fresh trajectory *)

(** A fresh trajectory: not used as a single run, with the ledger of a new
    trajectory (length 1), nothing explored and run 0 not completed. *)
Definition fresh (t : Trajectory) : Prop :=
  _is_run t = false /\ ledger_ok t /\ __len__ t = 1 /\
  _explored_parameters t = [] /\
  exists info, _run_information t !! FORMATTED_RUN_NAME 0 = Some info /\
               ri_completed info = 0.




(** ** Failing exploration and expansion *)






(** ** Snapshots *)

(** A trajectory with the cursor on run 1 of 3. *)
Definition ex_p3_at_1 : Trajectory :=
  fst (run_op (OpSetCrun (Some (inl 1))) ex_p3).

(** Claim C9 as it is stated, for one trajectory: the snapshot keeps the
    record of the selected run only, and the trajectory restored from it
    has length 1. *)
Definition narrow_snapshot_claim (t : Trajectory) : Prop :=
  _full_copy t = false -> _idx t <> -1 ->
  forall statedict, __getstate__ t = Ok statedict ->
    (exists runname info,
       name_of_idx (_single_run_ids t) !! _idx t = Some runname /\
       _run_information t !! runname = Some info /\
       _run_information statedict = {[ runname := info ]}) /\
    __len__ (__setstate__ statedict) = 1.

(** ** Iterating over the runs *)

(** Parameters up to the value they currently show. *)
Definition forget_data (p : Param) : Param := set_p_data (VInt 0) p.

Definition same_modulo_data (ps qs : gmap string Param) : Prop :=
  forget_data <$> ps = forget_data <$> qs.

(** What moving the cursor leaves alone: the mode, the ledger, the set of
    explored parameters, and every parameter up to its visible value. *)
Definition cursor_frame (t s : Trajectory) : Prop :=
  _is_run s = _is_run t /\ same_ledger t s /\
  _explored_parameters s = _explored_parameters t /\
  same_modulo_data (_parameters t) (_parameters s).

(** Invariant 2 of the data model, as far as the cursor needs it: the range
    of every explored parameter has a value for every run. *)
Definition ranges_cover (t : Trajectory) : Prop :=
  forall key p, key ∈ _explored_parameters t -> _parameters t !! key = Some p ->
    f_has_range p = true -> __len__ t <= Z.of_nat (length (p_range p)).

(** Every explored parameter shows its default value. *)
Definition explored_at_default (t : Trajectory) : Prop :=
  forall key p, key ∈ _explored_parameters t -> _parameters t !! key = Some p ->
    p_data p = p_default p.

(** ** Merging *)

(** Every parameter shows its default value or a value of its range; one
    without a range shows its default. *)
Definition visible_ok (t : Trajectory) : Prop :=
  map_Forall (fun _ p => p_data p = p_default p \/ p_data p ∈ p_range p) (_parameters t).

#[global] Instance visible_ok_dec t : Decision (visible_ok t).
Proof. unfold visible_ok. apply _. Defined.

(** The condition under which [_merge_parameters] marks the parameter [key]
    of the other trajectory for change: it is not below a run, it is not
    the trial parameter, and it is explored in one of the trajectories or
    its values differ. *)
Definition marked (self : Trajectory) (trial_parameter_name : option string)
    (kv : string * Param) : bool :=
  negb (str_in RUN_NAME (fst kv)) &&
  negb (bool_decide (Some (fst kv) = trial_parameter_name)) &&
  match _parameters self !! fst kv with
  | Some my_param =>
      f_has_range my_param || f_has_range (snd kv) ||
      negb (_equal_values (p_f_get my_param) (p_f_get (snd kv)))
  | None => false
  end.

(** The range a parameter of the current trajectory starts from: its range,
    or as many copies of its value as the trajectory has runs. *)
Definition base_range (len_self : Z) (my_param : Param) : list value :=
  if f_has_range my_param then p_range my_param
  else replicate (Z.to_nat len_self) (p_f_get my_param).

(** The values of a parameter of the other trajectory for the retained
    runs. *)
Definition retained_values (use_runs : list bool) (other_param : Param) : list value :=
  if f_has_range other_param
  then List.map snd (List.filter fst (zip use_runs (f_get_range other_param)))
  else replicate (length (List.filter id use_runs)) (p_f_get other_param).

(** The indices of the retained runs of the other trajectory, in order. *)
Definition retained_indices (use_runs : list bool) : list Z :=
  List.filter (fun i => bool_decide (py_index use_runs i = Some true))
              (seqZ 0 (Z.of_nat (length use_runs))).

(** The example of claim C1: [A] has three runs and [q = 1], [B] has two
    runs and [q = 2]. *)
Definition ex_merge_A : Trajectory := ex_p3.

Definition ex_merge_B : Trajectory :=
  fst (run_op (OpExplore [("parameters.p", [VInt 1; VInt 2])])
        (fst (run_op (OpAddParameter "parameters.q" (VInt 2))
           (fst (run_op (OpAddParameter "parameters.p" (VInt 0)) __init__))))).

(** Two parameters without a range: when such a pair is marked, duplicate
    removal is switched off. *)
Definition unexplored_pair (self : Trajectory) (kv : string * Param) : bool :=
  match _parameters self !! fst kv with
  | Some my_param => negb (f_has_range my_param) && negb (f_has_range (snd kv))
  | None => false
  end.

(** The parameter a successful [extend_body] leaves under [key]. *)
Definition extended (len_self : Z) (other_range : list value) (pa : Param) : Param :=
  set_p_range (base_range len_self pa ++ other_range) (f_unlock pa).

(** What [other_range_of] computes for [key]. *)
Definition is_other_range (trial : option string) (tl : option trial_locals)
    (use_runs : list bool) (adding : nat) (key : string) (pb : Param) (r : list value)
    : Prop :=
  (Some key <> trial -> adding = length (List.filter id use_runs) ->
   r = retained_values use_runs pb) /\
  (Some key = trial ->
   exists l, tl = Some l /\
     r = List.map (fun x => VInt (x + mymaxtrial_T1 l + 1)) (other_trial_list l)).

(** What the compatibility check and the search for duplicates leave alone
    in a trajectory: the ledger and every parameter up to its visible
    value, which stays the default where there is no range. *)
Definition merge_view (t s : Trajectory) : Prop :=
  same_ledger t s /\ same_modulo_data (_parameters t) (_parameters s) /\
  visible_ok s.

(** The value of a parameter at a run: its range at that index, or its
    value when it has no range. *)
Definition point (p : Param) (run : Z) : option value :=
  if f_has_range p then py_index (p_range p) run else Some (p_f_get p).

(** The parameter [key] has the same value at run [jrun] of the current
    trajectory and at run [irun] of the other one. *)
Definition same_point (self other : Trajectory) (irun jrun : Z) (key : string) : bool :=
  match _parameters self !! key, _parameters other !! key with
  | Some my_param, Some other_param =>
      match point my_param jrun, point other_param irun with
      | Some val1, Some val2 => _equal_values val1 val2
      | _, _ => false
      end
  | _, _ => false
  end.

(** Run [irun] of the other trajectory is the point of run [jrun] of the
    current one, over the parameters [params_to_change]. *)
Definition duplicate_of (self other : Trajectory) (params_to_change : list string)
    (irun jrun : Z) : bool :=
  forallb (same_point self other irun jrun) params_to_change.

Definition has_duplicate (self other : Trajectory) (params_to_change : list string)
    (irun : Z) : bool :=
  existsb (duplicate_of self other params_to_change irun) (seqZ 0 (__len__ self)).

(** The names of the parameters of the other trajectory that are marked. *)
Definition marked_keys (self other : Trajectory) (trial_parameter_name : option string)
    : list string :=
  (List.filter (marked self trial_parameter_name) (map_to_list (_parameters other))).*1.

(** A trial parameter is given when its name is not the empty string. *)
Definition trial_given (trial_parameter_name : option string) : bool :=
  match trial_parameter_name with
  | Some name => negb (bool_decide (name = EmptyString))
  | None => false
  end.

(** Duplicates are searched for when this was asked for, no trial parameter
    is given and no marked parameter is unexplored in both trajectories. *)
Definition dedup_applies (self other : Trajectory) (trial_parameter_name : option string)
    (remove_duplicates : bool) : bool :=
  remove_duplicates && negb (trial_given trial_parameter_name) &&
  forallb (fun kv => negb (marked self trial_parameter_name kv && unexplored_pair self kv))
          (map_to_list (_parameters other)).

(** The runs of the other trajectory that a merge retains. *)
Definition retained_runs (self other : Trajectory) (trial_parameter_name : option string)
    (remove_duplicates : bool) : list bool :=
  if dedup_applies self other trial_parameter_name remove_duplicates
  then (fun irun =>
          negb (has_duplicate self other (marked_keys self other trial_parameter_name) irun))
         <$> seqZ 0 (__len__ other)
  else replicate (Z.to_nat (__len__ other)) true.



(** The range of every explored parameter has a value for every run. *)
Definition ranges_complete (t : Trajectory) : Prop :=
  map_Forall (fun _ p => f_has_range p = true -> __len__ t <= Z.of_nat (length (p_range p)))
             (_parameters t).

(** What the renumbering loop of [_merge_single_runs] has done to the
    current trajectory [a] when it has gone through the runs [indices] of
    the other trajectory [b], starting with the counter at [count]: the
    retained ones have their records under the next indices. *)
Definition renumbered (used_runs : list bool) (b : Trajectory) (indices : list Z)
    (count : Z) (a a' : Trajectory) : Prop :=
  let retained := List.filter (fun i => bool_decide (py_index used_runs i = Some true))
                              indices in
  runs_upto (count + Z.of_nat (length retained)) a' /\
  _length_during_nfc a' = None /\
  _parameters a' = _parameters a /\
  (forall name info, _run_information a !! name = Some info ->
                     _run_information a' !! name = Some info) /\
  (forall (j : nat) i, retained !! j = Some i ->
     exists info, _run_information b !! FORMATTED_RUN_NAME i = Some info /\
                  _run_information a' !! FORMATTED_RUN_NAME (count + Z.of_nat j)
                    = Some (merged_info (count + Z.of_nat j) info)).

(** The parameter [key] of [t] has a value at run [run]. *)
Definition covered (t : Trajectory) (key : string) (run : Z) : Prop :=
  exists p, _parameters t !! key = Some p /\ is_Some (point p run).

(** Both trajectories of a merge are as [merge_view] says. *)
Definition both_views (a0 b0 : Trajectory) (st : Trajectory * Trajectory) : Prop :=
  merge_view a0 (fst st) /\ merge_view b0 (snd st).

(** What a merge of [b] into [a] that retains the runs [use_runs] leaves in
    the current trajectory [a']: every retained run of [b] has its record
    under the next index after the runs of [a], whose records are kept. *)
Definition runs_appended (use_runs : list bool) (a b a' : Trajectory) : Prop :=
  __len__ a' = __len__ a + Z.of_nat (length (retained_indices use_runs)) /\
  ledger_ok a' /\
  (forall name info, _run_information a !! name = Some info ->
                     _run_information a' !! name = Some info) /\
  (forall (j : nat) i, retained_indices use_runs !! j = Some i ->
     exists info,
       _run_information b !! FORMATTED_RUN_NAME i = Some info /\
       f_get_run_information (inl (__len__ a + Z.of_nat j)) a'
         = (a', Ok (merged_info (__len__ a + Z.of_nat j) info))).

(** The values of the trial parameter [name] of [t] are exactly the
    integers [0..maxtrial]. *)
Definition trial_range_ok (t : Trajectory) (name : string) (maxtrial : Z) (zs : list Z)
    : Prop :=
  exists p, _parameters t !! name = Some p /\ trial_list p = VInt <$> zs /\
            forall x, x ∈ zs <-> 0 <= x <= maxtrial.

(** Two trajectories with the trial parameter [parameters.trial], explored
    over [0, 1, 2] in the current trajectory and over [0, 1] in the other
    one. *)
Definition ex_trial_A : Trajectory :=
  fst (run_op (OpExplore [("parameters.trial", [VInt 0; VInt 1; VInt 2])])
        (fst (run_op (OpAddParameter "parameters.trial" (VInt 0)) __init__))).

Definition ex_trial_B : Trajectory :=
  fst (run_op (OpExplore [("parameters.trial", [VInt 0; VInt 1])])
        (fst (run_op (OpAddParameter "parameters.trial" (VInt 0)) __init__))).

(** The example of claim C6.  The other trajectory has one run with the
    result [results.run_00000000.x], a group [groupA] with the link [link1]
    to that result, and a group [results.run_ALL.g] below the shared branch
    with the link [lnk] to the parameter [parameters.x]. *)
Definition ex_links_B : Trajectory :=
  fold_left (fun t o => fst (run_op o t))
    [ OpAddParameter "parameters.x" (VInt 0);
      OpAddResult "results.run_00000000.x" "";
      OpAddGroup "groupA";
      OpAddGroup "results.run_ALL.g";
      OpAddLink "results.run_ALL.g" "lnk" "parameters.x";
      OpAddLink "groupA" "link1" "results.run_00000000.x" ]
    __init__.

(** The current trajectory has the same parameter, explored over five runs. *)
Definition ex_links_A : Trajectory :=
  fold_left (fun t o => fst (run_op o t))
    [ OpAddParameter "parameters.x" (VInt 0);
      OpExplore [("parameters.x", [VInt 1; VInt 2; VInt 3; VInt 4; VInt 5])] ]
    __init__.

(** The link that hangs under the name [link] in the group [source]. *)
Definition link_target (t : Trajectory) (source link : string) : option string :=
  match _nodes t !! source with
  | Some n => n_links n !! link
  | None => None
  end.

(** The parameters and the ledger of a trajectory together. *)
Definition same_params_ledger (t s : Trajectory) : Prop :=
  _parameters s = _parameters t /\ same_ledger t s.

(** ** Merging: when every run of the other trajectory is a duplicate *)


(** All values of a parameter have the type of its default value. *)
Definition homogeneous (t : Trajectory) : Prop :=
  map_Forall (fun _ p => Forall (fun v => _values_of_same_type (p_default p) v = true)
                                (p_range p))
             (_parameters t).

#[global] Instance homogeneous_dec t : Decision (homogeneous t).
Proof. unfold homogeneous. apply _. Defined.

(** The default values of the common parameters have the same types. *)
Definition defaults_same_type (self other : Trajectory) : Prop :=
  map_Forall (fun key my_param =>
                match _parameters other !! key with
                | Some other_param =>
                    _values_of_same_type (p_default my_param) (p_default other_param) = true
                | None => True
                end)
             (_parameters self).

#[global] Instance defaults_same_type_dec self other : Decision (defaults_same_type self other).
Proof.
  unfold defaults_same_type. apply map_Forall_dec. intros key p.
  destruct (_parameters other !! key); apply _.
Defined.

#[global] Instance ranges_complete_dec t : Decision (ranges_complete t).
Proof. unfold ranges_complete. apply _. Defined.

(** ** Finding runs by their parameter values *)

(** The argument lists that [map] applies [predicate] to when it is given
    the iterators of [iter_list], at least one: one list per position, up
    to the end of the shortest iterator. *)
Fixpoint zip_args (iter_list : list (list value)) : list (list value) :=
  match iter_list with
  | [] => []
  | it :: rest =>
      match rest with
      | [] => List.map (fun v => [v]) it
      | _ :: _ => zip_with cons it (zip_args rest)
      end
  end.

(** The generator [f_find_idx], driven to exhaustion; the value is the list
    of the indices it yields.  [name_list] is the list of names (a single
    name is put into a list first), [predicate] a function of as many
    values as there are names that returns.  [map] with no iterator raises
    [TypeError]. *)
Definition f_find_idx (name_list : list string) (predicate : list value -> bool)
    : M Trajectory (list Z) :=
  let! is_run := gets _is_run in
  let! full_copy := gets _full_copy in
  if is_run && negb full_copy then raise TypeError
  else
    let! iter_list :=
      for_fold name_list
        (fun (iter_list : list (list value)) name =>
           let! param := f_get name in
           match param with
           | INode _ => raise TypeError
           | IParam p =>
               if f_has_range p then ret (iter_list ++ [f_get_range p])
               else
                 let! n := gets __len__ in
                 ret (iter_list ++ [replicate (Z.to_nat n) (p_f_get p)])
           end) [] in
    match iter_list with
    | [] => raise TypeError
    | _ :: _ =>
        let logic_iter := List.map predicate (zip_args iter_list) in
        ret (List.map (fun p => Z.of_nat (fst p))
               (List.filter snd (imap (fun idx item => (idx, item)) logic_iter)))
    end.

(** The iterator that [f_find_idx] makes for a parameter. *)
Definition find_column (t : Trajectory) (p : Param) : list value :=
  if f_has_range p then f_get_range p
  else replicate (Z.to_nat (__len__ t)) (p_f_get p).

(** The values of the parameters [ps] at the run [idx]. *)
Definition points (ps : list Param) (idx : Z) : option (list value) :=
  mapM (fun p => point p idx) ps.

(** ** Iterating over the runs: the claim as stated *)

(** Claim C10 as it is stated, for one trajectory and a loop that does
    nothing with the names it is given: outside a single run the iteration
    yields the names of the runs [0 .. len(trajectory)-1] in order, and
    afterwards [v_idx] is -1, [v_crun] is [None] and every explored
    parameter shows its default value. *)
Definition iter_runs_claim (t : Trajectory) : Prop :=
  _is_run t = false ->
  exists t',
    f_iter_runs (fun _ => ret tt) t
      = (t', Ok (FORMATTED_RUN_NAME <$> seqZ 0 (__len__ t))) /\
    _idx t' = -1 /\ _crun t' = None /\ explored_at_default t'.

(** A trajectory with the parameter [parameters.my_run_p], whose name has
    the segment [my_run_p] that contains [run_], explored over two runs. *)
Definition ex_run_named_A : Trajectory :=
  fst (run_op (OpExplore [("parameters.my_run_p", [VInt 1; VInt 2])])
        (fst (run_op (OpAddParameter "parameters.my_run_p" (VInt 0)) __init__))).

(** A trajectory of one run with the same parameter, not explored. *)
Definition ex_run_named_B : Trajectory :=
  fst (run_op (OpAddParameter "parameters.my_run_p" (VInt 0)) __init__).

(** The first merged with the second, with the default options: the merge
    passes over the parameter because of its name and appends the run of
    the second trajectory. *)
Definition ex_short_range : Trajectory :=
  fst (fst (f_merge_with (mkMergeArgs None false false false false)
              (ex_run_named_A, ex_run_named_B))).

(** [hoare P m Q E]: started in a state satisfying [P], the method [m]
    either returns a value [a] in a state satisfying [Q a] or raises in a
    state satisfying [E]. *)
Definition hoare {S A} (P : S -> Prop) (m : M S A) (Q : A -> S -> Prop) (E : S -> Prop)
    : Prop :=
  forall s, P s ->
    match m s with
    | (s', Ok a) => Q a s'
    | (s', Raise _) => E s'
    end.

(** * Proofs *)

(** ** The method monad *)

Lemma bind_run {S A B} (m : M S A) (k : A -> M S B) s :
  bind m k s = match m s with
               | (s', Ok a) => k a s'
               | (s', Raise e) => (s', Raise e)
               end.
Proof. reflexivity. Qed.

(** Unfold the monad operations applied to a state. *)
Ltac run_monad :=
  cbv beta iota delta [bind modify ret gets raise lift_result read_local].

Lemma preserves_ret {S A} (P : S -> Prop) (a : A) : preserves P (ret a).
Proof. intros s H. exact H. Qed.

Lemma preserves_raise {S A} (P : S -> Prop) e : preserves P (@raise S A e).
Proof. intros s H. exact H. Qed.

Lemma preserves_gets {S A} (P : S -> Prop) (f : S -> A) : preserves P (gets f).
Proof. intros s H. exact H. Qed.

Lemma preserves_lift_result {S A} (P : S -> Prop) (r : result A) :
  preserves P (@lift_result S A r).
Proof. intros s H. exact H. Qed.

Lemma preserves_read_local {S A} (P : S -> Prop) (v : option A) :
  preserves P (@read_local S A v).
Proof. destruct v; intros s H; exact H. Qed.

Lemma preserves_modify {S} (P : S -> Prop) (f : S -> S) :
  (forall s, P s -> P (f s)) -> preserves P (modify f).
Proof. intros Hf s H. apply Hf, H. Qed.

Lemma preserves_bind {S A B} (P : S -> Prop) (m : M S A) (k : A -> M S B) :
  preserves P m -> (forall a, preserves P (k a)) -> preserves P (bind m k).
Proof.
  intros Hm Hk s H. unfold bind. specialize (Hm s H).
  destruct (m s) as [s' [a|e]]; simpl in *; [apply Hk, Hm | exact Hm].
Qed.

Lemma preserves_for_each {S A} (P : S -> Prop) (l : list A) (body : A -> M S unit) :
  (forall x, preserves P (body x)) -> preserves P (for_each l body).
Proof.
  intros Hb. induction l as [|x l IH]; simpl.
  - apply preserves_ret.
  - apply preserves_bind; [apply Hb | intros _; exact IH].
Qed.

Lemma preserves_for_fold {S A B} (P : S -> Prop) (l : list A)
    (body : B -> A -> M S B) (acc : B) :
  (forall b x, preserves P (body b x)) -> preserves P (for_fold l body acc).
Proof.
  intros Hb. revert acc. induction l as [|x l IH]; intros acc; simpl.
  - apply preserves_ret.
  - apply preserves_bind; [apply Hb | intros b; apply IH].
Qed.

Lemma preserves_on_self {S T A} (P : S * T -> Prop) (m : M S A) :
  (forall t, preserves (fun s => P (s, t)) m) -> preserves P (on_self m).
Proof.
  intros Hm [s t] H. unfold on_self. simpl.
  specialize (Hm t s H). destruct (m s) as [s' r]. exact Hm.
Qed.

Lemma preserves_on_other {S T A} (P : S * T -> Prop) (m : M T A) :
  (forall s, preserves (fun t => P (s, t)) m) -> preserves P (on_other m).
Proof.
  intros Hm [s t] H. unfold on_other. simpl.
  specialize (Hm s t H). destruct (m t) as [t' r]. exact Hm.
Qed.

Lemma preserves_try_except {S} (P : S -> Prop) (body : M S unit) handler :
  preserves P body -> (forall e, preserves P (handler e)) ->
  preserves P (try_except body handler).
Proof.
  intros Hb Hh s H. unfold try_except. specialize (Hb s H).
  destruct (body s) as [s' [[]|e]]; simpl in *; [exact Hb|].
  destruct e; simpl; try exact Hb; apply Hh, Hb.
Qed.

Lemma preserves_if {S A} (P : S -> Prop) (b : bool) (m1 m2 : M S A) :
  preserves P m1 -> preserves P m2 -> preserves P (if b then m1 else m2).
Proof. destruct b; auto. Qed.

(** ** Run names *)

Lemma zeros_string_of_uint k d :
  d <> Nil ->
  zeros k +:+ NilZero.string_of_uint d = NilZero.string_of_uint (Nat.iter k D0 d).
Proof.
  intros Hd. induction k as [|k IH].
  - reflexivity.
  - change (zeros (S k) +:+ NilZero.string_of_uint d)
      with (String "0" (zeros k +:+ NilZero.string_of_uint d)).
    rewrite IH. change (Nat.iter (S k) D0 d) with (D0 (Nat.iter k D0 d)).
    destruct (Nat.iter k D0 d) eqn:E; try reflexivity.
    destruct k; simpl in E; [contradiction | discriminate].
Qed.

Lemma iter_D0_nonnil k d : d <> Nil -> Nat.iter k D0 d <> Nil.
Proof. intros Hd. destruct k; simpl; [exact Hd | discriminate]. Qed.

Lemma N_to_uint_nonnil n : N.to_uint n <> Nil.
Proof.
  destruct n as [|p]; simpl; [discriminate | apply DecimalPos.Unsigned.to_uint_nonnil].
Qed.

Lemma parse_run_name_digits ds :
  parse_run_name (RUN_NAME +:+ ds)
  = (fun d => Z.of_N (N.of_uint d)) <$> NilZero.uint_of_string ds.
Proof. reflexivity. Qed.

Lemma parse_FORMATTED_RUN_NAME i :
  0 <= i -> parse_run_name (FORMATTED_RUN_NAME i) = Some i.
Proof.
  intros Hi. unfold FORMATTED_RUN_NAME. rewrite parse_run_name_digits.
  unfold fmt_08d.
  destruct (Z.ltb_spec i 0) as [?|_]; [lia|].
  unfold zero_pad. rewrite zeros_string_of_uint by apply N_to_uint_nonnil.
  rewrite NilZero.usu by (apply iter_D0_nonnil, N_to_uint_nonnil).
  simpl. f_equal.
  rewrite <- DecimalN.Unsigned.of_uint_norm, DecimalFacts.unorm_iter_D0,
    DecimalN.Unsigned.of_uint_norm, DecimalN.Unsigned.of_to.
  lia.
Qed.

Lemma parse_FORMATTED_RUN_NAME_negative i :
  i < 0 -> parse_run_name (FORMATTED_RUN_NAME i) = None.
Proof.
  intros Hi. unfold FORMATTED_RUN_NAME. rewrite parse_run_name_digits.
  unfold fmt_08d. destruct (Z.ltb_spec i 0) as [_|?]; [|lia].
  change ("-" +:+ ?x) with (String "-" x).
  change (NilZero.uint_of_string (String "-" ?x))
    with (uint_of_char "-" (NilEmpty.uint_of_string x)).
  destruct (NilEmpty.uint_of_string _); reflexivity.
Qed.

Lemma FORMATTED_RUN_NAME_inj i j :
  0 <= i -> 0 <= j -> FORMATTED_RUN_NAME i = FORMATTED_RUN_NAME j -> i = j.
Proof.
  intros Hi Hj E. apply (f_equal parse_run_name) in E.
  rewrite !parse_FORMATTED_RUN_NAME in E by assumption. congruence.
Qed.

(** ** The run ledger *)

Lemma same_ledger_refl t : same_ledger t t.
Proof. repeat split. Qed.

Lemma same_ledger_trans t1 t2 t3 :
  same_ledger t1 t2 -> same_ledger t2 t3 -> same_ledger t1 t3.
Proof. unfold same_ledger. intros (?&?&?) (?&?&?). repeat split; congruence. Qed.

Lemma same_ledger_len t t' : same_ledger t t' -> __len__ t' = __len__ t.
Proof. intros (H1 & _ & H3). unfold __len__. rewrite H1, H3. reflexivity. Qed.

Lemma runs_upto_same n t t' : same_ledger t t' -> runs_upto n t -> runs_upto n t'.
Proof.
  intros (_ & H2 & H3) [Ha Hb Hc Hi Hd].
  split; rewrite ?H2, ?H3; assumption.
Qed.

Lemma ledger_ok_same t t' : same_ledger t t' -> ledger_ok t -> ledger_ok t'.
Proof.
  intros Hs (H1 & H2 & H3). pose proof (same_ledger_len _ _ Hs) as Hl.
  destruct Hs as (E1 & E2 & E3).
  split; [congruence|]. rewrite Hl. split; [assumption|].
  eapply runs_upto_same; [|eassumption]. repeat split; assumption.
Qed.

Lemma add_run_info_name_of idx t :
  name_of_idx (_single_run_ids (fst (_add_run_info idx t)))
  = <[idx := FORMATTED_RUN_NAME idx]> (name_of_idx (_single_run_ids t)).
Proof. reflexivity. Qed.

Lemma add_run_info_idx_of idx t :
  idx_of_name (_single_run_ids (fst (_add_run_info idx t)))
  = <[FORMATTED_RUN_NAME idx := idx]> (idx_of_name (_single_run_ids t)).
Proof. reflexivity. Qed.

Lemma add_run_info_info idx t :
  exists info,
    ri_idx info = idx /\ ri_completed info = 0 /\
    _run_information (fst (_add_run_info idx t))
    = <[FORMATTED_RUN_NAME idx := info]> (_run_information t).
Proof. eexists. split; [|split]; [| |reflexivity]; reflexivity. Qed.

Lemma add_run_info_nfc idx t :
  _length_during_nfc (fst (_add_run_info idx t)) = _length_during_nfc t.
Proof. reflexivity. Qed.

Lemma add_run_info_ok idx t : snd (_add_run_info idx t) = Ok tt.
Proof. reflexivity. Qed.

(** Writing the run [idx <= n] into a ledger of [n] runs gives a ledger of
    [max n (idx + 1)] runs, whatever the information stored for it. *)
Lemma runs_upto_insert n idx info t t' :
  runs_upto n t -> 0 <= idx <= n ->
  name_of_idx (_single_run_ids t')
    = <[idx := FORMATTED_RUN_NAME idx]> (name_of_idx (_single_run_ids t)) ->
  idx_of_name (_single_run_ids t')
    = <[FORMATTED_RUN_NAME idx := idx]> (idx_of_name (_single_run_ids t)) ->
  _run_information t' = <[FORMATTED_RUN_NAME idx := info]> (_run_information t) ->
  ri_idx info = idx ->
  runs_upto (Z.max n (idx + 1)) t'.
Proof.
  intros [Ha Hb Hc Hii Hd] Hidx Hname Hidxof Hinfo Hinfoidx.
  split.
  - intros i name. rewrite Hname.
    destruct (decide (idx = i)) as [->|Hne].
    + rewrite lookup_insert_eq. split.
      * intros [= <-]. split; [lia | reflexivity].
      * intros [_ ->]. reflexivity.
    + rewrite lookup_insert_ne by assumption. rewrite Ha.
      split; intros [? ?]; (split; [lia | assumption]).
  - intros name i. rewrite Hidxof.
    destruct (decide (FORMATTED_RUN_NAME idx = name)) as [<-|Hne].
    + rewrite lookup_insert_eq. split.
      * intros [= <-]. split; [lia | reflexivity].
      * intros [Hi E]. apply FORMATTED_RUN_NAME_inj in E; [congruence | lia | lia].
    + rewrite lookup_insert_ne by assumption. rewrite Hb.
      split; intros [? ?]; (split; [|assumption]); [lia|].
      destruct (decide (i = idx)) as [->|]; [congruence | lia].
  - intros name. rewrite Hinfo.
    destruct (decide (FORMATTED_RUN_NAME idx = name)) as [<-|Hne].
    + rewrite lookup_insert_eq. split; [|eauto].
      intros _. exists idx. split; [lia | reflexivity].
    + rewrite lookup_insert_ne by assumption. rewrite Hc.
      split; intros (i & Hi & E); exists i; (split; [|assumption]); [lia|].
      destruct (decide (i = idx)) as [->|]; [congruence | lia].
  - intros name info'. rewrite Hinfo.
    destruct (decide (FORMATTED_RUN_NAME idx = name)) as [<-|Hne].
    + rewrite lookup_insert_eq. intros [= <-]. congruence.
    + rewrite lookup_insert_ne by assumption. apply Hii.
  - rewrite Hinfo. destruct (decide (idx = n)) as [->|Hne].
    + rewrite map_size_insert_None; [lia|].
      apply eq_None_not_Some. rewrite Hc. intros (i & Hi & E).
      apply FORMATTED_RUN_NAME_inj in E; lia.
    + rewrite map_size_insert_Some; [lia|].
      apply Hc. exists idx. split; [lia | reflexivity].
Qed.

Lemma runs_upto_add_run_info n idx t :
  runs_upto n t -> 0 <= idx <= n ->
  runs_upto (Z.max n (idx + 1)) (fst (_add_run_info idx t)).
Proof.
  intros Hru Hidx. destruct (add_run_info_info idx t) as (info & Hi & _ & Hinfo).
  eapply runs_upto_insert; [exact Hru | exact Hidx | | | exact Hinfo | exact Hi].
  - apply add_run_info_name_of.
  - apply add_run_info_idx_of.
Qed.

Lemma runs_upto_add_run_infos k : forall n a t,
  runs_upto n t -> 0 <= a <= n -> 0 <= k ->
  runs_upto (Z.max n (a + k)) (fst (for_each (seqZ a k) _add_run_info t)) /\
  _length_during_nfc (fst (for_each (seqZ a k) _add_run_info t)) = _length_during_nfc t /\
  snd (for_each (seqZ a k) _add_run_info t) = Ok tt.
Proof.
  intros n a t Hru Ha Hk. revert n a t Hru Ha.
  pattern k. apply natlike_ind; [| |exact Hk]; clear k Hk.
  - intros n a t Hru Ha. rewrite seqZ_nil by lia. simpl.
    replace (Z.max n (a + 0)) with n by lia. auto.
  - intros k Hk IH n a t Hru Ha.
    rewrite seqZ_cons by lia. simpl. rewrite bind_run.
    pose proof (add_run_info_ok a t) as Hok.
    pose proof (runs_upto_add_run_info n a t Hru Ha) as Hru'.
    pose proof (add_run_info_nfc a t) as Hnfc.
    destruct (_add_run_info a t) as [t1 r1]. simpl in *. subst r1.
    replace (Z.pred (Z.succ k)) with k by lia.
    destruct (IH (Z.max n (a + 1)) (Z.succ a) t1 Hru' ltac:(lia)) as (H1 & H2 & H3).
    replace (Z.max n (a + Z.succ k)) with (Z.max (Z.max n (a + 1)) (Z.succ a + k)) by lia.
    split; [exact H1|]. split; [congruence | exact H3].
Qed.

Lemma ledger_ok_runs t : ledger_ok t -> runs_upto (__len__ t) t.
Proof. intros (_ & _ & H). exact H. Qed.

Lemma ledger_ok_intro n t :
  _length_during_nfc t = None -> 1 <= n -> runs_upto n t -> ledger_ok t.
Proof.
  intros Hnfc Hn Hru. assert (__len__ t = n) as Hl.
  { unfold __len__. rewrite Hnfc. apply (ru_size _ _ Hru). }
  split; [assumption|]. rewrite Hl. auto.
Qed.

Lemma ledger_ok_add_run_infos a k t :
  ledger_ok t -> 0 <= a <= __len__ t ->
  ledger_ok (fst (for_each (py_range a k) _add_run_info t)).
Proof.
  intros Hok Ha. pose proof Hok as (Hnfc & Hlen & Hru).
  unfold py_range. destruct (Z.le_gt_cases 0 (k - a)) as [Hk|Hk].
  - destruct (runs_upto_add_run_infos (k - a) _ a t Hru Ha Hk) as (H1 & H2 & _).
    eapply ledger_ok_intro; [congruence | | exact H1]. lia.
  - rewrite seqZ_nil by lia. exact Hok.
Qed.

Lemma runs_upto_empty t :
  _run_information t = ∅ -> _single_run_ids t = mkRunIds ∅ ∅ -> runs_upto 0 t.
Proof.
  intros Hri Hids. split; rewrite ?Hri, ?Hids; simpl.
  - intros i name. rewrite lookup_empty. split; [discriminate | lia].
  - intros name i. rewrite lookup_empty. split; [discriminate | lia].
  - intros name. rewrite lookup_empty. split.
    + intros [? ?]. discriminate.
    + intros (i & ? & _). lia.
  - intros name info. rewrite lookup_empty. discriminate.
  - reflexivity.
Qed.

Lemma runs_upto_init : runs_upto 1 __init__.
Proof.
  unfold __init__. apply (runs_upto_add_run_info 0 0); [|lia].
  apply runs_upto_empty; reflexivity.
Qed.

Lemma ledger_ok_init : ledger_ok __init__.
Proof. apply (ledger_ok_intro 1); [reflexivity | lia | apply runs_upto_init]. Qed.

(** ** Operations that leave the ledger alone *)

Lemma preserves_readonly {S A} (P : S -> Prop) (m : M S A) :
  (forall s, fst (m s) = s) -> preserves P m.
Proof. intros Hm s H. rewrite Hm. exact H. Qed.

Lemma readonly_not_in_run t : fst (not_in_run t) = t.
Proof. unfold not_in_run. destruct (_is_run t); reflexivity. Qed.

Lemma readonly_f_idx_to_run k t : fst (f_idx_to_run k t) = t.
Proof. unfold f_idx_to_run. destruct k; destruct (_ !! _); reflexivity. Qed.

Lemma readonly_run_information_item k t : fst (run_information_item k t) = t.
Proof. unfold run_information_item. destruct k; [reflexivity|]. destruct (_ !! _); reflexivity. Qed.

Lemma readonly_f_get_run_information k t : fst (f_get_run_information k t) = t.
Proof.
  unfold f_get_run_information.
  pose proof (readonly_run_information_item k t) as H1.
  destruct (run_information_item k t) as [t1 [info|e]]; simpl in H1; subst t1; [reflexivity|].
  destruct e; try reflexivity.
  rewrite bind_run. pose proof (readonly_f_idx_to_run k t) as H2.
  destruct (f_idx_to_run k t) as [t2 [c|e]]; simpl in H2; subst t2; [|reflexivity].
  apply readonly_run_information_item.
Qed.

Lemma readonly_f_get key t : fst (f_get key t) = t.
Proof. unfold f_get. destruct (_ !! _); [reflexivity|]. destruct (_ !! _); reflexivity. Qed.

Lemma readonly_get_param key t : fst (get_param key t) = t.
Proof.
  unfold get_param. rewrite bind_run. pose proof (readonly_f_get key t) as H.
  destruct (f_get key t) as [t1 [[p|n]|e]]; simpl in H; subst t1; reflexivity.
Qed.

Lemma readonly__is_completed k t : fst (_is_completed k t) = t.
Proof.
  destruct k as [k|]; [|reflexivity]. simpl. rewrite bind_run.
  pose proof (readonly_f_get_run_information k t) as H.
  destruct (f_get_run_information k t) as [t1 [i|e]]; simpl in H; subst t1; reflexivity.
Qed.

Lemma readonly_f_is_completed k t : fst (f_is_completed k t) = t.
Proof.
  unfold f_is_completed. rewrite bind_run. pose proof (readonly_not_in_run t) as H.
  destruct (not_in_run t) as [t1 [[]|e]]; simpl in H; subst t1; [|reflexivity].
  apply readonly__is_completed.
Qed.

(** Structural steps of a frame proof; what is left are the state-changing
    primitives. *)
Ltac frame_step :=
  first
    [ apply preserves_ret
    | apply preserves_raise
    | apply preserves_gets
    | apply preserves_lift_result
    | apply preserves_read_local
    | apply preserves_readonly; intros ?;
      first [ apply readonly_not_in_run | apply readonly_f_idx_to_run
            | apply readonly_run_information_item | apply readonly_f_get_run_information
            | apply readonly_f_get | apply readonly_get_param
            | apply readonly__is_completed | apply readonly_f_is_completed ]
    | apply preserves_bind; [|intros ?]
    | apply preserves_for_each; intros ?
    | apply preserves_for_fold; intros ? ?
    | apply preserves_on_self; intros ?
    | apply preserves_on_other; intros ?
    | apply preserves_try_except; [|intros ?]
    | match goal with
      | |- preserves _ (if ?b then _ else _) => destruct b
      | |- preserves _ (match ?x with _ => _ end) => destruct x
      | |- preserves _ (let '(_, _) := ?x in _) => destruct x
      end ].

(** A setter of an attribute outside the ledger keeps [same_ledger]. *)
Ltac frame_modify :=
  apply preserves_modify; intros [] ?; simpl in *;
  repeat match goal with |- context [bool_decide ?P] => destruct (bool_decide P) end;
  assumption.

Ltac frame := repeat first [frame_step | frame_modify].

Lemma frame_log t0 r : preserves (same_ledger t0) (log r).
Proof. unfold log. frame. Qed.

Lemma frame_store_param t0 key p : preserves (same_ledger t0) (store_param key p).
Proof. unfold store_param. frame. Qed.

Lemma frame_add_explored t0 name : preserves (same_ledger t0) (add_explored name).
Proof. unfold add_explored. frame. Qed.

Lemma frame_f_restore_default t0 : preserves (same_ledger t0) f_restore_default.
Proof. unfold f_restore_default. frame. Qed.

Lemma frame_set_explored_parameters_to_idx t0 idx :
  preserves (same_ledger t0) (_set_explored_parameters_to_idx idx).
Proof. unfold _set_explored_parameters_to_idx. frame. Qed.

Lemma frame_f_set_crun t0 x : preserves (same_ledger t0) (f_set_crun x).
Proof.
  unfold f_set_crun. frame;
    first [apply frame_f_restore_default | apply frame_set_explored_parameters_to_idx].
Qed.

Lemma frame_f_get_run_names t0 sort : preserves (same_ledger t0) (f_get_run_names sort).
Proof. unfold f_get_run_names. frame. Qed.

Lemma frame_f_iter_runs t0 body :
  (forall name, preserves (same_ledger t0) (body name)) ->
  preserves (same_ledger t0) (f_iter_runs body).
Proof.
  intros Hb. unfold f_iter_runs. frame;
    first [apply frame_f_get_run_names | apply frame_f_set_crun | apply Hb].
Qed.

Lemma frame_f_add_parameter t0 name v : preserves (same_ledger t0) (f_add_parameter name v).
Proof.
  intros t H. unfold f_add_parameter. destruct (f_contains name t); [exact H|].
  destruct t; exact H.
Qed.

Lemma frame_add_node t0 name leaf c a : preserves (same_ledger t0) (add_node name leaf c a).
Proof.
  intros t H. unfold add_node. destruct (f_contains name t); [exact H|].
  destruct t; exact H.
Qed.

Lemma frame_f_add_link t0 source link target :
  preserves (same_ledger t0) (f_add_link source link target).
Proof.
  intros t H. unfold f_add_link. destruct (_ !! _) as [n|]; [|exact H].
  destruct (v_is_leaf n); [exact H|]. destruct t; exact H.
Qed.

Lemma frame_f_lock_parameters t0 : preserves (same_ledger t0) f_lock_parameters.
Proof. unfold f_lock_parameters. frame. Qed.

Lemma frame_set_v_full_copy t0 val : preserves (same_ledger t0) (set_v_full_copy val).
Proof. unfold set_v_full_copy. frame. Qed.

Lemma frame_f_store t0 : preserves (same_ledger t0) f_store.
Proof. unfold f_store. frame. Qed.

Lemma frame__make_single_run t0 idx : preserves (same_ledger t0) (_make_single_run idx).
Proof. unfold _make_single_run. frame. Qed.

(** From a frame property to the invariant. *)
Lemma frame_ledger_ok {A} (m : M Trajectory A) :
  (forall t0, preserves (same_ledger t0) m) -> preserves ledger_ok m.
Proof.
  intros Hm t Hok. eapply ledger_ok_same; [|exact Hok].
  apply Hm, same_ledger_refl.
Qed.

(** ** Hoare rules *)

Lemma hoare_ret {S A} (P : S -> Prop) (Q : A -> S -> Prop) E a :
  (forall s, P s -> Q a s) -> hoare P (ret a) Q E.
Proof. intros H s Hs. apply H, Hs. Qed.

Lemma hoare_gets {S A} (P : S -> Prop) (E : S -> Prop) (f : S -> A) :
  hoare P (gets f) (fun a s => P s /\ a = f s) E.
Proof. intros s Hs. simpl. auto. Qed.


Lemma hoare_bind {S A B} (P : S -> Prop) (R : A -> S -> Prop) (Q : B -> S -> Prop) E
    (m : M S A) (k : A -> M S B) :
  hoare P m R E -> (forall a, hoare (R a) (k a) Q E) -> hoare P (bind m k) Q E.
Proof.
  intros Hm Hk s Hs. rewrite bind_run. specialize (Hm s Hs).
  destruct (m s) as [s' [a|e]]; [apply Hk, Hm | exact Hm].
Qed.

Lemma hoare_conseq {S A} (P P' : S -> Prop) (Q Q' : A -> S -> Prop) (E E' : S -> Prop) m :
  hoare P' m Q' E' ->
  (forall s, P s -> P' s) -> (forall a s, Q' a s -> Q a s) -> (forall s, E' s -> E s) ->
  hoare P m Q E.
Proof.
  intros Hm HP HQ HE s Hs. specialize (Hm s (HP s Hs)).
  destruct (m s) as [s' [a|e]]; auto.
Qed.

Lemma hoare_for_fold {S A B} (I : B -> S -> Prop) (E : S -> Prop) (l : list A)
    (body : B -> A -> M S B) :
  (forall b x, In x l -> hoare (I b) (body b x) I E) ->
  forall b, hoare (I b) (for_fold l body b) I E.
Proof.
  induction l as [|x l IH]; intros Hb b; simpl.
  - apply hoare_ret. auto.
  - eapply hoare_bind; [apply Hb; left; reflexivity|].
    intros b'. apply IH. intros b0 y Hy. apply Hb. right. exact Hy.
Qed.

Lemma hoare_for_each {S A} (I : S -> Prop) (E : S -> Prop) (l : list A)
    (body : A -> M S unit) :
  (forall x, In x l -> hoare I (body x) (fun _ => I) E) ->
  hoare I (for_each l body) (fun _ => I) E.
Proof.
  induction l as [|x l IH]; intros Hb; simpl.
  - apply hoare_ret. auto.
  - eapply hoare_bind; [apply Hb; left; reflexivity|].
    intros []. apply IH. intros y Hy. apply Hb. right. exact Hy.
Qed.

Lemma hoare_preserves {S A} (P : S -> Prop) (m : M S A) :
  preserves P m -> hoare P m (fun _ => P) P.
Proof.
  intros Hm s Hs. specialize (Hm s Hs). destruct (m s) as [s' [a|e]]; exact Hm.
Qed.

Lemma preserves_hoare {S A} (P : S -> Prop) (m : M S A) Q :
  hoare P m Q P -> (forall a s, Q a s -> P s) -> preserves P m.
Proof.
  intros Hm HQ s Hs. specialize (Hm s Hs).
  destruct (m s) as [s' [a|e]]; simpl; eauto.
Qed.

Lemma preserves_bind_gets {S A B} (P : S -> Prop) (f : S -> A) (k : A -> M S B) :
  (forall s, P s -> P (fst (k (f s) s))) -> preserves P (bind (gets f) k).
Proof. intros H s Hs. rewrite bind_run. simpl. apply H, Hs. Qed.

(** ** The ledger invariant through the operations *)

Ltac frame_ok_modify :=
  apply preserves_modify;
  let s := fresh "s" in let Hs := fresh "Hs" in
  intros s Hs; eapply ledger_ok_same; [|exact Hs];
  destruct s; simpl;
  repeat match goal with |- context [bool_decide ?P] => destruct (bool_decide P) end;
  repeat split.

Ltac frame_ok_with leaf := repeat first [leaf | frame_step | frame_ok_modify].

Ltac frame_ok := frame_ok_with fail.

Lemma ledger_ok_add_run_infos_from_0 l :
  preserves ledger_ok (for_each (py_range 0 l) _add_run_info).
Proof.
  intros t Hok. apply ledger_ok_add_run_infos; [exact Hok|].
  destruct Hok as (_ & ? & _). lia.
Qed.

Lemma ledger_ok_f_explore bd : preserves ledger_ok (f_explore bd).
Proof.
  unfold f_explore, f_explore_body.
  frame_ok_with ltac:(apply ledger_ok_add_run_infos_from_0).
Qed.

Lemma ledger_ok_expand_tail (length : option Z) :
  preserves ledger_ok
    (let! original_length := gets __len__ in
     let! l := read_local length in
     run! for_each (py_range original_length l) _add_run_info in
     let! stored := gets _stored in
     if stored then modify (set_expansion_not_stored true) else ret tt).
Proof.
  apply preserves_bind_gets. intros t Hok.
  destruct length as [l|]; [|exact Hok].
  unfold read_local. rewrite bind_run. unfold ret at 1. rewrite bind_run.
  pose proof (ledger_ok_add_run_infos (__len__ t) l t Hok
                ltac:(destruct Hok as (_&?&_); lia)) as H.
  destruct (for_each (py_range (__len__ t) l) _add_run_info t) as [t1 [[]|e]];
    simpl in H; [|exact H].
  revert t1 H. change (preserves ledger_ok
    (let! stored := gets _stored in
     if stored then modify (set_expansion_not_stored true) else ret tt)).
  frame_ok.
Qed.

Lemma ledger_ok_f_expand bd : preserves ledger_ok (f_expand bd).
Proof.
  unfold f_expand, f_expand_body.
  frame_ok_with ltac:(apply ledger_ok_expand_tail).
Qed.

Lemma ledger_ok_shrink_tail :
  preserves ledger_ok
    (run! modify (set_explored_parameters []) in
     run! modify (set_run_information ∅) in
     run! modify (set_single_run_ids (mkRunIds ∅ ∅)) in
     _add_run_info 0).
Proof.
  intros t (Hnfc & _ & _).
  apply (ledger_ok_intro 1); [destruct t; exact Hnfc | lia |].
  apply (runs_upto_add_run_info 0 0); [|lia].
  apply runs_upto_empty; destruct t; reflexivity.
Qed.

Lemma ledger_ok_f_shrink : preserves ledger_ok f_shrink.
Proof.
  unfold f_shrink. frame_ok_with ltac:(apply ledger_ok_shrink_tail).
Qed.

Lemma runs_upto_update_info n name info t t' :
  runs_upto n t -> is_Some (_run_information t !! name) ->
  _single_run_ids t' = _single_run_ids t ->
  _run_information t' = <[name := info]> (_run_information t) ->
  name = FORMATTED_RUN_NAME (ri_idx info) ->
  runs_upto n t'.
Proof.
  intros [Ha Hb Hc Hi Hd] Hsome Hids Hri Hname.
  split; rewrite ?Hids, ?Hri; try assumption.
  - intros name'. destruct (decide (name = name')) as [<-|Hne].
    + rewrite lookup_insert_eq. rewrite <- Hc. split; eauto.
    + rewrite lookup_insert_ne by assumption. apply Hc.
  - intros name' info'. destruct (decide (name = name')) as [<-|Hne].
    + rewrite lookup_insert_eq. intros [= <-]. exact Hname.
    + rewrite lookup_insert_ne by assumption. apply Hi.
  - rewrite map_size_insert_Some; assumption.
Qed.

Lemma ledger_ok__finalize_run : preserves ledger_ok _finalize_run.
Proof.
  intros t Hok. unfold _finalize_run, bind, gets. simpl.
  destruct (_crun t) as [name|]; [|exact Hok].
  destruct (_run_information t !! name) as [info|] eqn:E; [|exact Hok].
  simpl. destruct Hok as (Hnfc & Hlen & Hru).
  assert (runs_upto (__len__ t)
            (set_run_information (<[name := set_ri_completed 1 info]> (_run_information t)) t))
    as Hru'.
  { eapply runs_upto_update_info; [exact Hru | rewrite E; eauto | | |];
      [destruct t; reflexivity | destruct t; reflexivity |].
    apply (ru_info_idx _ _ Hru name info E). }
  eapply ledger_ok_intro; [destruct t; exact Hnfc | exact Hlen | exact Hru'].
Qed.

Lemma ledger_ok_add_node name leaf c a : preserves ledger_ok (add_node name leaf c a).
Proof. apply frame_ledger_ok. intros t0. apply frame_add_node. Qed.

Lemma ledger_ok_f_add_link source link target :
  preserves ledger_ok (f_add_link source link target).
Proof. apply frame_ledger_ok. intros t0. apply frame_f_add_link. Qed.

Lemma ledger_ok_f_add_parameter name v : preserves ledger_ok (f_add_parameter name v).
Proof. apply frame_ledger_ok. intros t0. apply frame_f_add_parameter. Qed.

Lemma preserves_const {S A} (P : Prop) (m : M S A) : preserves (fun _ => P) m.
Proof. intros s H. exact H. Qed.

(** Leaves of frame proofs about the current trajectory of a merge. *)
Ltac merge_leaf :=
  first [ apply preserves_const
        | apply ledger_ok_add_node
        | apply ledger_ok_f_add_link ].

Lemma ledger_ok_check :
  preserves (fun st => ledger_ok (fst st)) _check_if_both_have_same_parameters.
Proof. unfold _check_if_both_have_same_parameters. frame_ok_with merge_leaf. Qed.

Lemma ledger_ok_merge_parameters rd trial :
  preserves (fun st => ledger_ok (fst st)) (_merge_parameters rd trial).
Proof.
  unfold _merge_parameters, merge_trial_block, mark_body, remove_duplicate_runs,
    compare_runs, param_at_run, extend_body, other_range_of.
  frame_ok_with merge_leaf.
Qed.

Lemma ledger_ok_merge_trajectory_results rename_dict :
  preserves (fun st => ledger_ok (fst st)) (_merge_trajectory_results rename_dict).
Proof. unfold _merge_trajectory_results. frame_ok_with merge_leaf. Qed.

Lemma ledger_ok_merge_links run_name_dict :
  preserves (fun st => ledger_ok (fst st)) (_merge_links run_name_dict).
Proof.
  unfold _merge_links, merge_links_of, copy_link. frame_ok_with merge_leaf.
Qed.

Lemma on_other_readonly {S T A} (m : M T A) (st : S * T) :
  (forall t, fst (m t) = t) -> fst (on_other m st) = st.
Proof.
  intros H. unfold on_other. specialize (H (snd st)).
  destruct (m (snd st)) as [t' r]. simpl in *. subst t'. destruct st; reflexivity.
Qed.

Lemma on_self_readonly {S T A} (m : M S A) (st : S * T) :
  (forall s, fst (m s) = s) -> fst (on_self m st) = st.
Proof.
  intros H. unfold on_self. specialize (H (fst st)).
  destruct (m (fst st)) as [s' r]. simpl in *. subst s'. destruct st; reflexivity.
Qed.

Lemma frame_merge_run_node a0 new_runname rename_dict kv :
  preserves (fun st : Trajectory * Trajectory => same_ledger a0 (fst st))
            (merge_run_node new_runname rename_dict kv).
Proof.
  unfold merge_run_node.
  repeat first [ apply preserves_const | apply frame_add_node | frame_step | frame_modify ].
Qed.

(** One step of the renumbering loop: the ledger of the current trajectory
    stays a ledger and the counter stays its length. *)
Lemma hoare_merge_single_run used_runs locals run_name :
  hoare (fun st => ledger_ok (fst st) /\ sr_count locals = __len__ (fst st))
        (merge_single_run used_runs locals run_name)
        (fun locals' st => ledger_ok (fst st) /\ sr_count locals' = __len__ (fst st))
        (fun st => ledger_ok (fst st)).
Proof.
  intros [a b] [Hok Hc]. simpl in Hok, Hc. unfold merge_single_run.
  rewrite bind_run.
  pose proof (on_other_readonly (S := Trajectory) (f_get_run_information (inr run_name)) (a, b)
                (readonly_f_get_run_information _)) as H1.
  destruct (on_other (f_get_run_information (inr run_name)) (a, b)) as [st1 [info|e]];
    simpl in H1; subst st1; [|exact Hok].
  destruct (py_index used_runs (ri_idx info)) as [[|]|]; simpl; auto.
  rewrite bind_run. simpl. rewrite bind_run.
  pose proof (on_other_readonly (S := Trajectory) (f_get_run_information (inr run_name)) (a, b)
                (readonly_f_get_run_information _)) as H2.
  destruct (on_other (f_get_run_information (inr run_name)) (a, b)) as [st2 [info2|e]];
    simpl in H2; subst st2; [|exact Hok].
  repeat (rewrite bind_run; simpl).
  destruct Hok as (Hnfc & Hlen & Hru).
  match goal with
  | |- context [for_fold _ _ _ (?a1, b)] => set (A1 := a1)
  end.
  assert (ledger_ok A1 /\ __len__ A1 = sr_count locals + 1) as [Hok1 Hlen1].
  { assert (runs_upto (Z.max (__len__ a) (sr_count locals + 1)) A1) as Hru1.
    { eapply (runs_upto_insert (__len__ a) (sr_count locals)); [exact Hru | lia | | | |];
        subst A1; destruct a; reflexivity. }
    replace (Z.max (__len__ a) (sr_count locals + 1)) with (sr_count locals + 1) in Hru1 by lia.
    assert (_length_during_nfc A1 = None) as Hnfc1 by (subst A1; destruct a; exact Hnfc).
    split; [apply (ledger_ok_intro (sr_count locals + 1)); [assumption | lia | assumption]|].
    unfold __len__. rewrite Hnfc1. apply (ru_size _ _ Hru1). }
  clearbody A1.
  pose proof (preserves_for_fold (fun st : Trajectory * Trajectory => same_ledger A1 (fst st))
                (run_nodes run_name b)
                (merge_run_node (FORMATTED_RUN_NAME (sr_count locals)))
                (sr_rename_dict locals)
                (fun rd kv => frame_merge_run_node A1 _ rd kv)
                (A1, b) (same_ledger_refl A1)) as Hframe.
  destruct (for_fold (run_nodes run_name b)
              (merge_run_node (FORMATTED_RUN_NAME (sr_count locals)))
              (sr_rename_dict locals) (A1, b)) as [[a2 b2] [rd|e]]; simpl in Hframe |- *.
  - split; [eapply ledger_ok_same; eassumption|].
    rewrite (same_ledger_len _ _ Hframe). lia.
  - eapply ledger_ok_same; eassumption.
Qed.

Lemma ledger_ok_merge_single_runs used_runs rename_dict :
  preserves (fun st => ledger_ok (fst st)) (_merge_single_runs used_runs rename_dict).
Proof.
  unfold _merge_single_runs.
  apply preserves_hoare with (Q := fun _ st => ledger_ok (fst st)); [|auto].
  eapply hoare_bind; [apply hoare_gets|]. intros count.
  eapply hoare_bind with
    (R := fun _ st => ledger_ok (fst st) /\ count = __len__ (fst st)).
  { eapply hoare_conseq;
      [apply hoare_preserves
         with (P := fun st : Trajectory * Trajectory =>
                      ledger_ok (fst st) /\ count = __len__ (fst st)) | | |].
    - apply preserves_on_other. intros a t H. exact H.
    - intros st [H ->]. auto.
    - auto.
    - intros st [H _]. exact H. }
  intros names.
  eapply hoare_bind with
    (R := fun locals st => ledger_ok (fst st) /\ sr_count locals = __len__ (fst st)).
  { eapply hoare_conseq;
      [apply (hoare_for_fold
                (fun locals st => ledger_ok (fst st) /\ sr_count locals = __len__ (fst st))
                (fun st => ledger_ok (fst st))) | | |].
    - intros locals x _. apply hoare_merge_single_run.
    - intros st [H ->]. auto.
    - auto.
    - auto. }
  intros locals. apply hoare_ret. intros st [H _]. exact H.
Qed.

Lemma ledger_ok_f_merge trial rd itr mn dot :
  preserves (fun st => ledger_ok (fst st)) (f_merge trial rd itr mn dot).
Proof.
  unfold f_merge.
  frame_ok_with ltac:(first
    [ apply preserves_const
    | apply ledger_ok_check
    | apply ledger_ok_merge_parameters
    | apply ledger_ok_merge_trajectory_results
    | apply ledger_ok_merge_single_runs
    | apply ledger_ok_merge_links ]).
Qed.

(** The other trajectory keeps its ledger through a merge. *)
Lemma frame_other_f_merge b0 trial rd itr mn dot :
  preserves (fun st : Trajectory * Trajectory => same_ledger b0 (snd st))
            (f_merge trial rd itr mn dot).
Proof.
  unfold f_merge, _check_if_both_have_same_parameters, _merge_parameters,
    merge_trial_block, mark_body, remove_duplicate_runs, compare_runs, param_at_run,
    extend_body, other_range_of, _merge_trajectory_results, _merge_single_runs,
    merge_single_run,
    merge_run_node, _merge_links, merge_links_of, copy_link.
  repeat first [ apply preserves_const | frame_step | frame_modify ].
Qed.

Theorem reachable_ledger_ok t : reachable t -> ledger_ok t.
Proof.
  induction 1 as [|t o _ IH|t other a _ IHt _ IHo|t other a _ IHt _ IHo].
  - apply ledger_ok_init.
  - revert t IH. change (preserves ledger_ok (run_op o)).
    destruct o; simpl;
      first [ apply ledger_ok_f_explore | apply ledger_ok_f_expand
            | apply ledger_ok_f_shrink | apply ledger_ok__finalize_run
            | apply frame_ledger_ok; intros t0;
              first [ apply frame_f_add_parameter | apply frame_add_node
                    | apply frame_f_add_link | apply frame_f_lock_parameters
                    | apply frame_f_set_crun | apply frame_f_restore_default
                    | apply frame_set_v_full_copy | apply frame_f_store
                    | apply frame__make_single_run
                    | apply preserves_bind;
                      [apply frame_f_iter_runs; intros; apply preserves_ret
                      | intros; apply preserves_ret] ] ].
  - exact (ledger_ok_f_merge _ _ _ _ _ (t, other) IHt).
  - eapply ledger_ok_same; [|exact IHo].
    exact (frame_other_f_merge other _ _ _ _ _ (t, other) (same_ledger_refl other)).
Qed.

Lemma reachable_ex_pq : reachable ex_pq.
Proof. unfold ex_pq. apply reach_op, reach_op, reach_init. Qed.

Lemma reachable_ex_p3 : reachable ex_p3.
Proof. unfold ex_p3. apply reach_op, reachable_ex_pq. Qed.

(** ** Index and name of a run *)

Lemma f_idx_to_run_inl i name t :
  name_of_idx (_single_run_ids t) !! i = Some name ->
  f_idx_to_run (inl i) t = (t, Ok (inr name)).
Proof. intros H. unfold f_idx_to_run. rewrite H. reflexivity. Qed.

Lemma f_idx_to_run_inr i name t :
  idx_of_name (_single_run_ids t) !! name = Some i ->
  f_idx_to_run (inr name) t = (t, Ok (inl i)).
Proof. intros H. unfold f_idx_to_run. rewrite H. reflexivity. Qed.




(** ** Length and the record of run 0 *)

Lemma f_get_run_information_idx i name info t :
  name_of_idx (_single_run_ids t) !! i = Some name ->
  _run_information t !! name = Some info ->
  f_get_run_information (inl i) t = (t, Ok info).
Proof.
  intros H1 H2. unfold f_get_run_information. simpl.
  rewrite bind_run. rewrite (f_idx_to_run_inl _ _ _ H1).
  unfold run_information_item. rewrite H2. reflexivity.
Qed.

Lemma ledger_ok_record n i t :
  runs_upto n t -> 0 <= i < n ->
  exists info,
    _run_information t !! FORMATTED_RUN_NAME i = Some info /\ ri_idx info = i /\
    f_get_run_information (inl i) t = (t, Ok info).
Proof.
  intros Hru Hi. pose proof Hru as [Ha Hb Hc Hidx Hd].
  assert (is_Some (_run_information t !! FORMATTED_RUN_NAME i)) as [info Hinfo]
    by (apply Hc; exists i; split; [lia | reflexivity]).
  exists info. split; [exact Hinfo|]. split.
  - apply Hidx in Hinfo. symmetry.
    apply FORMATTED_RUN_NAME_inj; [lia | | exact Hinfo].
    destruct (Z.le_gt_cases 0 (ri_idx info)) as [?|Hneg]; [assumption|exfalso].
    assert (parse_run_name (FORMATTED_RUN_NAME (ri_idx info)) = Some i) as Hp
      by (rewrite <- Hinfo; apply parse_FORMATTED_RUN_NAME; lia).
    rewrite parse_FORMATTED_RUN_NAME_negative in Hp by lia. discriminate.
  - apply (f_get_run_information_idx i (FORMATTED_RUN_NAME i)); [|exact Hinfo].
    apply Ha. auto.
Qed.




(** ** Exploration *)



(** [_add_run_info] touches the ledger only. *)
Lemma add_run_infos_frame (P : Trajectory -> Prop) l :
  (forall s ids, P s -> P (set_single_run_ids ids s)) ->
  (forall s ri, P s -> P (set_run_information ri s)) ->
  preserves P (for_each l _add_run_info).
Proof.
  intros H1 H2. apply preserves_for_each. intros idx. unfold _add_run_info.
  repeat first [ apply preserves_bind; [|intros ?]
               | apply preserves_modify; intros s Hs; first [apply H1 | apply H2]; exact Hs ].
Qed.






(** ** Failing exploration and expansion *)

















(** The same for [f_expand]: the range of the first parameter has grown
    when the mismatch is noticed at the second. *)
Example f_expand_not_atomic :
  let t := fst (f_explore [("parameters.p", [VInt 1; VInt 2]);
                           ("parameters.q", [VInt 3; VInt 4])] ex_pq) in
  let bd := [("parameters.p", [VInt 5]); ("parameters.q", [VInt 6; VInt 7])] in
  snd (f_expand bd t) = Raise ValueError /\
  p_range <$> _parameters (fst (f_expand bd t)) !! "parameters.p"
    = Some [VInt 1; VInt 2; VInt 5] /\
  __len__ (fst (f_expand bd t)) = 2.
Proof. vm_compute. auto. Qed.



(** ** Snapshots *)

(** C9 as stated fails: the trajectory restored from a narrow snapshot of a
    trajectory of length 3 reports length 3, through [_length_during_nfc]. *)
Lemma C9_counterexample : ~ (forall t, narrow_snapshot_claim t).
Proof.
  intros H.
  specialize (H ex_p3_at_1 eq_refl ltac:(vm_compute; discriminate)).
  destruct (__getstate__ ex_p3_at_1) as [sd|e] eqn:E; [|vm_compute in E; discriminate].
  destruct (H sd eq_refl) as [_ Hlen].
  vm_compute in E. injection E as <-.
  vm_compute in Hlen. discriminate.
Qed.

(** C9, amended. For every trajectory with [v_full_copy] false and a run
    selected, the pickled snapshot retains only the record of the selected
    run (and only its entry of the index-name map), and the trajectory
    restored from it reports the length the trajectory had when the
    snapshot was taken, not 1.  The snapshot exists whenever the selected
    index is in the ledger. *)
Theorem C9_narrow_snapshot t :
  _full_copy t = false -> _idx t <> -1 ->
  (forall statedict, __getstate__ t = Ok statedict ->
     (exists runname info,
        name_of_idx (_single_run_ids t) !! _idx t = Some runname /\
        _run_information t !! runname = Some info /\
        _run_information statedict = {[ runname := info ]} /\
        _single_run_ids statedict
          = mkRunIds {[ _idx t := runname ]} {[ runname := _idx t ]}) /\
     __len__ (__setstate__ statedict) = __len__ t) /\
  (ledger_ok t -> 0 <= _idx t < __len__ t -> exists statedict, __getstate__ t = Ok statedict).
Proof.
  intros Hfc Hidx. split.
  - intros sd. unfold __getstate__. rewrite Hfc. simpl.
    destruct (Z.eqb_spec (_idx t) (-1)) as [?|_]; [contradiction|]. simpl.
    destruct (name_of_idx (_single_run_ids t) !! _idx t) as [runname|] eqn:E1;
      [|discriminate].
    destruct (_run_information t !! runname) as [info|] eqn:E2; [|discriminate].
    destruct (_length_during_nfc t) as [l|] eqn:E3; intros [= <-].
    + split; [exists runname, info; repeat split; assumption|].
      unfold __len__. simpl. rewrite E3. reflexivity.
    + split; [exists runname, info; repeat split; assumption|].
      reflexivity.
  - intros (Hnfc & _ & Hru) Hi. unfold __getstate__. rewrite Hfc. simpl.
    destruct (Z.eqb_spec (_idx t) (-1)) as [?|_]; [contradiction|]. simpl.
    destruct (ledger_ok_record _ _ t Hru Hi) as (info & Hinfo & _).
    rewrite (proj2 (ru_name_of _ _ Hru (_idx t) _) (conj Hi eq_refl)), Hinfo, Hnfc.
    eauto.
Qed.

Lemma C9_narrow_snapshot_witness :
  exists statedict,
    __getstate__ ex_p3_at_1 = Ok statedict /\
    __len__ (__setstate__ statedict) = __len__ ex_p3_at_1.
Proof.
  destruct (C9_narrow_snapshot ex_p3_at_1 eq_refl ltac:(vm_compute; discriminate))
    as [H1 H2].
  destruct H2 as [sd Hsd].
  - apply reachable_ledger_ok. unfold ex_p3_at_1. apply reach_op, reachable_ex_p3.
  - vm_compute. split; [discriminate | reflexivity].
  - exists sd. split; [exact Hsd|]. apply (H1 sd Hsd).
Defined.

(** ** Iterating over the runs *)

Lemma same_modulo_data_refl ps : same_modulo_data ps ps.
Proof. reflexivity. Qed.

Lemma same_modulo_data_lookup ps qs key q :
  same_modulo_data ps qs -> qs !! key = Some q ->
  exists p, ps !! key = Some p /\ forget_data p = forget_data q.
Proof.
  intros H Hq. apply (f_equal (fun m => m !! key)) in H.
  rewrite !lookup_fmap, Hq in H.
  destruct (ps !! key) as [p|]; [|discriminate].
  exists p. split; [reflexivity|]. injection H as H. unfold forget_data, set_p_data.
  congruence.
Qed.

Lemma same_modulo_data_insert ps qs key q q' :
  same_modulo_data ps qs -> qs !! key = Some q -> forget_data q' = forget_data q ->
  same_modulo_data ps (<[key := q']> qs).
Proof.
  intros H Hq Hf. unfold same_modulo_data in *. rewrite fmap_insert, Hf, H.
  symmetry. apply insert_id. rewrite lookup_fmap, Hq. reflexivity.
Qed.

Lemma same_modulo_data_alter ps qs key f :
  same_modulo_data ps qs -> (forall q, forget_data (f q) = forget_data q) ->
  same_modulo_data ps (alter f key qs).
Proof.
  intros H Hf. rewrite alter_alt. destruct (qs !! key) as [q|] eqn:E.
  - eapply same_modulo_data_insert; eauto.
  - exact H.
Qed.

Lemma forget_data_range p q : forget_data p = forget_data q -> p_range p = p_range q.
Proof. intros H. apply (f_equal p_range) in H. exact H. Qed.

Lemma cursor_frame_refl t : cursor_frame t t.
Proof. repeat split. Qed.

Lemma f_get_run_names_loop n t k : forall a acc,
  runs_upto n t -> 0 <= k -> 0 <= a -> a + k <= n ->
  for_fold (seqZ a k)
    (fun acc idx =>
       let! r := f_idx_to_run (inl idx) in
       match r with
       | inr name => ret (acc ++ [name])
       | inl _ => ret acc
       end) acc t
  = (t, Ok (acc ++ (FORMATTED_RUN_NAME <$> seqZ a k))).
Proof.
  intros a acc Hru Hk. revert a acc. pattern k. apply natlike_ind; [| |exact Hk]; clear k Hk.
  - intros a acc _ _. rewrite seqZ_nil by lia. simpl. rewrite app_nil_r. reflexivity.
  - intros k Hk IH a acc Ha Hak. rewrite seqZ_cons by lia. cbn [for_fold fmap list_fmap].
    rewrite bind_run, bind_run.
    rewrite (f_idx_to_run_inl a (FORMATTED_RUN_NAME a));
      [|apply (ru_name_of _ _ Hru); split; [lia | reflexivity]].
    unfold ret at 1. replace (Z.pred (Z.succ k)) with k by lia.
    rewrite IH by lia. rewrite <- app_assoc. reflexivity.
Qed.

Lemma f_get_run_names_ok t :
  ledger_ok t ->
  f_get_run_names true t = (t, Ok (FORMATTED_RUN_NAME <$> seqZ 0 (__len__ t))).
Proof.
  intros (_ & Hlen & Hru). unfold f_get_run_names. rewrite bind_run. simpl.
  unfold py_range. replace (__len__ t - 0) with (__len__ t) by lia.
  apply (f_get_run_names_loop (__len__ t) t (__len__ t) 0 []); [exact Hru | lia | lia | lia].
Qed.

Lemma FORMATTED_RUN_NAME_not_dummy i : 0 <= i -> FORMATTED_RUN_NAME i <> RUN_NAME_DUMMY.
Proof.
  intros Hi E. apply (f_equal parse_run_name) in E.
  rewrite parse_FORMATTED_RUN_NAME in E by exact Hi. vm_compute in E. discriminate.
Qed.

Lemma py_index_Some {A} (l : list A) i :
  0 <= i < Z.of_nat (length l) -> is_Some (py_index l i).
Proof.
  intros Hi. unfold py_index.
  destruct (Z.leb_spec 0 i); [|lia]. destruct (Z.ltb_spec i (Z.of_nat (length l))); [|lia].
  simpl. apply lookup_lt_is_Some. lia.
Qed.

(** Setting every explored parameter to the run [idx] of a trajectory whose
    ranges cover its runs succeeds and changes visible values only. *)
Lemma hoare_set_explored_parameters_to_idx t idx :
  ranges_cover t -> 0 <= idx < __len__ t ->
  hoare (cursor_frame t) (_set_explored_parameters_to_idx idx)
        (fun _ => cursor_frame t) (fun _ => False).
Proof.
  intros Hcov Hidx s Hs. unfold _set_explored_parameters_to_idx. rewrite bind_run. simpl.
  assert (forall key, In key (_explored_parameters s) -> key ∈ _explored_parameters t) as Hin.
  { destruct Hs as (_ & _ & -> & _). intros key. apply list_elem_of_In. }
  revert Hin. generalize (_explored_parameters s) as l. intros l Hin.
  assert (hoare (cursor_frame t)
            (for_each l (fun key =>
               let! ps := gets _parameters in
               match ps !! key with
               | Some p =>
                   let! p' := lift_result (_set_parameter_access idx p) in
                   store_param key p'
               | None => ret tt
               end))
            (fun _ => cursor_frame t) (fun _ => False)) as H.
  { apply hoare_for_each. intros key Hkey s' Hs'. rewrite bind_run. simpl.
    destruct (_parameters s' !! key) as [p|] eqn:Ep; [|exact Hs'].
    destruct Hs' as (Hrun & Hl & Hex & Hmod).
    destruct (same_modulo_data_lookup _ _ _ _ Hmod Ep) as (pt & Hpt & Hf).
    rewrite bind_run. unfold lift_result, _set_parameter_access.
    destruct (f_has_range p) eqn:Er.
    - assert (is_Some (py_index (p_range p) idx)) as [v Hv].
      { apply py_index_Some. rewrite <- (forget_data_range _ _ Hf).
        assert (f_has_range pt = true) as Hrt
          by (unfold f_has_range in *; rewrite (forget_data_range _ _ Hf); exact Er).
        specialize (Hcov key pt (Hin key Hkey) Hpt Hrt). lia. }
      rewrite Hv. simpl. split; [exact Hrun|]. split; [exact Hl|]. split; [exact Hex|].
      eapply same_modulo_data_insert; [exact Hmod | exact Ep | reflexivity].
    - simpl. split; [exact Hrun|]. split; [exact Hl|]. split; [exact Hex|].
      eapply same_modulo_data_insert; [exact Hmod | exact Ep | reflexivity]. }
  exact (H s Hs).
Qed.

Lemma hoare_f_set_crun_name t i :
  _is_run t = false -> ledger_ok t -> ranges_cover t -> 0 <= i < __len__ t ->
  hoare (cursor_frame t) (f_set_crun (Some (inr (FORMATTED_RUN_NAME i))))
        (fun _ => cursor_frame t) (fun _ => False).
Proof.
  intros Hrun (Hnfc & Hlen & Hru) Hcov Hi s Hs.
  pose proof Hs as (Hrun' & (Hn' & Hids' & Hri') & Hex' & Hmod').
  unfold f_set_crun, not_in_run. rewrite bind_run, Hrun', Hrun.
  rewrite bool_decide_eq_false_2 by (apply FORMATTED_RUN_NAME_not_dummy; lia).
  rewrite bind_run, (f_idx_to_run_inr i);
    [|rewrite Hids'; apply (ru_idx_of _ _ Hru); split; [lia | reflexivity]].
  run_monad. simpl.
  apply (hoare_set_explored_parameters_to_idx t i Hcov Hi).
  split; [exact Hrun'|]. split; [repeat split; assumption|]. split; assumption.
Qed.

Lemma cursor_frame_trans t s u : cursor_frame t s -> cursor_frame s u -> cursor_frame t u.
Proof.
  intros (? & (?&?&?) & ? & Hm) (? & (?&?&?) & ? & Hm').
  repeat split; first [congruence | unfold same_modulo_data in *; congruence].
Qed.

Lemma restore_default_loop l : forall s,
  exists s',
    for_each l (fun key =>
      modify (fun t => set_parameters (alter _restore_default key (_parameters t)) t)) s
    = (s', Ok tt) /\
    cursor_frame s s' /\ _idx s' = _idx s /\ _crun s' = _crun s /\
    (forall key p, key ∈ l -> _parameters s' !! key = Some p -> p_data p = p_default p) /\
    (forall key p, _parameters s !! key = Some p -> p_data p = p_default p ->
       exists p', _parameters s' !! key = Some p' /\ p_data p' = p_default p').
Proof.
  induction l as [|k l IH]; intros s.
  - exists s. split; [reflexivity|]. split; [apply cursor_frame_refl|].
    split; [reflexivity|]. split; [reflexivity|]. split.
    + intros key p H. inversion H.
    + intros key p Hp Hd. exists p. auto.
  - set (s1 := set_parameters (alter _restore_default k (_parameters s)) s).
    destruct (IH s1) as (s' & Hrun & Hf & Hi & Hc & Hin & Hkeep).
    assert (cursor_frame s s1) as Hf1.
    { split; [reflexivity|]. split; [repeat split|]. split; [reflexivity|].
      apply same_modulo_data_alter; [reflexivity|]. intros q. reflexivity. }
    exists s'. split.
    { cbn [for_each]. rewrite bind_run. unfold modify at 1. exact Hrun. }
    split; [eapply cursor_frame_trans; eassumption|].
    split; [exact Hi|]. split; [exact Hc|]. split.
    + intros key p Hkey Hp. apply elem_of_cons in Hkey as [->|Hkey]; [|eauto].
      destruct (_parameters s !! k) as [p0|] eqn:E0.
      * destruct (Hkeep k (_restore_default p0)) as (p' & Hp' & Hd).
        { subst s1. simpl. rewrite lookup_alter_eq, E0. reflexivity. }
        { reflexivity. }
        congruence.
      * destruct Hf as (_ & _ & _ & Hm), Hf1 as (_ & _ & _ & Hm1).
        destruct (same_modulo_data_lookup _ _ _ _ Hm Hp) as (p1 & Hp1 & _).
        destruct (same_modulo_data_lookup _ _ _ _ Hm1 Hp1) as (p2 & Hp2 & _). congruence.
    + intros key p Hp Hd.
      apply Hkeep with (p := if decide (k = key) then _restore_default p else p).
      * subst s1. simpl. destruct (decide (k = key)) as [->|Hne].
        -- rewrite lookup_alter_eq, Hp. reflexivity.
        -- rewrite lookup_alter_ne by exact Hne. exact Hp.
      * destruct (decide (k = key)); [reflexivity | exact Hd].
Qed.

Lemma f_restore_default_ok s :
  _is_run s = false ->
  exists s', f_restore_default s = (s', Ok tt) /\ cursor_frame s s' /\
             _idx s' = -1 /\ _crun s' = None /\ explored_at_default s'.
Proof.
  intros Hrun. unfold f_restore_default, not_in_run. rewrite bind_run, Hrun.
  run_monad. simpl.
  set (s1 := set_crun None (set_idx (-1) s)).
  change (_explored_parameters s) with (_explored_parameters s1).
  destruct (restore_default_loop (_explored_parameters s1) s1)
    as (s' & Hloop & Hf & Hi & Hc & Hin & _).
  exists s'. split; [exact Hloop|].
  split.
  { destruct Hf as (? & (?&?&?) & ? & ?). repeat split; assumption. }
  split; [rewrite Hi; reflexivity|].
  split; [rewrite Hc; reflexivity|].
  intros key p Hkey Hp. apply (Hin key p); [|exact Hp].
  destruct Hf as (_ & _ & <- & _). exact Hkey.
Qed.

Section IterRuns.

(** The body of the loop that consumes the generator.  It may read the
    trajectory and change what the parameters show, nothing else, and it
    returns. *)
Variable body : string -> M Trajectory unit.
Hypothesis body_frame : forall t name,
  hoare (cursor_frame t) (body name) (fun _ => cursor_frame t) (fun _ => False).

Lemma f_iter_runs_loop t (indices : list Z) :
  _is_run t = false -> ledger_ok t -> ranges_cover t ->
  (forall i, i ∈ indices -> 0 <= i < __len__ t) ->
  forall acc s, cursor_frame t s ->
  exists s',
    for_fold (FORMATTED_RUN_NAME <$> indices)
      (fun acc run_name =>
         run! f_set_crun (Some (inr run_name)) in
         run! body run_name in
         ret (acc ++ [run_name])) acc s
    = (s', Ok (acc ++ (FORMATTED_RUN_NAME <$> indices))) /\
    cursor_frame t s'.
Proof.
  intros Hrun Hok Hcov. induction indices as [|i indices IH]; intros Hin acc s Hs.
  - exists s. simpl. rewrite app_nil_r. auto.
  - cbn [fmap list_fmap for_fold]. rewrite bind_run, bind_run.
    pose proof (hoare_f_set_crun_name t i Hrun Hok Hcov (Hin i ltac:(left)) s Hs) as H1.
    destruct (f_set_crun (Some (inr (FORMATTED_RUN_NAME i))) s) as [s1 [[]|e]];
      [|contradiction].
    rewrite bind_run. pose proof (body_frame t (FORMATTED_RUN_NAME i) s1 H1) as H2.
    destruct (body (FORMATTED_RUN_NAME i) s1) as [s2 [[]|e]]; [|contradiction].
    unfold ret at 1.
    destruct (IH ltac:(intros j Hj; apply Hin; right; exact Hj)
                (acc ++ [FORMATTED_RUN_NAME i]) s2 H2) as (s' & Hloop & Hs').
    exists s'. rewrite Hloop, <- app_assoc. auto.
Qed.

(** C10, amended. For every trajectory that is not used as a single run,
    whose ledger is well-formed and in which the range of every explored
    parameter has a value for every run, and for every loop body that
    returns and changes nothing but what the parameters show, iterating
    [f_iter_runs] to exhaustion yields exactly the run names of the indices
    [0 .. len(trajectory)-1] in increasing order; afterwards [v_idx] is -1,
    [v_crun] is [None] and every explored parameter shows its default
    value.  Ledger, explored set and ranges are as before.  The condition
    on the ranges is needed: see [ex_short_range]. *)
Theorem C10_iter_runs t :
  _is_run t = false -> ledger_ok t -> ranges_cover t ->
  exists t',
    f_iter_runs body t = (t', Ok (FORMATTED_RUN_NAME <$> seqZ 0 (__len__ t))) /\
    _idx t' = -1 /\ _crun t' = None /\ explored_at_default t' /\ cursor_frame t t'.
Proof.
  intros Hrun Hok Hcov. unfold f_iter_runs, not_in_run. rewrite bind_run, Hrun.
  rewrite bind_run, (f_get_run_names_ok t Hok). rewrite bind_run.
  destruct (f_iter_runs_loop t (seqZ 0 (__len__ t)) Hrun Hok Hcov
              ltac:(intros i Hi; apply elem_of_seqZ in Hi; lia) [] t (cursor_frame_refl t))
    as (s1 & Hloop & Hs1).
  rewrite Hloop. simpl app. rewrite bind_run.
  assert (_is_run s1 = false) as Hrun1 by (destruct Hs1 as (-> & _); exact Hrun).
  destruct (f_restore_default_ok s1 Hrun1) as (t' & Hrd & Hf & Hi & Hc & Hd).
  assert (f_set_crun None s1 = (t', Ok tt)) as ->.
  { unfold f_set_crun, not_in_run. rewrite bind_run, Hrun1. exact Hrd. }
  exists t'. split; [reflexivity|]. split; [exact Hi|]. split; [exact Hc|].
  split; [exact Hd|]. eapply cursor_frame_trans; eassumption.
Qed.

End IterRuns.

Lemma ranges_cover_ex_p3 : ranges_cover ex_p3.
Proof.
  intros key p Hkey Hp Hr.
  change (_explored_parameters ex_p3) with ["parameters.p"] in Hkey.
  apply list_elem_of_singleton in Hkey as ->.
  vm_compute in Hp. injection Hp as <-. vm_compute. discriminate.
Qed.

Lemma C10_iter_runs_witness :
  exists t',
    f_iter_runs (fun _ => ret tt) ex_p3
      = (t', Ok (FORMATTED_RUN_NAME <$> seqZ 0 (__len__ ex_p3))) /\
    _idx t' = -1 /\ _crun t' = None.
Proof.
  destruct (C10_iter_runs (fun _ => ret tt)
              ltac:(intros t name s Hs; exact Hs) ex_p3 eq_refl
              (reachable_ledger_ok _ reachable_ex_p3) ranges_cover_ex_p3)
    as (t' & H1 & H2 & H3 & _).
  exists t'. auto.
Defined.

Lemma reachable_ex_short_range : reachable ex_short_range.
Proof.
  unfold ex_short_range. apply reach_merge_self.
  - unfold ex_run_named_A. repeat apply reach_op. apply reach_init.
  - unfold ex_run_named_B. repeat apply reach_op. apply reach_init.
Qed.

(** The merged trajectory has three runs and is not a single run; the range
    of its explored parameter has two values; [f_iter_runs] raises at the
    third run and leaves the cursor there, and so does
    [_make_single_run(2)]. *)
Lemma ex_short_range_trace :
  snd (f_merge_with (mkMergeArgs None false false false false)
         (ex_run_named_A, ex_run_named_B)) = Ok tt /\
  _is_run ex_short_range = false /\ __len__ ex_short_range = 3 /\
  _explored_parameters ex_short_range = ["parameters.my_run_p"] /\
  p_range <$> _parameters ex_short_range !! "parameters.my_run_p"
    = Some [VInt 1; VInt 2] /\
  snd (f_iter_runs (fun _ => ret tt) ex_short_range) = Raise IndexError /\
  _idx (fst (f_iter_runs (fun _ => ret tt) ex_short_range)) = 2 /\
  _crun (fst (f_iter_runs (fun _ => ret tt) ex_short_range)) = Some (FORMATTED_RUN_NAME 2) /\
  snd (_make_single_run 2 ex_short_range) = Raise IndexError.
Proof. vm_compute. repeat split. Qed.

(** C10 as stated fails for a trajectory that the operations build: after
    the merge the trajectory has a run for which the range of an explored
    parameter has no value. *)
Lemma C10_counterexample : ~ (forall t, reachable t -> iter_runs_claim t).
Proof.
  intros H.
  destruct (H ex_short_range reachable_ex_short_range (proj1 (proj2 ex_short_range_trace)))
    as (t' & Hrun & _).
  apply (f_equal snd) in Hrun. cbn [snd] in Hrun.
  rewrite (proj1 (proj2 (proj2 (proj2 (proj2 (proj2 ex_short_range_trace)))))) in Hrun.
  discriminate Hrun.
Qed.

(** ** Merging links *)

(** C6. At the example, run 0 of the other trajectory becomes run 5 and the
    link [groupA.link1] to [results.run_00000000.x] is recreated as a link
    to [results.run_00000005.x].  The link [lnk] whose source
    [results.run_ALL.g] lies under the shared branch is announced as ignored
    in the log, and is created in the current trajectory all the same: the
    branch that logs the warning does not leave the loop. *)
Theorem C6_link_under_shared_branch_is_copied :
  let merged :=
    f_merge_with (mkMergeArgs None false false false false) (ex_links_A, ex_links_B) in
  let a := fst (fst merged) in
  snd merged = Ok tt /\
  link_target ex_links_A "results.run_ALL.g" "lnk" = None /\
  _logger a = [InfoMergingLinks; WarnLinkingUnderDummy "results.run_ALL.g"] /\
  link_target a "results.run_ALL.g" "lnk" = Some "parameters.x" /\
  link_target a "groupA" "link1" = Some "results.run_00000005.x" /\
  is_Some (_nodes a !! "results.run_00000005.x").
Proof. vm_compute. repeat split; eauto. Qed.

(** The sibling path: a link whose target lies under the shared branch is
    skipped with its warning, nothing is created for it. *)
Lemma merge_links_skips_target_under_dummy run_name_dict old_linked_name old_link_dict a b :
  str_in RUN_NAME_DUMMY old_linked_name = true ->
  _merge_links run_name_dict
    (a, set_linked_by [(old_linked_name, old_link_dict)] b)
  = ((set_logger (_logger a ++ [InfoMergingLinks; WarnLinkedUnderDummy old_linked_name]) a,
      set_linked_by [(old_linked_name, old_link_dict)] b), Ok tt).
Proof.
  intros H. unfold _merge_links. rewrite bind_run. simpl. rewrite H.
  unfold on_self, log. run_monad. simpl. rewrite <- app_assoc. reflexivity.
Qed.

(** ** Merging: inversion of successful steps *)

Lemma bind_Ok {S A B} (m : M S A) (k : A -> M S B) s s' b :
  bind m k s = (s', Ok b) -> exists a s1, m s = (s1, Ok a) /\ k a s1 = (s', Ok b).
Proof.
  rewrite bind_run. destruct (m s) as [s1 [a|e]]; [eauto | discriminate].
Qed.

Lemma on_self_Ok {S T A} (m : M S A) (a : S) (b : T) st' x :
  on_self m (a, b) = (st', Ok x) -> exists a', m a = (a', Ok x) /\ st' = (a', b).
Proof.
  unfold on_self. simpl. destruct (m a) as [a' r]. intros [= <- <-]. eauto.
Qed.

Lemma on_other_Ok {S T A} (m : M T A) (a : S) (b : T) st' x :
  on_other m (a, b) = (st', Ok x) -> exists b', m b = (b', Ok x) /\ st' = (a, b').
Proof.
  unfold on_other. simpl. destruct (m b) as [b' r]. intros [= <- <-]. eauto.
Qed.

Lemma get_param_Ok key t t' p :
  get_param key t = (t', Ok p) -> t' = t /\ _parameters t !! key = Some p.
Proof.
  unfold get_param, f_get. rewrite bind_run.
  destruct (_parameters t !! key) as [p0|]; [intros [= <- <-]; auto|].
  destruct (_nodes t !! key); discriminate.
Qed.

Lemma get_param_Some key t p :
  _parameters t !! key = Some p -> get_param key t = (t, Ok p).
Proof. intros H. unfold get_param, f_get. rewrite bind_run, H. reflexivity. Qed.

Lemma on_self_get_param_Ok key (a b : Trajectory) st' p :
  on_self (get_param key) (a, b) = (st', Ok p) ->
  st' = (a, b) /\ _parameters a !! key = Some p.
Proof.
  intros H. apply on_self_Ok in H as (a' & H & ->).
  apply get_param_Ok in H as [-> H]. auto.
Qed.

Lemma on_other_get_param_Ok key (a b : Trajectory) st' p :
  on_other (get_param key) (a, b) = (st', Ok p) ->
  st' = (a, b) /\ _parameters b !! key = Some p.
Proof.
  intros H. apply on_other_Ok in H as (b' & H & ->).
  apply get_param_Ok in H as [-> H]. auto.
Qed.

(** ** Merging: the parameters marked for change *)

Lemma mark_body_Ok trial ptc rd kv (a b : Trajectory) st' ptc' rd' :
  mark_body trial (ptc, rd) kv (a, b) = (st', Ok (ptc', rd')) ->
  st' = (a, b) /\
  ptc' = (if marked a trial kv then ptc ++ [fst kv] else ptc) /\
  rd' = (if marked a trial kv && unexplored_pair a kv then false else rd).
Proof.
  destruct kv as [key pb]. unfold mark_body, marked, unexplored_pair. simpl.
  destruct (str_in RUN_NAME key); simpl; [intros [= <- <- <-]; auto|].
  intros H. apply bind_Ok in H as (pa & st1 & H1 & H).
  apply on_self_get_param_Ok in H1 as [-> Hpa]. rewrite Hpa.
  destruct (_values_of_same_type (p_f_get pa) (p_f_get pb)); simpl in H; [|discriminate].
  destruct (bool_decide (Some key = trial)); simpl in *; [injection H as <- <- <-; auto|].
  destruct (f_has_range pa || f_has_range pb || negb (_equal_values (p_f_get pa) (p_f_get pb)));
    simpl in *; injection H as <- <- <-; auto.
Qed.

Lemma mark_loop_Ok trial kvs : forall ptc rd (a b : Trajectory) st' ptc' rd',
  for_fold kvs (mark_body trial) (ptc, rd) (a, b) = (st', Ok (ptc', rd')) ->
  st' = (a, b) /\
  ptc' = ptc ++ (List.filter (marked a trial) kvs).*1 /\
  rd' = rd && forallb (fun kv => negb (marked a trial kv && unexplored_pair a kv)) kvs.
Proof.
  induction kvs as [|kv kvs IH]; intros ptc rd a b st' ptc' rd' H.
  - simpl in H. injection H as <- <- <-. simpl. rewrite app_nil_r, andb_true_r. auto.
  - cbn [for_fold] in H. apply bind_Ok in H as ([ptc1 rd1] & st1 & H1 & H).
    apply mark_body_Ok in H1 as (-> & -> & ->).
    apply IH in H as (-> & -> & ->). split; [reflexivity|]. simpl.
    destruct (marked a trial kv); simpl.
    + rewrite <- app_assoc. split; [reflexivity|].
      destruct (unexplored_pair a kv); simpl; [rewrite andb_false_r|]; reflexivity.
    + auto.
Qed.


(** ** Merging: extending the ranges *)

Lemma other_range_of_Ok trial tl use_runs adding key pb (st st' : Trajectory * Trajectory) r :
  other_range_of trial tl use_runs adding key pb st = (st', Ok r) ->
  st' = st /\
  (Some key <> trial -> adding = length (List.filter id use_runs) ->
   r = retained_values use_runs pb) /\
  (Some key = trial ->
   exists l, tl = Some l /\
     r = List.map (fun x => VInt (x + mymaxtrial_T1 l + 1)) (other_trial_list l)).
Proof.
  unfold other_range_of, retained_values.
  destruct (bool_decide_reflect (Some key = trial)) as [Ht|Ht].
  - destruct tl as [l|]; simpl; [|discriminate]. rewrite bind_run. simpl.
    intros [= <- <-]. split; [reflexivity|]. split; [contradiction | eauto].
  - destruct (f_has_range pb); intros [= <- <-]; (split; [reflexivity|]);
      (split; [|contradiction]); intros _ ->; reflexivity.
Qed.

Lemma extend_body_Ok trial tl use_runs adding key (a b : Trajectory) st' :
  extend_body trial tl use_runs adding key (a, b) = (st', Ok tt) ->
  exists pa pb r a',
    _parameters a !! key = Some pa /\ _parameters b !! key = Some pb /\
    other_range_of trial tl use_runs adding key pb (a, b) = ((a, b), Ok r) /\
    st' = (a', b) /\
    _parameters a' = <[key := extended (__len__ a) r pa]> (_parameters a) /\
    same_ledger a a'.
Proof.
  unfold extend_body. intros H.
  apply bind_Ok in H as (pa & st1 & H1 & H).
  apply on_self_get_param_Ok in H1 as [-> Hpa].
  apply bind_Ok in H as (pb & st1 & H1 & H).
  apply on_other_get_param_Ok in H1 as [-> Hpb].
  apply bind_Ok in H as (r & st1 & Hr & H).
  pose proof (other_range_of_Ok _ _ _ _ _ _ _ _ _ Hr) as [-> _].
  exists pa, pb, r.
  apply bind_Ok in H as ([] & st1 & H1 & H).
  assert (exists a1 p1,
            st1 = (a1, b) /\ same_ledger a a1 /\
            _parameters a1 !! key = Some p1 /\
            (forall p', _parameters (set_parameters (<[key := p']> (_parameters a1)) a1)
                        = <[key := p']> (_parameters a)) /\
            p_range p1 = base_range (__len__ a) pa /\ f_has_range p1 = f_has_range p1 /\
            f_unlock p1 = f_unlock (set_p_range (base_range (__len__ a) pa) pa))
    as (a1 & p1 & -> & Hl1 & Hp1 & Hins & Hr1 & _ & Hu1).
  { unfold base_range. destruct (f_has_range pa) eqn:Er; simpl in H1.
    - injection H1 as <-. exists a, pa. split; [reflexivity|].
      split; [apply same_ledger_refl|]. split; [exact Hpa|]. split; [reflexivity|].
      split; [reflexivity|]. split; [reflexivity|]. destruct pa; reflexivity.
    - revert H1. unfold on_self, store_param, _explore. run_monad. simpl.
      unfold f_has_range in Er |- *. simpl. rewrite Er. simpl.
      intros [= <-]. eexists _, _. split; [reflexivity|].
      split; [repeat split|]. split; [simpl; apply lookup_insert_eq|].
      split; [intros p'; simpl; rewrite !insert_insert_eq; reflexivity|].
      split; [reflexivity|]. split; reflexivity. }
  apply bind_Ok in H as (p1' & st1 & H1' & H).
  apply on_self_get_param_Ok in H1' as [-> Hp1'].
  assert (p1' = p1) as -> by congruence.
  revert H. unfold on_self, store_param, add_explored, _expand. run_monad. simpl.
  destruct (f_has_range (f_unlock p1)) eqn:Er1; simpl; [|discriminate].
  intros [= <-]. eexists. split; [exact Hpa|]. split; [exact Hpb|].
  split; [exact Hr|]. split; [reflexivity|].
  split.
  - assert (set_p_range (p_range p1 ++ r) (f_unlock p1) = extended (__len__ a) r pa) as <-.
    { unfold extended. rewrite Hr1, Hu1. reflexivity. }
    destruct (bool_decide _); simpl; rewrite insert_insert_eq; apply Hins.
  - destruct (bool_decide _); destruct Hl1 as (?&?&?); repeat split; assumption.
Qed.


Lemma extend_loop_Ok trial tl use_runs adding keys : forall (a b : Trajectory) st',
  NoDup keys ->
  for_each keys (extend_body trial tl use_runs adding) (a, b) = (st', Ok tt) ->
  exists a',
    st' = (a', b) /\ same_ledger a a' /\
    (forall key, key ∉ keys -> _parameters a' !! key = _parameters a !! key) /\
    (forall key, key ∈ keys ->
       exists pa pb r,
         _parameters a !! key = Some pa /\ _parameters b !! key = Some pb /\
         is_other_range trial tl use_runs adding key pb r /\
         _parameters a' !! key = Some (extended (__len__ a) r pa)).
Proof.
  induction keys as [|key keys IH]; intros a b st' Hnd H.
  - simpl in H. injection H as <-. exists a. split; [reflexivity|].
    split; [apply same_ledger_refl|]. split; [reflexivity|].
    intros key Hin. inversion Hin.
  - apply NoDup_cons in Hnd as [Hkey Hnd]. cbn [for_each] in H.
    apply bind_Ok in H as ([] & st1 & H1 & H).
    apply extend_body_Ok in H1 as (pa & pb & r & a1 & Hpa & Hpb & Hr & -> & Hps1 & Hl1).
    apply other_range_of_Ok in Hr as (_ & Hr).
    apply IH in H as (a' & -> & Hl & Hout & Hin); [|exact Hnd].
    exists a'. split; [reflexivity|]. split; [eapply same_ledger_trans; eassumption|].
    split.
    + intros k Hk. apply not_elem_of_cons in Hk as [Hne Hk].
      rewrite (Hout k Hk), Hps1. apply lookup_insert_ne. congruence.
    + intros k Hk. apply elem_of_cons in Hk as [->|Hk].
      * exists pa, pb, r. split; [exact Hpa|]. split; [exact Hpb|]. split; [exact Hr|].
        rewrite (Hout key Hkey), Hps1. apply lookup_insert_eq.
      * destruct (Hin k Hk) as (pa' & pb' & r' & Hpa' & Hpb' & Hr' & Hres).
        exists pa', pb', r'. rewrite Hps1, lookup_insert_ne in Hpa' by (intros ->; contradiction).
        rewrite (same_ledger_len _ _ Hl1) in Hres. auto.
Qed.


(** ** Merging: what the check and the search for duplicates leave alone *)

Lemma visible_ok_norange t key p :
  visible_ok t -> _parameters t !! key = Some p -> f_has_range p = false ->
  p_data p = p_default p.
Proof.
  intros Hv Hp Hr. destruct (Hv key p Hp) as [H|H]; [exact H|].
  unfold f_has_range in Hr. destruct (p_range p); [|discriminate].
  apply elem_of_nil in H. contradiction.
Qed.

Lemma merge_view_refl t : visible_ok t -> merge_view t t.
Proof. intros H. split; [apply same_ledger_refl|]. split; [reflexivity | exact H]. Qed.

Lemma merge_view_lookup t s key ps :
  merge_view t s -> visible_ok t -> _parameters s !! key = Some ps ->
  exists pt, _parameters t !! key = Some pt /\ forget_data pt = forget_data ps /\
             (f_has_range pt = false -> pt = ps).
Proof.
  intros (_ & Hm & Hdv) Hdvt Hps.
  destruct (same_modulo_data_lookup _ _ _ _ Hm Hps) as (pt & Hpt & Hf).
  exists pt. split; [exact Hpt|]. split; [exact Hf|]. intros Hr.
  assert (f_has_range ps = false) as Hr'
    by (unfold f_has_range in *; rewrite <- (forget_data_range _ _ Hf); exact Hr).
  pose proof (visible_ok_norange _ _ _ Hdvt Hpt Hr) as H1.
  pose proof (visible_ok_norange _ _ _ Hdv Hps Hr') as H2.
  destruct pt, ps. unfold forget_data, set_p_data in Hf. simpl in *. congruence.
Qed.

Lemma merge_view_lookup_rev t s key pt :
  merge_view t s -> visible_ok t -> _parameters t !! key = Some pt ->
  exists ps, _parameters s !! key = Some ps /\ forget_data pt = forget_data ps /\
             (f_has_range pt = false -> pt = ps).
Proof.
  intros Hv Hdvt Hpt. pose proof Hv as (_ & Hm & _).
  assert (same_modulo_data (_parameters s) (_parameters t)) as Hm' by (symmetry; exact Hm).
  destruct (same_modulo_data_lookup _ _ _ _ Hm' Hpt) as (ps & Hps & Hf).
  destruct (merge_view_lookup t s key ps Hv Hdvt Hps) as (pt' & Hpt' & Hf' & Heq).
  exists ps. split; [exact Hps|]. assert (pt' = pt) as -> by congruence. auto.
Qed.

Lemma visible_ok_insert t key p :
  visible_ok t -> (p_data p = p_default p \/ p_data p ∈ p_range p) ->
  visible_ok (set_parameters (<[key := p]> (_parameters t)) t).
Proof.
  intros Hdv Hp k q. simpl. destruct (decide (key = k)) as [->|Hne].
  - rewrite lookup_insert_eq. intros [= <-]. exact Hp.
  - rewrite lookup_insert_ne by exact Hne. apply Hdv.
Qed.

Lemma merge_view_alter_restore t0 key s :
  merge_view t0 s ->
  merge_view t0 (set_parameters (alter _restore_default key (_parameters s)) s).
Proof.
  intros (Hl & Hm & Hdv). split; [exact Hl|]. split.
  - simpl. apply same_modulo_data_alter; [exact Hm|]. intros q. reflexivity.
  - simpl. rewrite alter_alt. destruct (_parameters s !! key) as [p|] eqn:E.
    + apply visible_ok_insert; [exact Hdv | left; reflexivity].
    + intros k q. simpl. apply Hdv.
Qed.

Lemma view_f_restore_default t0 : preserves (merge_view t0) f_restore_default.
Proof.
  unfold f_restore_default.
  repeat first
    [ frame_step
    | apply preserves_modify; intros s Hs; first [exact Hs | apply merge_view_alter_restore, Hs] ].
Qed.

Lemma view_param_at_run t0 key run : preserves (merge_view t0) (param_at_run key run).
Proof.
  intros s Hs. unfold param_at_run. rewrite bind_run.
  destruct (get_param key s) as [s1 [p|e]] eqn:E.
  - apply get_param_Ok in E as [-> Hp].
    destruct (f_has_range p) eqn:Er; [|exact Hs].
    rewrite bind_run. unfold lift_result, _set_parameter_access. rewrite Er.
    destruct (py_index (p_range p) run) as [v|] eqn:Ev; [|exact Hs].
    rewrite bind_run. simpl. destruct Hs as (Hl & Hm & Hdv).
    split; [exact Hl|]. split.
    + eapply same_modulo_data_insert; [exact Hm | exact Hp | reflexivity].
    + apply visible_ok_insert; [exact Hdv|]. right. simpl.
      unfold py_index in Ev.
      destruct ((0 <=? run) && (run <? Z.of_nat (length (p_range p))));
        [eapply list_elem_of_lookup_2; exact Ev|].
      destruct ((- Z.of_nat (length (p_range p)) <=? run) && (run <? 0));
        [eapply list_elem_of_lookup_2; exact Ev | discriminate].
  - pose proof (readonly_get_param key s) as H. rewrite E in H. simpl in *. subst s1. exact Hs.
Qed.

Lemma preserves_on_self_fst {S T A} (PA : S -> Prop) (PB : T -> Prop) (m : M S A) :
  preserves PA m -> preserves (fun st => PA (fst st) /\ PB (snd st)) (on_self m).
Proof.
  intros Hm [s t] [Hs Ht]. unfold on_self. simpl in *. specialize (Hm s Hs).
  destruct (m s) as [s' r]. simpl in *. auto.
Qed.

Lemma preserves_on_other_snd {S T A} (PA : S -> Prop) (PB : T -> Prop) (m : M T A) :
  preserves PB m -> preserves (fun st => PA (fst st) /\ PB (snd st)) (on_other m).
Proof.
  intros Hm [s t] [Hs Ht]. unfold on_other. simpl in *. specialize (Hm t Ht).
  destruct (m t) as [t' r]. simpl in *. auto.
Qed.

Lemma view_log t0 r : preserves (merge_view t0) (log r).
Proof. apply preserves_modify. intros s Hs. exact Hs. Qed.

Lemma view_add_explored t0 name : preserves (merge_view t0) (add_explored name).
Proof.
  apply preserves_modify. intros s Hs.
  destruct (bool_decide (name ∈ _explored_parameters s)); exact Hs.
Qed.

(** Steps of a proof that both trajectories keep their view. *)
Ltac view_step :=
  first
    [ apply preserves_on_self_fst;
      first [ apply view_f_restore_default | apply view_param_at_run
            | apply view_log | apply view_add_explored
            | apply preserves_readonly; intros ?;
              first [ apply readonly_get_param | apply readonly_f_get ]
            | apply preserves_modify; intros ? ?;
              first [assumption | apply merge_view_alter_restore; assumption] ]
    | apply preserves_on_other_snd;
      first [ apply view_f_restore_default | apply view_param_at_run
            | apply preserves_readonly; intros ?;
              first [ apply readonly_get_param | apply readonly_f_get ]
            | apply preserves_modify; intros ? ?;
              first [assumption | apply merge_view_alter_restore; assumption] ]
    | frame_step ].

Lemma view_check a0 b0 :
  preserves (fun st => merge_view a0 (fst st) /\ merge_view b0 (snd st))
            _check_if_both_have_same_parameters.
Proof. unfold _check_if_both_have_same_parameters. repeat view_step. Qed.

Lemma view_remove_duplicate_runs a0 b0 ptc use_runs :
  preserves (fun st => merge_view a0 (fst st) /\ merge_view b0 (snd st))
            (remove_duplicate_runs ptc use_runs).
Proof. unfold remove_duplicate_runs, compare_runs. repeat view_step. Qed.

Lemma view_merge_trial_block a0 b0 name :
  preserves (fun st => merge_view a0 (fst st) /\ merge_view b0 (snd st))
            (merge_trial_block name).
Proof. unfold merge_trial_block. repeat view_step. Qed.


(** ** Merging: what the later steps leave alone *)

Lemma readonly_f_get_run_names sort t : fst (f_get_run_names sort t) = t.
Proof.
  pose proof (frame_f_get_run_names t sort) as _.
  assert (preserves (fun s => s = t) (f_get_run_names sort)) as H.
  { unfold f_get_run_names. repeat frame_step. }
  exact (H t eq_refl).
Qed.

Lemma add_node_fields name leaf c ann t :
  let t' := fst (add_node name leaf c ann t) in
  _parameters t' = _parameters t /\ _explored_parameters t' = _explored_parameters t /\
  same_ledger t t' /\ _is_run t' = _is_run t.
Proof.
  unfold add_node. destruct (f_contains name t); simpl; repeat split.
Qed.

Lemma f_add_link_fields source link target t :
  let t' := fst (f_add_link source link target t) in
  _parameters t' = _parameters t /\ _explored_parameters t' = _explored_parameters t /\
  same_ledger t t' /\ _is_run t' = _is_run t.
Proof.
  unfold f_add_link. destruct (_nodes t !! source) as [n|]; [|simpl; repeat split].
  destruct (v_is_leaf n); simpl; repeat split.
Qed.

Lemma spl_refl t : same_params_ledger t t.
Proof. split; [reflexivity | apply same_ledger_refl]. Qed.

Lemma spl_add_node t0 name leaf c ann :
  preserves (same_params_ledger t0) (add_node name leaf c ann).
Proof.
  intros t [Hp Hl]. destruct (add_node_fields name leaf c ann t) as (H1 & _ & H3 & _).
  split; [congruence | eapply same_ledger_trans; eassumption].
Qed.

Lemma spl_f_add_link t0 source link target :
  preserves (same_params_ledger t0) (f_add_link source link target).
Proof.
  intros t [Hp Hl]. destruct (f_add_link_fields source link target t) as (H1 & _ & H3 & _).
  split; [congruence | eapply same_ledger_trans; eassumption].
Qed.

(** Steps of a proof that the current trajectory keeps parameters and
    ledger and the other trajectory is not changed at all. *)
Ltac late_step b0 :=
  first
    [ apply preserves_on_self_fst with (PB := fun b => b = b0);
      first [ apply spl_add_node | apply spl_f_add_link
            | apply preserves_readonly; intros ?;
              first [ apply readonly_get_param | apply readonly_f_get ]
            | apply preserves_modify; intros ? ?; assumption
            | apply preserves_try_except; [|intros ?] ]
    | apply preserves_on_other_snd with (PB := fun b => b = b0);
      apply preserves_readonly; intros ?;
      first [ apply readonly_get_param | apply readonly_f_get
            | apply readonly_f_get_run_information | apply readonly_f_get_run_names ]
    | apply spl_add_node | apply spl_f_add_link
    | apply preserves_modify; intros ? ?; assumption
    | frame_step ].

Lemma late_merge_trajectory_results a0 b0 rename_dict :
  preserves (fun st => same_params_ledger a0 (fst st) /\ snd st = b0)
            (_merge_trajectory_results rename_dict).
Proof. unfold _merge_trajectory_results. repeat late_step b0. Qed.

Lemma late_merge_run_node a0 b0 new_runname rename_dict kv :
  preserves (fun st => same_params_ledger a0 (fst st) /\ snd st = b0)
            (merge_run_node new_runname rename_dict kv).
Proof. unfold merge_run_node. repeat late_step b0. Qed.

Lemma late_merge_links a0 b0 run_name_dict :
  preserves (fun st => same_params_ledger a0 (fst st) /\ snd st = b0)
            (_merge_links run_name_dict).
Proof. unfold _merge_links, merge_links_of, copy_link. repeat late_step b0. Qed.


(** ** Merging: the retained runs are renumbered *)

Lemma f_get_run_information_name name info t :
  _run_information t !! name = Some info ->
  f_get_run_information (inr name) t = (t, Ok info).
Proof. intros H. unfold f_get_run_information, run_information_item. rewrite H. reflexivity. Qed.

Lemma merge_single_run_Ok used_runs locals i (a b : Trajectory) st' locals' :
  runs_upto (__len__ b) b -> 0 <= i < __len__ b ->
  runs_upto (sr_count locals) a -> _length_during_nfc a = None -> 0 <= sr_count locals ->
  merge_single_run used_runs locals (FORMATTED_RUN_NAME i) (a, b) = (st', Ok locals') ->
  exists a', st' = (a', b) /\
    renumbered used_runs b [i] (sr_count locals) a a' /\
    sr_count locals' = sr_count locals +
      Z.of_nat (length (List.filter (fun i => bool_decide (py_index used_runs i = Some true)) [i])).
Proof.
  intros Hb Hi Ha Hnfc Hc. unfold merge_single_run.
  destruct (ledger_ok_record _ _ _ Hb Hi) as (info & Hinfo & Hidx & _).
  rewrite bind_run. unfold on_other at 1. simpl.
  rewrite (f_get_run_information_name _ _ _ Hinfo). rewrite Hidx.
  unfold renumbered. cbn [List.filter].
  destruct (py_index used_runs i) as [[|]|] eqn:Eu; [| |discriminate].
  - rewrite bind_run. simpl. rewrite bind_run. unfold on_other at 1. simpl.
    rewrite (f_get_run_information_name _ _ _ Hinfo).
    repeat (rewrite bind_run; simpl).
    match goal with
    | |- context [for_fold _ _ _ (?a1, b)] => set (A1 := a1)
    end.
    assert (runs_upto (sr_count locals + 1) A1) as Hru1.
    { assert (runs_upto (Z.max (sr_count locals) (sr_count locals + 1)) A1) as Hru1.
      { eapply (runs_upto_insert (sr_count locals) (sr_count locals)); [exact Ha | lia | | | |];
          subst A1; destruct a; reflexivity. }
      replace (Z.max (sr_count locals) (sr_count locals + 1)) with (sr_count locals + 1) in Hru1
        by lia. exact Hru1. }
    assert (_length_during_nfc A1 = None) as Hnfc1 by (subst A1; destruct a; exact Hnfc).
    assert (_parameters A1 = _parameters a) as Hp1 by (subst A1; destruct a; reflexivity).
    assert (_run_information A1
            = <[FORMATTED_RUN_NAME (sr_count locals) := merged_info (sr_count locals) info]>
                (_run_information a)) as Hri1 by (subst A1; destruct a; reflexivity).
    clearbody A1.
    pose proof (preserves_for_fold
                  (fun st : Trajectory * Trajectory => same_params_ledger A1 (fst st) /\ snd st = b)
                  (run_nodes (FORMATTED_RUN_NAME i) b)
                  (merge_run_node (FORMATTED_RUN_NAME (sr_count locals)))
                  (sr_rename_dict locals)
                  (fun rd kv => late_merge_run_node A1 b _ rd kv)
                  (A1, b) (conj (spl_refl A1) eq_refl)) as Hframe.
    destruct (for_fold (run_nodes (FORMATTED_RUN_NAME i) b)
                (merge_run_node (FORMATTED_RUN_NAME (sr_count locals)))
                (sr_rename_dict locals) (A1, b)) as [[a2 b2] [rd|e]]; [|discriminate].
    simpl in Hframe. destruct Hframe as [[Hp2 Hl2] ->].
    intros [= <- <-]. exists a2. split; [reflexivity|].
    simpl. split; [|reflexivity].
    pose proof Hl2 as (Hn2 & _ & Hri2).
    split; [eapply runs_upto_same; eassumption|].
    split; [congruence|]. split; [congruence|]. split.
    + intros name info' Hlk. rewrite Hri2, Hri1.
      rewrite lookup_insert_ne; [exact Hlk|]. intros <-.
      assert (is_Some (_run_information a !! FORMATTED_RUN_NAME (sr_count locals))) as Hs
        by (rewrite Hlk; eauto).
      apply (ru_info _ _ Ha) in Hs as (k & Hk & Hname).
      apply FORMATTED_RUN_NAME_inj in Hname; lia.
    + intros [|j] i' Hj; [|discriminate]. injection Hj as <-.
      exists info. split; [exact Hinfo|]. rewrite Hri2, Hri1.
      replace (sr_count locals + Z.of_nat 0) with (sr_count locals) by lia.
      apply lookup_insert_eq.
  - intros [= <- <-]. exists a. split; [reflexivity|].
    simpl. split; [|lia].
    split; [match goal with
            | |- runs_upto ?n a => replace n with (sr_count locals) by (simpl; lia)
            end; exact Ha|]. split; [exact Hnfc|]. split; [reflexivity|].
    split; [auto|]. intros j i' Hj. destruct j; discriminate.
Qed.


Lemma renumbered_nil used_runs b count a :
  runs_upto count a -> _length_during_nfc a = None -> renumbered used_runs b [] count a a.
Proof.
  intros Ha Hnfc. unfold renumbered. simpl.
  split; [replace (count + Z.of_nat 0) with count by lia; exact Ha|].
  split; [exact Hnfc|]. split; [reflexivity|]. split; [auto|].
  intros j i Hj. destruct j; discriminate.
Qed.

Lemma renumbered_cons used_runs b i rest count a a1 a' :
  renumbered used_runs b [i] count a a1 ->
  renumbered used_runs b rest
    (count + Z.of_nat (length (List.filter
                                 (fun i => bool_decide (py_index used_runs i = Some true)) [i])))
    a1 a' ->
  renumbered used_runs b (i :: rest) count a a'.
Proof.
  unfold renumbered. cbn [List.filter].
  intros (H1 & H2 & H3 & H4 & H5) (K1 & K2 & K3 & K4 & K5).
  destruct (bool_decide (py_index used_runs i = Some true)); cbn [length app] in *.
  - split; [replace (count + Z.of_nat (S (length (List.filter
                (fun i0 => bool_decide (py_index used_runs i0 = Some true)) rest))))
              with (count + Z.of_nat 1 + Z.of_nat (length (List.filter
                (fun i0 => bool_decide (py_index used_runs i0 = Some true)) rest)))
              by lia; exact K1|].
    split; [exact K2|]. split; [congruence|]. split; [auto|].
    intros [|j] i' Hj.
    + destruct (H5 0%nat i' Hj) as (info & Hb & Ha1). exists info. split; [exact Hb|].
      apply K4. exact Ha1.
    + destruct (K5 j i' Hj) as (info & Hb & Ha'). exists info. split; [exact Hb|].
      replace (count + Z.of_nat (S j)) with (count + Z.of_nat 1 + Z.of_nat j) by lia.
      exact Ha'.
  - split; [replace (count + Z.of_nat 0) with count in K1 by lia; exact K1|].
    split; [exact K2|]. split; [congruence|]. split; [auto|].
    intros j i' Hj. destruct (K5 j i' Hj) as (info & Hb & Ha'). exists info.
    split; [exact Hb|]. replace (count + Z.of_nat 0) with count in Ha' by lia. exact Ha'.
Qed.

Lemma merge_single_runs_loop used_runs b : forall indices locals a st' locals',
  runs_upto (__len__ b) b -> (forall i, i ∈ indices -> 0 <= i < __len__ b) ->
  runs_upto (sr_count locals) a -> _length_during_nfc a = None -> 0 <= sr_count locals ->
  for_fold (FORMATTED_RUN_NAME <$> indices) (merge_single_run used_runs) locals (a, b)
    = (st', Ok locals') ->
  exists a', st' = (a', b) /\ renumbered used_runs b indices (sr_count locals) a a'.
Proof.
  induction indices as [|i rest IH]; intros locals a st' locals' Hb Hin Ha Hnfc Hc.
  - simpl. intros [= <- <-]. exists a. split; [reflexivity|]. apply renumbered_nil; assumption.
  - cbn [fmap list_fmap for_fold]. intros H. apply bind_Ok in H as (locals1 & st1 & H1 & H2).
    apply merge_single_run_Ok in H1 as (a1 & -> & Hr1 & Hc1);
      [| exact Hb | apply Hin; left | exact Ha | exact Hnfc | exact Hc].
    pose proof Hr1 as (Hru1 & Hnfc1 & _).
    apply IH in H2 as (a' & -> & Hr2);
      [| exact Hb | intros k Hk; apply Hin; right; exact Hk
       | rewrite Hc1; exact Hru1 | exact Hnfc1 | lia].
    exists a'. split; [reflexivity|].
    eapply renumbered_cons; [exact Hr1|]. rewrite <- Hc1. exact Hr2.
Qed.

(** A successful [_merge_single_runs]: every retained run of the other
    trajectory has a record under the next free index. *)
Lemma merge_single_runs_Ok used_runs rename_dict (a b : Trajectory) st' r :
  ledger_ok a -> ledger_ok b -> length used_runs = Z.to_nat (__len__ b) ->
  _merge_single_runs used_runs rename_dict (a, b) = (st', Ok r) ->
  exists a', st' = (a', b) /\
    renumbered used_runs b (seqZ 0 (__len__ b)) (__len__ a) a a'.
Proof.
  intros (Hnfc & Hlen & Hru) Hb Hl. unfold _merge_single_runs.
  intros H. apply bind_Ok in H as (count & st1 & H1 & H).
  unfold gets in H1. injection H1 as <- <-. cbv beta in H.
  apply bind_Ok in H as (names & st1 & H1 & H).
  apply on_other_Ok in H1 as (b' & H1 & ->).
  rewrite (f_get_run_names_ok b Hb) in H1. injection H1 as <- <-.
  apply bind_Ok in H as (locals & st2 & H1 & H).
  destruct Hb as (_ & _ & Hrub).
  apply merge_single_runs_loop in H1 as (a' & -> & Hr);
    [| exact Hrub | intros i Hi; apply elem_of_seqZ in Hi; lia | exact Hru | exact Hnfc
     | simpl; lia].
  unfold ret in H. injection H as <- _. exists a'. split; [reflexivity | exact Hr].
Qed.


(** ** Merging: the search for duplicates *)

Lemma hoare_on_self {S T A} (P : S -> Prop) (PB : T -> Prop) (m : M S A) Q E :
  hoare P m Q E ->
  hoare (fun st => P (fst st) /\ PB (snd st)) (on_self m)
        (fun x st => Q x (fst st) /\ PB (snd st)) (fun st => E (fst st) /\ PB (snd st)).
Proof.
  intros Hm [s t] [Hs Ht]. unfold on_self. simpl in *. specialize (Hm s Hs).
  destruct (m s) as [s' [x|e]]; simpl; auto.
Qed.

Lemma hoare_on_other {S T A} (PA : S -> Prop) (P : T -> Prop) (m : M T A) Q E :
  hoare P m Q E ->
  hoare (fun st => PA (fst st) /\ P (snd st)) (on_other m)
        (fun x st => PA (fst st) /\ Q x (snd st)) (fun st => PA (fst st) /\ E (snd st)).
Proof.
  intros Hm [s t] [Hs Ht]. unfold on_other. simpl in *. specialize (Hm t Ht).
  destruct (m t) as [t' [x|e]]; simpl; auto.
Qed.

(** A loop over a range of integers, with an invariant that knows how far
    the loop has come. *)
Lemma hoare_for_range {S B} (J : Z -> B -> S -> Prop) (E : S -> Prop)
    (body : B -> Z -> M S B) n :
  0 <= n -> forall lo,
  (forall x b, lo <= x < lo + n -> hoare (J x b) (body b x) (J (x + 1)) E) ->
  forall b, hoare (J lo b) (for_fold (seqZ lo n) body b) (J (lo + n)) E.
Proof.
  intros Hn. pattern n. apply natlike_ind; [| |exact Hn]; clear n Hn.
  - intros lo _ b. rewrite seqZ_nil by lia. simpl. apply hoare_ret.
    intros s H. replace (lo + 0) with lo by lia. exact H.
  - intros n Hn IH lo Hb b. rewrite seqZ_cons by lia. cbn [for_fold].
    eapply hoare_bind; [apply Hb; lia|]. intros b'.
    replace (Z.pred (Z.succ n)) with n by lia.
    replace (lo + Z.succ n) with (Z.succ lo + n) by lia.
    replace (lo + 1) with (Z.succ lo) by lia.
    apply IH. intros x b0 Hx. apply Hb. lia.
Qed.

Lemma hoare_param_at_run (T : Prop) t0 key run :
  visible_ok t0 ->
  hoare (fun t => merge_view t0 t /\ (T -> covered t0 key run))
        (param_at_run key run)
        (fun p' t' => merge_view t0 t' /\
           exists p0, _parameters t0 !! key = Some p0 /\ point p0 run = Some (p_f_get p'))
        (fun t' => merge_view t0 t' /\ ~ T).
Proof.
  intros Hv0 t [Hview HT].
  pose proof (view_param_at_run t0 key run t Hview) as Hview'.
  unfold param_at_run in *. rewrite bind_run in *.
  destruct (get_param key t) as [t1 [p|e]] eqn:E.
  - apply get_param_Ok in E as [-> Hp].
    destruct (merge_view_lookup t0 t key p Hview Hv0 Hp) as (p0 & Hp0 & Hf & Heq).
    pose proof (forget_data_range _ _ Hf) as Hr.
    assert (f_has_range p0 = f_has_range p) as Hhr by (unfold f_has_range; rewrite Hr; reflexivity).
    destruct (f_has_range p) eqn:Er.
    + rewrite bind_run in *. unfold lift_result, _set_parameter_access in *. rewrite Er in *.
      destruct (py_index (p_range p) run) as [v|] eqn:Ev.
      * rewrite bind_run in *. simpl in *. split; [exact Hview'|].
        exists p0. split; [exact Hp0|]. unfold point. rewrite Hhr, Hr. exact Ev.
      * simpl in *. split; [exact Hview'|]. intros HT'.
        destruct (HT HT') as (q & Hq & Hsome). assert (q = p0) as -> by congruence.
        unfold point in Hsome. rewrite Hhr, Hr, Ev in Hsome. destruct Hsome; discriminate.
    + simpl in *. split; [exact Hview'|]. exists p0. split; [exact Hp0|].
      unfold point. rewrite Hhr. rewrite (Heq Hhr). reflexivity.
  - simpl in *. split; [exact Hview'|]. intros HT'.
    destruct (HT HT') as (q & Hq & _).
    destruct (merge_view_lookup_rev t0 t key q Hview Hv0 Hq) as (ps & Hps & _).
    rewrite (get_param_Some _ _ _ Hps) in E. discriminate.
Qed.


Lemma existsb_seqZ_succ (f : Z -> bool) j :
  0 <= j -> existsb f (seqZ 0 (j + 1)) = existsb f (seqZ 0 j) || f j.
Proof.
  intros Hj. rewrite (seqZ_app 0 j 1) by lia. rewrite existsb_app.
  rewrite (seqZ_cons (0 + j) 1) by lia. rewrite (seqZ_nil _ (Z.pred 1)) by lia.
  simpl. rewrite orb_false_r, Z.add_0_l. reflexivity.
Qed.

Section Dedup.

(** [T] stands for the assumption that the ranges cover all runs: with
    [T := True] the lemmas say that the search returns, with [T := False]
    they say what it has computed when it returns. *)
Variable T : Prop.
Variables a0 b0 : Trajectory.
Hypothesis Hva : visible_ok a0.
Hypothesis Hvb : visible_ok b0.

Lemma hoare_compare_loop irun jrun : forall keys c,
  hoare (fun st => both_views a0 b0 st /\
                   (T -> forall key, key ∈ keys -> covered a0 key jrun /\ covered b0 key irun))
        (for_fold keys
           (fun (locals : bool * bool) key =>
              let '(change, broken) := locals in
              if broken then ret locals
              else
                let! other_param := on_other (param_at_run key irun) in
                let! my_param := on_self (param_at_run key jrun) in
                let val1 := p_f_get my_param in
                let val2 := p_f_get other_param in
                if negb (_equal_values val1 val2) then ret (false, true)
                else ret (change, false))
           (c, negb c))
        (fun locals st => both_views a0 b0 st /\
           locals = (c && forallb (same_point a0 b0 irun jrun) keys,
                     negb (c && forallb (same_point a0 b0 irun jrun) keys)))
        (fun st => both_views a0 b0 st /\ ~ T).
Proof.
  induction keys as [|key keys IH]; intros c [a b] ([Ha Hb] & HT).
  - simpl. split; [split; assumption|]. rewrite andb_true_r. reflexivity.
  - cbn [for_fold]. rewrite bind_run. destruct c; cbn [negb andb].
    + rewrite bind_run. unfold on_other at 1. cbn [fst snd].
      pose proof (hoare_param_at_run T b0 key irun Hvb b
                    (conj Hb (fun t => proj2 (HT t key (list_elem_of_here _ _))))) as H1.
      destruct (param_at_run key irun b) as [b1 [pb'|e]]; [|split; [split|]; tauto].
      destruct H1 as [Hb1 (pb0 & Hpb0 & Hptb)].
      rewrite bind_run. unfold on_self at 1. cbn [fst snd].
      pose proof (hoare_param_at_run T a0 key jrun Hva a
                    (conj Ha (fun t => proj1 (HT t key (list_elem_of_here _ _))))) as H2.
      destruct (param_at_run key jrun a) as [a1 [pa'|e]]; [|split; [split|]; tauto].
      destruct H2 as [Ha1 (pa0 & Hpa0 & Hpta)].
      assert (same_point a0 b0 irun jrun key = _equal_values (p_f_get pa') (p_f_get pb')) as Hsp
        by (unfold same_point; rewrite Hpa0, Hpb0, Hpta, Hptb; reflexivity).
      cbn [forallb]. rewrite Hsp. cbv zeta.
      destruct (_equal_values (p_f_get pa') (p_f_get pb')); cbn [negb andb]; unfold ret at 1.
      * apply (IH true (a1, b1)). split; [split; assumption|].
        intros t k Hk. apply (HT t). right. exact Hk.
      * apply (IH false (a1, b1)). split; [split; assumption|].
        intros t k Hk. apply (HT t). right. exact Hk.
    + unfold ret at 1. apply (IH false (a, b)). split; [split; assumption|].
      intros t k Hk. apply (HT t). right. exact Hk.
Qed.

Lemma hoare_compare_runs keys irun jrun :
  hoare (fun st => both_views a0 b0 st /\
                   (T -> forall key, key ∈ keys -> covered a0 key jrun /\ covered b0 key irun))
        (compare_runs keys irun jrun)
        (fun change st => both_views a0 b0 st /\ change = duplicate_of a0 b0 keys irun jrun)
        (fun st => both_views a0 b0 st /\ ~ T).
Proof.
  unfold compare_runs. eapply hoare_bind; [apply (hoare_compare_loop irun jrun keys true)|].
  intros [change broken]. apply hoare_ret. intros st [Hv [= -> _]]. split; [exact Hv|].
  reflexivity.
Qed.

Variable ptc : list string.
Hypothesis Hla : 0 <= __len__ a0.
Hypothesis Hlb : 0 <= __len__ b0.
Hypothesis Hcov :
  T -> forall key, key ∈ ptc ->
       (forall jrun, 0 <= jrun < __len__ a0 -> covered a0 key jrun) /\
       (forall irun, 0 <= irun < __len__ b0 -> covered b0 key irun).

Lemma both_views_len st :
  both_views a0 b0 st -> __len__ (fst st) = __len__ a0 /\ __len__ (snd st) = __len__ b0.
Proof.
  intros [(Ha & _) (Hb & _)]. split; apply same_ledger_len; assumption.
Qed.

(** The inner loop: run [irun] of the other trajectory against the runs of
    the current one. *)
Lemma hoare_dedup_inner irun use_runs :
  0 <= irun < __len__ b0 ->
  hoare (both_views a0 b0)
        (let! len_self := gets (fun st => __len__ (fst st)) in
         let! '(use_runs, _) :=
           for_fold (py_range 0 len_self)
             (fun (locals : list bool * bool) jrun =>
                let '(use_runs, broken) := locals in
                if broken then ret locals
                else
                  let! change := compare_runs ptc irun jrun in
                  if change then ret (<[Z.to_nat irun := false]> use_runs, true)
                  else ret (use_runs, false))
             (use_runs, false) in
         ret use_runs)
        (fun use_runs' st => both_views a0 b0 st /\
           use_runs' = if has_duplicate a0 b0 ptc irun
                       then <[Z.to_nat irun := false]> use_runs else use_runs)
        (fun st => both_views a0 b0 st /\ ~ T).
Proof.
  intros Hi st Hst. rewrite bind_run. unfold gets at 1.
  rewrite (proj1 (both_views_len st Hst)). unfold py_range. rewrite Z.sub_0_r.
  pose proof (hoare_for_range
    (fun j (locals : list bool * bool) st =>
       both_views a0 b0 st /\
       locals = if existsb (duplicate_of a0 b0 ptc irun) (seqZ 0 j)
                then (<[Z.to_nat irun := false]> use_runs, true) else (use_runs, false))
    (fun st => both_views a0 b0 st /\ ~ T)
    (fun (locals : list bool * bool) jrun =>
       let '(use_runs, broken) := locals in
       if broken then ret locals
       else
         let! change := compare_runs ptc irun jrun in
         if change then ret (<[Z.to_nat irun := false]> use_runs, true)
         else ret (use_runs, false))
    (__len__ a0) Hla 0) as Hloop.
  rewrite bind_run.
  match type of Hloop with
  | ?P -> _ => assert P as Hbody
  end.
  { intros j locals Hj s [Hs ->]. rewrite existsb_seqZ_succ by lia.
    destruct (existsb (duplicate_of a0 b0 ptc irun) (seqZ 0 j)).
    - simpl. auto.
    - rewrite bind_run.
      pose proof (hoare_compare_runs ptc irun j s
                    (conj Hs (fun t key Hk =>
                       conj (proj1 (Hcov t key Hk) j ltac:(lia))
                            (proj2 (Hcov t key Hk) irun Hi)))) as Hc.
      destruct (compare_runs ptc irun j s) as [s' [change|e]]; [|exact Hc].
      destruct Hc as [Hs' ->]. simpl.
      destruct (duplicate_of a0 b0 ptc irun j); simpl; auto. }
  specialize (Hloop Hbody (use_runs, false) st (conj Hst eq_refl)).
  simpl in Hloop.
  destruct (for_fold (seqZ 0 (__len__ a0)) _ (use_runs, false) st) as [s' [[ur br]|e]];
    [|exact Hloop].
  destruct Hloop as [Hs' Heq]. simpl. split; [exact Hs'|].
  unfold has_duplicate. destruct (existsb _ _); injection Heq as -> _; reflexivity.
Qed.

Lemma restore_loop_views keys : forall st,
  both_views a0 b0 st ->
  exists st',
    for_each keys (fun key =>
      run! on_other (modify (fun t =>
             set_parameters (alter _restore_default key (_parameters t)) t)) in
      on_self (modify (fun t =>
             set_parameters (alter _restore_default key (_parameters t)) t))) st
    = (st', Ok tt) /\ both_views a0 b0 st'.
Proof.
  induction keys as [|key keys IH]; intros [a b] [Ha Hb]; cbn [for_each].
  - eexists. split; [reflexivity | split; assumption].
  - rewrite bind_run, bind_run. unfold on_other at 1, on_self at 1, modify. cbn [fst snd].
    apply IH. split; apply merge_view_alter_restore; assumption.
Qed.

Lemma hoare_remove_duplicate_runs use_runs :
  hoare (both_views a0 b0)
        (remove_duplicate_runs ptc use_runs)
        (fun use_runs' st => both_views a0 b0 st /\
           length use_runs' = length use_runs /\
           forall k : nat,
             use_runs' !! k =
               if (Z.of_nat k <? __len__ b0) && has_duplicate a0 b0 ptc (Z.of_nat k)
               then (fun _ => false) <$> use_runs !! k else use_runs !! k)
        (fun st => both_views a0 b0 st /\ ~ T).
Proof.
  intros st Hst. unfold remove_duplicate_runs. rewrite bind_run. unfold gets at 1.
  rewrite (proj2 (both_views_len st Hst)). unfold py_range at 1. rewrite Z.sub_0_r.
  rewrite bind_run.
  match goal with
  | |- context [for_fold (seqZ 0 (__len__ b0)) ?body use_runs st] =>
      pose proof (hoare_for_range
        (fun i (ur : list bool) st =>
           both_views a0 b0 st /\ length ur = length use_runs /\
           forall k : nat,
             ur !! k = if (Z.of_nat k <? i) && has_duplicate a0 b0 ptc (Z.of_nat k)
                       then (fun _ => false) <$> use_runs !! k else use_runs !! k)
        (fun st => both_views a0 b0 st /\ ~ T)
        body (__len__ b0) Hlb 0) as Hloop
  end.
  match type of Hloop with
  | ?P -> _ => assert P as Hbody
  end.
  { intros i ur Hi s (Hs & Hlen & Hur).
    pose proof (hoare_dedup_inner i ur ltac:(lia) s Hs) as Hin.
    match goal with
    | |- match ?c with _ => _ end => destruct c as [s' [ur'|e]]
    end; [|exact Hin].
    destruct Hin as [Hs' ->]. split; [exact Hs'|].
    split; [destruct (has_duplicate a0 b0 ptc i); [rewrite length_insert|]; exact Hlen|].
    intros k. destruct (decide (k = Z.to_nat i)) as [->|Hne].
    - rewrite Z2Nat.id by lia.
      destruct (Z.ltb_spec i (i + 1)) as [_|?]; [|lia]. cbn [andb].
      specialize (Hur (Z.to_nat i)). rewrite Z2Nat.id in Hur by lia.
      destruct (Z.ltb_spec i i) as [?|_]; [lia|]. cbn [andb] in Hur.
      destruct (has_duplicate a0 b0 ptc i); [|exact Hur].
      destruct (use_runs !! Z.to_nat i) as [x|] eqn:E.
      + apply list_lookup_insert_eq. rewrite Hlen. eapply lookup_lt_Some. exact E.
      + simpl. apply lookup_ge_None. rewrite length_insert, Hlen.
        apply lookup_ge_None. exact E.
    - assert ((Z.of_nat k <? i + 1) = (Z.of_nat k <? i)) as ->.
      { destruct (Z.ltb_spec (Z.of_nat k) (i + 1)), (Z.ltb_spec (Z.of_nat k) i);
          try reflexivity; lia. }
      destruct (has_duplicate a0 b0 ptc i); [|apply Hur].
      rewrite list_lookup_insert_ne by (intros E; apply Hne; symmetry; exact E).
      apply Hur. }
  assert (both_views a0 b0 st /\ length use_runs = length use_runs /\
          forall k : nat,
            use_runs !! k = if (Z.of_nat k <? 0) && has_duplicate a0 b0 ptc (Z.of_nat k)
                            then (fun _ => false) <$> use_runs !! k else use_runs !! k) as Hinit.
  { split; [exact Hst|]. split; [reflexivity|]. intros k.
    destruct (Z.ltb_spec (Z.of_nat k) 0); [lia | reflexivity]. }
  specialize (Hloop Hbody use_runs st Hinit). cbn [Z.add] in Hloop.
  match goal with
  | |- match match ?c with _ => _ end with _ => _ end => destruct c as [s1 [ur|e]]
  end; [|exact Hloop].
  destruct Hloop as (Hs1 & Hlen & Hur). rewrite bind_run.
  destruct (restore_loop_views ptc s1 Hs1) as (s2 & -> & Hs2).
  simpl. split; [exact Hs2|]. split; [exact Hlen|]. exact Hur.
Qed.

End Dedup.


(** ** Merging: from the state during the merge back to the trajectories
    it started from *)

(** What a parameter under [merge_view] shares with the original one. *)
Lemma view_param t0 t key p :
  merge_view t0 t -> visible_ok t0 -> _parameters t !! key = Some p ->
  exists p0, _parameters t0 !! key = Some p0 /\
    p_range p = p_range p0 /\ f_has_range p = f_has_range p0 /\
    (f_has_range p0 = false -> p = p0).
Proof.
  intros Hv Hv0 Hp.
  destruct (merge_view_lookup t0 t key p Hv Hv0 Hp) as (p0 & Hp0 & Hf & Heq).
  pose proof (forget_data_range _ _ Hf) as Hr.
  exists p0. split; [exact Hp0|]. split; [symmetry; exact Hr|].
  split; [unfold f_has_range; rewrite Hr; reflexivity|].
  intros H. symmetry. apply Heq, H.
Qed.

Lemma view_param_rev t0 t key p0 :
  merge_view t0 t -> visible_ok t0 -> _parameters t0 !! key = Some p0 ->
  exists p, _parameters t !! key = Some p /\
    p_range p = p_range p0 /\ f_has_range p = f_has_range p0 /\
    (f_has_range p0 = false -> p = p0).
Proof.
  intros Hv Hv0 Hp0.
  destruct (merge_view_lookup_rev t0 t key p0 Hv Hv0 Hp0) as (p & Hp & _).
  destruct (view_param t0 t key p Hv Hv0 Hp) as (p0' & Hp0' & H).
  assert (p0' = p0) as -> by congruence. exists p. auto.
Qed.

Lemma view_lookup_None t0 t key :
  merge_view t0 t -> visible_ok t0 ->
  _parameters t !! key = None <-> _parameters t0 !! key = None.
Proof.
  intros Hv Hv0. split; intros H.
  - destruct (_parameters t0 !! key) as [p0|] eqn:E; [|reflexivity].
    destruct (view_param_rev t0 t key p0 Hv Hv0 E) as (p & Hp & _). congruence.
  - destruct (_parameters t !! key) as [p|] eqn:E; [|reflexivity].
    destruct (view_param t0 t key p Hv Hv0 E) as (p0 & Hp0 & _). congruence.
Qed.

Lemma view_base_range t0 t key p p0 len_self :
  merge_view t0 t -> visible_ok t0 ->
  _parameters t !! key = Some p -> _parameters t0 !! key = Some p0 ->
  base_range len_self p = base_range len_self p0 /\
  trial_list p = trial_list p0 /\
  forall use_runs, retained_values use_runs p = retained_values use_runs p0.
Proof.
  intros Hv Hv0 Hp Hp0.
  destruct (view_param t0 t key p Hv Hv0 Hp) as (p0' & Hp0' & Hr & Hhr & Heq).
  assert (p0' = p0) as -> by congruence.
  unfold base_range, trial_list, retained_values, f_get_range. rewrite Hhr, Hr.
  destruct (f_has_range p0) eqn:E; [auto|]. rewrite (Heq eq_refl). auto.
Qed.

Lemma view_marked a0 a b0 b trial key pb pb0 :
  merge_view a0 a -> merge_view b0 b -> visible_ok a0 -> visible_ok b0 ->
  _parameters b !! key = Some pb -> _parameters b0 !! key = Some pb0 ->
  marked a trial (key, pb) = marked a0 trial (key, pb0) /\
  unexplored_pair a (key, pb) = unexplored_pair a0 (key, pb0).
Proof.
  intros Ha Hb Hva Hvb Hpb Hpb0.
  destruct (view_param b0 b key pb Hb Hvb Hpb) as (pb0' & Hpb0' & _ & Hhb & Heqb).
  assert (pb0' = pb0) as -> by congruence.
  unfold marked, unexplored_pair. cbn [fst snd].
  destruct (_parameters a !! key) as [pa|] eqn:Epa.
  - destruct (view_param a0 a key pa Ha Hva Epa) as (pa0 & Hpa0 & _ & Hha & Heqa).
    rewrite Hpa0, Hha, Hhb.
    destruct (f_has_range pa0) eqn:E1; [split; reflexivity|]. rewrite (Heqa eq_refl).
    destruct (f_has_range pb0) eqn:E2; [split; reflexivity|]. rewrite (Heqb eq_refl).
    split; reflexivity.
  - apply (view_lookup_None a0 a key Ha Hva) in Epa. rewrite Epa. split; reflexivity.
Qed.

Lemma elem_of_filter_keys (f : string * Param -> bool) (m : gmap string Param) key :
  key ∈ (List.filter f (map_to_list m)).*1 <-> exists p, m !! key = Some p /\ f (key, p) = true.
Proof.
  rewrite list_elem_of_fmap. split.
  - intros ([k p] & -> & H). apply list_elem_of_In, filter_In in H as [H Hf].
    apply list_elem_of_In, elem_of_map_to_list in H. exists p. auto.
  - intros (p & Hp & Hf). exists (key, p). split; [reflexivity|].
    apply list_elem_of_In, filter_In. split; [|exact Hf].
    apply list_elem_of_In, elem_of_map_to_list. exact Hp.
Qed.

Lemma NoDup_filter_keys (f : string * Param -> bool) (m : gmap string Param) :
  NoDup (List.filter f (map_to_list m)).*1.
Proof.
  pose proof (NoDup_fst_map_to_list m) as H. revert H.
  induction (map_to_list m) as [|[k p] l IH]; simpl; intros H; [constructor|].
  apply NoDup_cons in H as [Hk Hl]. destruct (f (k, p)); [|apply IH, Hl].
  simpl. apply NoDup_cons. split; [|apply IH, Hl].
  intros Hin. apply Hk. apply list_elem_of_fmap in Hin as ([k' p'] & -> & Hin).
  apply list_elem_of_In, filter_In in Hin as [Hin _]. apply list_elem_of_In in Hin.
  apply list_elem_of_fmap. exists (k', p'). auto.
Qed.

Lemma view_marked_keys a0 a b0 b trial key :
  merge_view a0 a -> merge_view b0 b -> visible_ok a0 -> visible_ok b0 ->
  key ∈ (List.filter (marked a trial) (map_to_list (_parameters b))).*1 <->
  key ∈ marked_keys a0 b0 trial.
Proof.
  intros Ha Hb Hva Hvb. unfold marked_keys. rewrite !elem_of_filter_keys. split.
  - intros (pb & Hpb & Hm).
    destruct (view_param b0 b key pb Hb Hvb Hpb) as (pb0 & Hpb0 & _).
    exists pb0. split; [exact Hpb0|].
    rewrite <- (proj1 (view_marked a0 a b0 b trial key pb pb0 Ha Hb Hva Hvb Hpb Hpb0)).
    exact Hm.
  - intros (pb0 & Hpb0 & Hm).
    destruct (view_param_rev b0 b key pb0 Hb Hvb Hpb0) as (pb & Hpb & _).
    exists pb. split; [exact Hpb|].
    rewrite (proj1 (view_marked a0 a b0 b trial key pb pb0 Ha Hb Hva Hvb Hpb Hpb0)).
    exact Hm.
Qed.

Lemma forallb_same_elems {A} (f : A -> bool) (l l' : list A) :
  (forall x, In x l <-> In x l') -> forallb f l = forallb f l'.
Proof.
  intros H. apply eq_true_iff_eq. rewrite !forallb_forall.
  split; intros Hf x Hx; apply Hf, H, Hx.
Qed.

Lemma view_unexplored_forallb a0 a b0 b trial :
  merge_view a0 a -> merge_view b0 b -> visible_ok a0 -> visible_ok b0 ->
  forallb (fun kv => negb (marked a trial kv && unexplored_pair a kv))
          (map_to_list (_parameters b))
  = forallb (fun kv => negb (marked a0 trial kv && unexplored_pair a0 kv))
            (map_to_list (_parameters b0)).
Proof.
  intros Ha Hb Hva Hvb. apply eq_true_iff_eq. rewrite !forallb_forall. split.
  - intros H [key pb0] Hin. apply list_elem_of_In, elem_of_map_to_list in Hin.
    destruct (view_param_rev b0 b key pb0 Hb Hvb Hin) as (pb & Hpb & _).
    destruct (view_marked a0 a b0 b trial key pb pb0 Ha Hb Hva Hvb Hpb Hin) as [<- <-].
    apply H, list_elem_of_In, elem_of_map_to_list, Hpb.
  - intros H [key pb] Hin. apply list_elem_of_In, elem_of_map_to_list in Hin.
    destruct (view_param b0 b key pb Hb Hvb Hin) as (pb0 & Hpb0 & _).
    destruct (view_marked a0 a b0 b trial key pb pb0 Ha Hb Hva Hvb Hin Hpb0) as [-> ->].
    apply H, list_elem_of_In, elem_of_map_to_list, Hpb0.
Qed.

Lemma has_duplicate_same_elems a0 b0 (l l' : list string) irun :
  (forall key, key ∈ l <-> key ∈ l') ->
  has_duplicate a0 b0 l irun = has_duplicate a0 b0 l' irun.
Proof.
  intros H. unfold has_duplicate.
  assert (forall jrun, duplicate_of a0 b0 l irun jrun = duplicate_of a0 b0 l' irun jrun) as Hd.
  { intros jrun. apply forallb_same_elems. intros key. rewrite <- !list_elem_of_In. apply H. }
  induction (seqZ 0 (__len__ a0)) as [|j js IH]; simpl; [reflexivity|].
  rewrite Hd, IH. reflexivity.
Qed.


(** ** Merging: the trial parameter *)

Lemma fold_left_max_elem l : forall x, fold_left Z.max l x ∈ x :: l.
Proof.
  induction l as [|y l IH]; intros x; simpl; [left|].
  specialize (IH (Z.max x y)). apply elem_of_cons in IH as [->|IH].
  - destruct (Z.max_spec x y) as [[_ ->]|[_ ->]]; [right; left | left].
  - right; right; exact IH.
Qed.

Lemma mapM_as_int values zs : mapM as_int values = Some zs -> values = VInt <$> zs.
Proof.
  intros H. apply mapM_Some in H.
  induction H as [|v z values zs Hv _ IH]; [reflexivity|].
  destruct v; [|discriminate]. injection Hv as ->. simpl. rewrite IH. reflexivity.
Qed.

Lemma check_trial_range_Ok values maxtrial zs :
  check_trial_range values = Ok (maxtrial, zs) ->
  values = VInt <$> zs /\ 0 <= maxtrial /\
  forall x, x ∈ zs <-> 0 <= x <= maxtrial.
Proof.
  unfold check_trial_range.
  destruct (mapM as_int values) as [zs'|] eqn:Em; [|discriminate].
  destruct (py_max zs') as [m|] eqn:Ep; [|discriminate].
  destruct (bool_decide (list_to_set zs' =@{gset Z} list_to_set (seqZ 0 (m + 1)))) eqn:Es;
    [|discriminate].
  intros [= <- <-]. apply bool_decide_eq_true in Es.
  split; [apply mapM_as_int, Em|].
  assert (forall x, x ∈ zs' <-> 0 <= x <= m) as Hset.
  { intros x. rewrite <- (elem_of_list_to_set (C := gset Z)), Es, elem_of_list_to_set.
    rewrite elem_of_seqZ. lia. }
  split; [|exact Hset].
  destruct zs' as [|z zs']; [discriminate|]. simpl in Ep. injection Ep as <-.
  apply (Hset (fold_left Z.max zs' z)), fold_left_max_elem.
Qed.

Lemma merge_trial_block_Ok name (a b : Trajectory) st' l :
  merge_trial_block name (a, b) = (st', Ok l) ->
  exists pa pb T2 zs1,
    _parameters a !! name = Some pa /\ _parameters b !! name = Some pb /\
    check_trial_range (trial_list pa) = Ok (mymaxtrial_T1 l, zs1) /\
    check_trial_range (trial_list pb) = Ok (T2, other_trial_list l) /\
    st' = (fst (add_explored name a), b).
Proof.
  unfold merge_trial_block. intros H.
  apply bind_Ok in H as (i1 & st1 & H1 & H).
  apply on_self_Ok in H1 as (a1 & H1 & ->).
  apply bind_Ok in H as (i2 & st2 & H2 & H).
  apply on_other_Ok in H2 as (b1 & H2 & ->).
  unfold f_get in H1, H2.
  destruct (_parameters a !! name) as [pa|] eqn:Epa;
    [injection H1 as <- <- | destruct (_nodes a !! name); [injection H1 as <- <-|]; discriminate].
  destruct (_parameters b !! name) as [pb|] eqn:Epb;
    [injection H2 as <- <- | destruct (_nodes b !! name); [injection H2 as <- <-|]; discriminate].
  apply bind_Ok in H as ([t1 zs1] & st3 & H3 & H).
  unfold lift_result in H3.
  destruct (check_trial_range (trial_list pa)) as [[t1' zs1']|e] eqn:E1; [|discriminate].
  injection H3 as <- <- <-.
  apply bind_Ok in H as ([t2 zs2] & st4 & H4 & H).
  unfold lift_result in H4.
  destruct (check_trial_range (trial_list pb)) as [[t2' zs2']|e] eqn:E2; [|discriminate].
  injection H4 as <- <- <-.
  apply bind_Ok in H as ([] & st5 & H5 & H).
  apply on_self_Ok in H5 as (a5 & H5 & ->). unfold ret in H. injection H as <- <-.
  exists pa, pb, t2', zs1'. cbn [mymaxtrial_T1 other_trial_list]. rewrite H5. auto.
Qed.

Lemma filter_id_length_0 (l : list bool) :
  length (List.filter id l) = 0%nat -> forallb negb l = true.
Proof.
  induction l as [|[|] l IH]; simpl; [reflexivity | discriminate | exact IH].
Qed.


(** ** Merging: what a successful [_merge_parameters] has done *)

Lemma merge_parameters_unfold rd trial :
  _merge_parameters rd trial =
  (let! remove_duplicates :=
     (if trial_given trial && rd
      then run! on_self (log WarnTrialAndDuplicates) in ret false
      else ret rd) in
   let! '(params_to_change, tl) :=
     (match trial with
      | Some name =>
          if trial_given trial
          then let! l := merge_trial_block name in ret ([name], Some l)
          else ret ([], None)
      | None => ret ([], None)
      end) in
   let! params_to_merge := gets (fun st => _parameters (snd st)) in
   let! '(params_to_change, remove_duplicates) :=
     for_fold (map_to_list params_to_merge) (mark_body trial)
              (params_to_change, remove_duplicates) in
   let! len_other := gets (fun st => __len__ (snd st)) in
   let use_runs := replicate (Z.to_nat len_other) true in
   let! use_runs :=
     (if remove_duplicates : bool
      then remove_duplicate_runs params_to_change use_runs
      else ret use_runs) in
   let adding_length := length (List.filter id use_runs) in
   if (adding_length =? 0)%nat then ret (use_runs, [])
   else
     run! for_each params_to_change
            (extend_body trial tl use_runs adding_length) in
     ret (use_runs, params_to_change)).
Proof. reflexivity. Qed.

(** The first steps: the warning, the trial block and the marking. *)
Lemma merge_parameters_marking trial a0 b0 st st1 ptc0 tl :
  visible_ok a0 -> visible_ok b0 -> both_views a0 b0 st ->
  (match trial with
   | Some name =>
       if trial_given trial
       then let! l := merge_trial_block name in ret ([name], Some l)
       else ret ([], None)
   | None => ret ([], None)
   end) st = (st1, Ok (ptc0, tl)) ->
  both_views a0 b0 st1 /\
  (trial_given trial = false -> ptc0 = [] /\ tl = None) /\
  (trial_given trial = true ->
   exists name l pa pb T2 zs1,
     trial = Some name /\ ptc0 = [name] /\ tl = Some l /\
     _parameters a0 !! name = Some pa /\ _parameters b0 !! name = Some pb /\
     check_trial_range (trial_list pa) = Ok (mymaxtrial_T1 l, zs1) /\
     check_trial_range (trial_list pb) = Ok (T2, other_trial_list l)).
Proof.
  intros Hva Hvb Hst H. destruct (trial_given trial) eqn:Etg.
  - destruct trial as [name|]; [|discriminate].
    apply bind_Ok in H as (l & st2 & H1 & H). unfold ret in H. injection H as <- <- <-.
    pose proof (view_merge_trial_block a0 b0 name st Hst) as Hv. rewrite H1 in Hv.
    split; [exact Hv|]. split; [discriminate|]. intros _.
    destruct st as [a b].
    apply merge_trial_block_Ok in H1 as (pa & pb & T2 & zs1 & Hpa & Hpb & H1 & H2 & _).
    destruct Hst as [Ha Hb]. simpl in Ha, Hb.
    destruct (view_param a0 a name pa Ha Hva Hpa) as (pa0 & Hpa0 & _).
    destruct (view_param b0 b name pb Hb Hvb Hpb) as (pb0 & Hpb0 & _).
    destruct (view_base_range a0 a name pa pa0 0 Ha Hva Hpa Hpa0) as (_ & Hta & _).
    destruct (view_base_range b0 b name pb pb0 0 Hb Hvb Hpb Hpb0) as (_ & Htb & _).
    exists name, l, pa0, pb0, T2, zs1. rewrite <- Hta, <- Htb. auto 10.
  - assert (st1 = st /\ ptc0 = [] /\ tl = None) as (-> & -> & ->)
      by (destruct trial; unfold ret in H; injection H as <- <- <-; auto).
    split; [exact Hst|]. split; [auto | discriminate].
Qed.


Lemma retained_runs_intro a0 b0 trial rd ptc (use_runs : list bool) :
  0 <= __len__ b0 ->
  (forall key, key ∈ ptc <-> key ∈ marked_keys a0 b0 trial) ->
  dedup_applies a0 b0 trial rd = true ->
  length use_runs = Z.to_nat (__len__ b0) ->
  (forall k : nat,
     use_runs !! k =
       if (Z.of_nat k <? __len__ b0) && has_duplicate a0 b0 ptc (Z.of_nat k)
       then (fun _ => false) <$> replicate (Z.to_nat (__len__ b0)) true !! k
       else replicate (Z.to_nat (__len__ b0)) true !! k) ->
  use_runs = retained_runs a0 b0 trial rd.
Proof.
  intros Hlb Hkeys Hd Hlen Hk. unfold retained_runs. rewrite Hd.
  apply list_eq. intros k. rewrite Hk, list_lookup_fmap.
  rewrite (has_duplicate_same_elems a0 b0 ptc (marked_keys a0 b0 trial) _ Hkeys).
  destruct (Z.ltb_spec (Z.of_nat k) (__len__ b0)) as [Hlt|Hge]; cbn [andb].
  - rewrite (lookup_seqZ_lt 0 (__len__ b0) k Hlt). simpl.
    assert (replicate (Z.to_nat (__len__ b0)) true !! k = Some true) as ->
      by (apply lookup_replicate; split; [reflexivity | lia]).
    destruct (has_duplicate _ _ _ _); reflexivity.
  - rewrite (proj2 (lookup_ge_None (seqZ 0 (__len__ b0)) k)) by (rewrite length_seqZ; lia).
    apply lookup_ge_None. rewrite length_replicate. lia.
Qed.

Lemma merge_parameters_Ok rd trial a0 b0 st st' use_runs changed :
  visible_ok a0 -> visible_ok b0 -> 0 <= __len__ a0 -> 0 <= __len__ b0 ->
  both_views a0 b0 st ->
  _merge_parameters rd trial st = (st', Ok (use_runs, changed)) ->
  forallb negb use_runs = false ->
  use_runs = retained_runs a0 b0 trial rd /\
  merge_view b0 (snd st') /\ same_ledger a0 (fst st') /\
  (forall key pb, _parameters b0 !! key = Some pb -> marked a0 trial (key, pb) = true ->
     exists pa pa', _parameters a0 !! key = Some pa /\
       _parameters (fst st') !! key = Some pa' /\
       p_range pa' = base_range (__len__ a0) pa ++ retained_values use_runs pb) /\
  (trial_given trial = true ->
   exists name pa pb pa' T1 T2 zs1 zs2,
     trial = Some name /\
     _parameters a0 !! name = Some pa /\ _parameters b0 !! name = Some pb /\
     _parameters (fst st') !! name = Some pa' /\
     check_trial_range (trial_list pa) = Ok (T1, zs1) /\
     check_trial_range (trial_list pb) = Ok (T2, zs2) /\
     p_range pa' = base_range (__len__ a0) pa ++ List.map (fun x => VInt (x + T1 + 1)) zs2).
Proof.
  intros Hva Hvb Hla Hlb Hst H Hused. rewrite merge_parameters_unfold in H.
  apply bind_Ok in H as (rd1 & st1 & H1 & H).
  assert (both_views a0 b0 st1 /\ rd1 = rd && negb (trial_given trial)) as [Hst1 ->].
  { destruct (trial_given trial); [destruct rd|]; cbn [andb negb] in *.
    - rewrite bind_run in H1. unfold on_self, log, modify, ret in H1. cbn in H1.
      injection H1 as <- <-. split; [|reflexivity]. destruct Hst as [Ha Hb]. split; assumption.
    - unfold ret in H1. injection H1 as <- <-. auto.
    - unfold ret in H1. injection H1 as <- <-. rewrite andb_true_r. auto. }
  clear H1.
  apply bind_Ok in H as ([ptc0 tl] & st2 & H2 & H).
  apply (merge_parameters_marking trial a0 b0 st1 st2 ptc0 tl Hva Hvb Hst1) in H2
    as (Hst2 & Hnotrial & Htrial).
  apply bind_Ok in H as (params_to_merge & st3 & H3 & H).
  unfold gets in H3. injection H3 as <- <-.
  apply bind_Ok in H as ([ptc rd2] & st3 & H3 & H).
  destruct st2 as [a2 b2]. cbn [snd] in H3.
  apply mark_loop_Ok in H3 as (-> & -> & ->).
  destruct Hst2 as [Ha2 Hb2]. cbn [fst snd] in Ha2, Hb2.
  rewrite (view_unexplored_forallb a0 a2 b0 b2 trial Ha2 Hb2 Hva Hvb) in H.
  fold (dedup_applies a0 b0 trial rd) in H.
  apply bind_Ok in H as (len_other & st3 & H3 & H).
  unfold gets in H3. injection H3 as <- <-. cbn [snd] in H.
  rewrite (same_ledger_len _ _ (proj1 Hb2)) in H. cbv zeta in H.
  apply bind_Ok in H as (use_runs' & st4 & H4 & H).
  set (ptc := ptc0 ++ (List.filter (marked a2 trial) (map_to_list (_parameters b2))).*1) in *.
  assert (forall key, key ∈ ptc <->
            key ∈ ptc0 \/ key ∈ marked_keys a0 b0 trial) as Hptc.
  { intros key. subst ptc. rewrite elem_of_app.
    rewrite (view_marked_keys a0 a2 b0 b2 trial key Ha2 Hb2 Hva Hvb). reflexivity. }
  assert (both_views a0 b0 st4 /\ length use_runs' = Z.to_nat (__len__ b0) /\
          use_runs' = retained_runs a0 b0 trial rd) as (Hst4 & Hlen & Huse).
  { destruct (dedup_applies a0 b0 trial rd) eqn:Ed.
    - assert (trial_given trial = false) as Htg.
      { unfold dedup_applies in Ed. destruct (trial_given trial); [|reflexivity].
        rewrite andb_false_r in Ed. discriminate. }
      destruct (Hnotrial Htg) as [-> _].
      pose proof (hoare_remove_duplicate_runs False a0 b0 Hva Hvb ptc Hla Hlb
                    (fun f => match f with end)
                    (replicate (Z.to_nat (__len__ b0)) true) (a2, b2) (conj Ha2 Hb2)) as Hd.
      rewrite H4 in Hd. destruct Hd as (Hst4 & Hlen & Hk).
      rewrite length_replicate in Hlen.
      split; [exact Hst4|]. split; [exact Hlen|].
      apply (retained_runs_intro a0 b0 trial rd ptc); try assumption.
      intros key. rewrite Hptc. split; [intros [H0|H0]; [inversion H0 | exact H0] | auto].
    - unfold ret in H4. injection H4 as <- <-.
      split; [split; assumption|]. split; [apply length_replicate|].
      unfold retained_runs. rewrite Ed. reflexivity. }
  clear H4.
  destruct (Nat.eqb_spec (length (List.filter id use_runs')) 0) as [E0|Hadd].
  { unfold ret in H. injection H as <- <- <-.
    rewrite (filter_id_length_0 _ E0) in Hused. discriminate. }
  apply bind_Ok in H as ([] & st5 & H5 & H). unfold ret in H. injection H as <- <- <-.
  destruct st4 as [a4 b4]. destruct Hst4 as [Ha4 Hb4]. cbn [fst snd] in Ha4, Hb4.
  assert (NoDup ptc) as Hnd.
  { subst ptc. apply NoDup_app. split; [|split; [|apply NoDup_filter_keys]].
    - destruct (trial_given trial) eqn:Etg.
      + destruct (Htrial eq_refl) as (name & l & _ & _ & _ & _ & _ & -> & _).
        apply NoDup_singleton.
      + destruct (Hnotrial eq_refl) as [-> _]. constructor.
    - intros key Hkey Hm. apply elem_of_filter_keys in Hm as (pb & _ & Hm).
      destruct (trial_given trial) eqn:Etg.
      + destruct (Htrial eq_refl) as (name & l & _ & _ & _ & _ & -> & -> & _).
        apply list_elem_of_singleton in Hkey as ->.
        unfold marked in Hm. cbn [fst] in Hm.
        rewrite bool_decide_eq_true_2 in Hm by reflexivity.
        rewrite andb_false_r in Hm. discriminate.
      + destruct (Hnotrial eq_refl) as [-> _]. inversion Hkey. }
  apply extend_loop_Ok in H5 as (a5 & -> & Hl5 & Hout & Hin); [|exact Hnd].
  cbn [fst snd].
  split; [exact Huse|]. split; [exact Hb4|].
  split; [eapply same_ledger_trans; [exact (proj1 Ha4) | exact Hl5]|].
  rewrite (same_ledger_len _ _ (proj1 Ha4)) in Hin.
  split.
  - intros key pb0 Hpb0 Hm.
    assert (key ∈ ptc) as Hkey.
    { apply Hptc. right. apply elem_of_filter_keys. eauto. }
    destruct (Hin key Hkey) as (pa4 & pb4 & r & Hpa4 & Hpb4 & [Hr _] & Hres).
    destruct (view_param a0 a4 key pa4 Ha4 Hva Hpa4) as (pa0 & Hpa0 & _).
    destruct (view_base_range a0 a4 key pa4 pa0 (__len__ a0) Ha4 Hva Hpa4 Hpa0) as (Hbr & _).
    destruct (view_base_range b0 b4 key pb4 pb0 0 Hb4 Hvb Hpb4 Hpb0) as (_ & _ & Hrv).
    exists pa0, (extended (__len__ a0) r pa4). split; [exact Hpa0|]. split; [exact Hres|].
    unfold extended. cbn [p_range set_p_range]. rewrite Hbr. f_equal.
    rewrite <- Hrv. apply Hr; [|reflexivity].
    unfold marked in Hm. cbn [fst] in Hm. intros E.
    rewrite bool_decide_eq_true_2 in Hm by exact E.
    rewrite andb_false_r in Hm. discriminate.
  - intros Etg.
    destruct (Htrial Etg) as (name & l & pa0 & pb0 & T2 & zs1 & -> & -> & -> & Hpa0 & Hpb0 & Hc1 & Hc2).
    assert (name ∈ ptc) as Hkey by (apply Hptc; left; left).
    destruct (Hin name Hkey) as (pa4 & pb4 & r & Hpa4 & Hpb4 & [_ Hr] & Hres).
    destruct (Hr eq_refl) as (l' & [= <-] & ->).
    destruct (view_base_range a0 a4 name pa4 pa0 (__len__ a0) Ha4 Hva Hpa4 Hpa0) as (Hbr & _).
    exists name, pa0, pb0, (extended (__len__ a0)
                              (List.map (fun x => VInt (x + mymaxtrial_T1 l + 1)) (other_trial_list l))
                              pa4),
           (mymaxtrial_T1 l), T2, zs1, (other_trial_list l).
    split; [reflexivity|]. split; [exact Hpa0|]. split; [exact Hpb0|]. split; [exact Hres|].
    split; [exact Hc1|]. split; [exact Hc2|].
    unfold extended. cbn [p_range set_p_range]. rewrite Hbr. reflexivity.
Qed.


(** ** Merging: what a successful [f_merge] has done *)

Lemma length_retained_runs a b trial rd :
  0 <= __len__ b -> length (retained_runs a b trial rd) = Z.to_nat (__len__ b).
Proof.
  intros Hb. unfold retained_runs. destruct (dedup_applies a b trial rd).
  - rewrite length_fmap, length_seqZ. reflexivity.
  - apply length_replicate.
Qed.

Lemma f_merge_Ok trial rd itr mn dot a0 b0 st' :
  ledger_ok a0 -> ledger_ok b0 -> visible_ok a0 -> visible_ok b0 ->
  f_merge trial rd itr mn dot (a0, b0) = (st', Ok tt) ->
  let use_runs := retained_runs a0 b0 trial rd in
  forallb negb use_runs = false /\
  runs_appended use_runs a0 b0 (fst st') /\
  (forall key pb, _parameters b0 !! key = Some pb -> marked a0 trial (key, pb) = true ->
     exists pa pa', _parameters a0 !! key = Some pa /\
       _parameters (fst st') !! key = Some pa' /\
       p_range pa' = base_range (__len__ a0) pa ++ retained_values use_runs pb) /\
  (trial_given trial = true ->
   exists name pa pb pa' T1 T2 zs1 zs2,
     trial = Some name /\
     _parameters a0 !! name = Some pa /\ _parameters b0 !! name = Some pb /\
     _parameters (fst st') !! name = Some pa' /\
     check_trial_range (trial_list pa) = Ok (T1, zs1) /\
     check_trial_range (trial_list pb) = Ok (T2, zs2) /\
     p_range pa' = base_range (__len__ a0) pa ++ List.map (fun x => VInt (x + T1 + 1)) zs2).
Proof.
  intros Hoa Hob Hva Hvb H. unfold f_merge in H.
  pose proof Hoa as (Hnfca & Hlena & Hrua). pose proof Hob as (Hnfcb & Hlenb & Hrub).
  apply bind_Ok in H as ([] & st0 & H0 & H).
  apply on_self_Ok in H0 as (a0' & H0 & ->).
  unfold not_in_run in H0. destruct (_is_run a0); [discriminate|]. injection H0 as <-.
  destruct (negb mn && dot); [discriminate|].
  apply bind_Ok in H as ([] & st1 & H1 & H).
  pose proof (view_check a0 b0 (a0, b0)
                (conj (merge_view_refl a0 Hva) (merge_view_refl b0 Hvb))) as Hst1.
  rewrite H1 in Hst1. cbn [fst] in Hst1. clear H1.
  apply bind_Ok in H as ([used changed] & st2 & H2 & H).
  destruct (forallb negb used) eqn:Eused; [discriminate|].
  apply (merge_parameters_Ok rd trial a0 b0 st1 st2 used changed Hva Hvb
           ltac:(lia) ltac:(lia) Hst1) in H2 as (Huse & Hb2 & Ha2 & Hranges & Htrial);
    [|exact Eused].
  subst used. intros use_runs. fold use_runs in Eused, H, Hranges, Htrial.
  split; [exact Eused|].
  apply bind_Ok in H as (has_results & st3 & H3 & H).
  unfold gets in H3. injection H3 as <- <-.
  apply bind_Ok in H as (rename_dict & st3 & H3 & H).
  assert (same_params_ledger (fst st2) (fst st3) /\ snd st3 = snd st2) as [Ha3 Hb3].
  { destruct (negb itr && f_contains "results" (snd st2)).
    - pose proof (late_merge_trajectory_results (fst st2) (snd st2) [] st2
                    (conj (spl_refl _) eq_refl)) as Hl.
      rewrite H3 in Hl. exact Hl.
    - unfold ret in H3. injection H3 as <- <-. split; [apply spl_refl | reflexivity]. }
  clear H3.
  apply bind_Ok in H as ([run_name_dict rename_dict'] & st4 & H4 & H).
  destruct st3 as [a3 b3]. cbn [fst snd] in Ha3, Hb3. subst b3.
  destruct st2 as [a2 b2]. cbn [fst snd] in *.
  assert (same_ledger a0 a3) as Hl3
    by (eapply same_ledger_trans; [exact Ha2 | exact (proj2 Ha3)]).
  pose proof (same_ledger_len _ _ Hl3) as Hlen3.
  pose proof (same_ledger_len _ _ (proj1 Hb2)) as Hlenb2.
  apply merge_single_runs_Ok in H4 as (a4 & -> & Hren);
    [| eapply ledger_ok_same; [exact Hl3 | exact Hoa]
     | eapply ledger_ok_same; [exact (proj1 Hb2) | exact Hob]
     | rewrite Hlenb2; apply length_retained_runs; lia].
  pose proof (late_merge_links a4 b2 run_name_dict (a4, b2) (conj (spl_refl _) eq_refl)) as Hl.
  rewrite H in Hl. cbn [fst snd] in Hl. destruct Hl as [[Hp5 Hl5] Hb5].
  destruct st' as [a5 b5]. cbn [fst snd] in *. subst b5.
  rewrite Hlenb2, Hlen3 in Hren.
  destruct Hren as (Hru4 & Hnfc4 & Hp4 & Hold & Hnew).
  assert (retained_indices use_runs
          = List.filter (fun i => bool_decide (py_index use_runs i = Some true))
                        (seqZ 0 (__len__ b0))) as Hri.
  { unfold retained_indices.
    replace (Z.of_nat (length use_runs)) with (__len__ b0); [reflexivity|].
    unfold use_runs. rewrite length_retained_runs by lia. lia. }
  rewrite <- Hri in Hru4, Hnew.
  pose proof (runs_upto_same _ _ _ Hl5 Hru4) as Hru5.
  assert (_length_during_nfc a5 = None) as Hnfc5 by (rewrite (proj1 Hl5); exact Hnfc4).
  assert (__len__ a5 = __len__ a0 + Z.of_nat (length (retained_indices use_runs))) as Hlen5
    by (unfold __len__ at 1; rewrite Hnfc5; apply (ru_size _ _ Hru5)).
  split; [|split].
  - split; [exact Hlen5|]. split.
    { apply (ledger_ok_intro (__len__ a0 + Z.of_nat (length (retained_indices use_runs))));
        [exact Hnfc5 | lia | exact Hru5]. }
    destruct Hl5 as (_ & _ & Hri5). rewrite Hri5.
    destruct Hl3 as (_ & _ & Hri3). split.
    + intros name info Hi. apply Hold. rewrite Hri3. exact Hi.
    + intros j i Hj. destruct (Hnew j i Hj) as (info & Hb & Ha).
      exists info. destruct Hb2 as ((_ & _ & Hrib) & _). rewrite Hrib in Hb.
      split; [exact Hb|].
      apply (f_get_run_information_idx _ (FORMATTED_RUN_NAME (__len__ a0 + Z.of_nat j)));
        [|rewrite Hri5; exact Ha].
      apply (ru_name_of _ _ Hru5). split; [|reflexivity].
      apply lookup_lt_Some in Hj. lia.
  - intros key pb Hpb Hm. destruct (Hranges key pb Hpb Hm) as (pa & pa' & H1 & H2 & H3).
    exists pa, pa'. split; [exact H1|]. split; [|exact H3].
    rewrite Hp5, Hp4, (proj1 Ha3). exact H2.
  - intros Etg.
    destruct (Htrial Etg) as (name & pa & pb & pa' & T1 & T2 & zs1 & zs2 & ? & ? & ? & H2 & ?).
    exists name, pa, pb, pa', T1, T2, zs1, zs2.
    repeat (split; [assumption|]). split; [|assumption].
    rewrite Hp5, Hp4, (proj1 Ha3). exact H2.
Qed.


(** ** The sample trajectories of the merge claims *)

Lemma reachable_ex_merge_B : reachable ex_merge_B.
Proof. unfold ex_merge_B. repeat apply reach_op. apply reach_init. Qed.

Lemma reachable_ex_trial_A : reachable ex_trial_A.
Proof. unfold ex_trial_A. repeat apply reach_op. apply reach_init. Qed.

Lemma reachable_ex_trial_B : reachable ex_trial_B.
Proof. unfold ex_trial_B. repeat apply reach_op. apply reach_init. Qed.

Lemma visible_ok_ex_p3 : visible_ok ex_p3.
Proof. apply (bool_decide_unpack _). vm_compute. exact I. Qed.

Lemma visible_ok_ex_merge_B : visible_ok ex_merge_B.
Proof. apply (bool_decide_unpack _). vm_compute. exact I. Qed.

Lemma visible_ok_ex_trial_A : visible_ok ex_trial_A.
Proof. apply (bool_decide_unpack _). vm_compute. exact I. Qed.

Lemma visible_ok_ex_trial_B : visible_ok ex_trial_B.
Proof. apply (bool_decide_unpack _). vm_compute. exact I. Qed.

(** ** Merging extends the ranges and renumbers the runs *)

(** X1. Merging the trajectory [B] (two runs, [q = 2]) into [A] (three
    runs, [q = 1]) with the default options returns, the merged length is 5
    and the range of [q] is [1, 1, 1, 2, 2].  In general, after every
    successful merge of [b] into [a], the range of every parameter marked
    for change is the range it had in [a] (or as many copies of its value
    as [a] had runs) followed by the values of [b] for the retained runs,
    and the retained runs of [b] have their records, in order, under the
    indices that follow the runs of [a], whose own records are kept. *)
Theorem f_merge_extends_ranges :
  (let r := f_merge None false false false false (ex_merge_A, ex_merge_B) in
   snd r = Ok tt /\ __len__ (fst (fst r)) = 5 /\
   p_range <$> _parameters (fst (fst r)) !! "parameters.q"
     = Some [VInt 1; VInt 1; VInt 1; VInt 2; VInt 2]) /\
  (forall a b trial rd itr mn dot st',
     ledger_ok a -> ledger_ok b -> visible_ok a -> visible_ok b ->
     f_merge trial rd itr mn dot (a, b) = (st', Ok tt) ->
     let use_runs := retained_runs a b trial rd in
     runs_appended use_runs a b (fst st') /\
     forall key pb,
       _parameters b !! key = Some pb -> marked a trial (key, pb) = true ->
       exists pa pa',
         _parameters a !! key = Some pa /\ _parameters (fst st') !! key = Some pa' /\
         p_range pa' = base_range (__len__ a) pa ++ retained_values use_runs pb).
Proof.
  split.
  - vm_compute. auto.
  - intros a b trial rd itr mn dot st' Hoa Hob Hva Hvb H.
    destruct (f_merge_Ok trial rd itr mn dot a b st' Hoa Hob Hva Hvb H) as (_ & H1 & H2 & _).
    split; [exact H1 | exact H2].
Qed.

Lemma f_merge_extends_ranges_witness :
  let st' := fst (f_merge None false false false false (ex_merge_A, ex_merge_B)) in
  runs_appended (retained_runs ex_merge_A ex_merge_B None false)
                ex_merge_A ex_merge_B (fst st').
Proof.
  intros st'.
  apply (proj2 f_merge_extends_ranges ex_merge_A ex_merge_B None false false false false st').
  - apply reachable_ledger_ok, reachable_ex_p3.
  - apply reachable_ledger_ok, reachable_ex_merge_B.
  - exact visible_ok_ex_p3.
  - exact visible_ok_ex_merge_B.
  - vm_compute. reflexivity.
Defined.


(** ** Merging with a trial parameter *)

Lemma trial_range_ok_of_check t name p maxtrial zs :
  _parameters t !! name = Some p ->
  check_trial_range (trial_list p) = Ok (maxtrial, zs) ->
  trial_range_ok t name maxtrial zs /\ 0 <= maxtrial.
Proof.
  intros Hp Hc. apply check_trial_range_Ok in Hc as (Hl & Hm & Hset).
  split; [exists p; auto | exact Hm].
Qed.

(** The values of the merged trial range. *)
Lemma merged_trial_range len_self pa T1 T2 zs1 zs2 v :
  1 <= len_self -> 0 <= T1 -> 0 <= T2 ->
  trial_list pa = VInt <$> zs1 -> (forall x, x ∈ zs1 <-> 0 <= x <= T1) ->
  (forall x, x ∈ zs2 <-> 0 <= x <= T2) ->
  v ∈ base_range len_self pa ++ List.map (fun x => VInt (x + T1 + 1)) zs2 <->
  exists x, v = VInt x /\ 0 <= x <= T1 + T2 + 1.
Proof.
  intros Hlen HT1 HT2 Hl1 H1 H2. rewrite elem_of_app.
  assert (v ∈ base_range len_self pa <-> exists x, v = VInt x /\ 0 <= x <= T1) as ->.
  { unfold base_range, trial_list, f_get_range in *. destruct (f_has_range pa).
    - rewrite Hl1, list_elem_of_fmap. split; intros (x & -> & Hx); exists x; split;
        try reflexivity; apply H1, Hx.
    - destruct zs1 as [|z [|z' zs1]]; try discriminate. injection Hl1 as Hl1.
      assert (z = 0) as -> by (pose proof (proj2 (H1 0) ltac:(lia)) as Hz;
                               apply list_elem_of_singleton in Hz; congruence).
      assert (T1 = 0) as -> by (pose proof (proj2 (H1 T1) ltac:(lia)) as Hz;
                                apply list_elem_of_singleton in Hz; exact Hz).
      rewrite Hl1. split.
      + intros Hv. apply elem_of_replicate in Hv as [-> _]. exists 0. split; [reflexivity | lia].
      + intros (x & -> & Hx). assert (x = 0) as -> by lia.
        apply elem_of_replicate. split; [reflexivity | lia]. }
  assert (v ∈ List.map (fun x => VInt (x + T1 + 1)) zs2 <->
          exists x, v = VInt x /\ T1 + 1 <= x <= T1 + T2 + 1) as ->.
  { rewrite list_elem_of_In, in_map_iff. split.
    - intros (x & <- & Hx). apply list_elem_of_In, H2 in Hx.
      exists (x + T1 + 1). split; [reflexivity | lia].
    - intros (x & -> & Hx). exists (x - T1 - 1). split; [f_equal; lia|].
      apply list_elem_of_In, H2. lia. }
  split.
  - intros [(x & -> & Hx)|(x & -> & Hx)]; exists x; split; try reflexivity; lia.
  - intros (x & -> & Hx). destruct (Z.le_gt_cases x T1); [left | right]; exists x;
      (split; [reflexivity | lia]).
Qed.

(** X2. When [f_merge] is given the trial parameter [name] and returns,
    the values of [name] were exactly the integers [0..T1] in the current
    trajectory and exactly [0..T2] in the other one, the new range of [name]
    is the old one followed by the values of the other trajectory, each
    shifted by [T1 + 1], and its values are exactly the integers
    [0..T1+T2+1].  Hence the merge raises whenever one of the two sets of
    values is not of that form. *)
Theorem f_merge_trial_parameter a b name rd itr mn dot :
  ledger_ok a -> ledger_ok b -> visible_ok a -> visible_ok b -> name <> EmptyString ->
  (forall st', f_merge (Some name) rd itr mn dot (a, b) = (st', Ok tt) ->
     exists pa pa' T1 T2 zs1 zs2,
       0 <= T1 /\ 0 <= T2 /\
       trial_range_ok a name T1 zs1 /\ trial_range_ok b name T2 zs2 /\
       _parameters a !! name = Some pa /\ _parameters (fst st') !! name = Some pa' /\
       p_range pa' = base_range (__len__ a) pa ++ List.map (fun x => VInt (x + T1 + 1)) zs2 /\
       forall v, v ∈ p_range pa' <-> exists x, v = VInt x /\ 0 <= x <= T1 + T2 + 1) /\
  (~ (exists T1 T2 zs1 zs2, trial_range_ok a name T1 zs1 /\ trial_range_ok b name T2 zs2) ->
   exists e, snd (f_merge (Some name) rd itr mn dot (a, b)) = Raise e).
Proof.
  intros Hoa Hob Hva Hvb Hname.
  assert (forall st', f_merge (Some name) rd itr mn dot (a, b) = (st', Ok tt) ->
     exists pa pa' T1 T2 zs1 zs2,
       0 <= T1 /\ 0 <= T2 /\
       trial_range_ok a name T1 zs1 /\ trial_range_ok b name T2 zs2 /\
       _parameters a !! name = Some pa /\ _parameters (fst st') !! name = Some pa' /\
       p_range pa' = base_range (__len__ a) pa ++ List.map (fun x => VInt (x + T1 + 1)) zs2 /\
       forall v, v ∈ p_range pa' <-> exists x, v = VInt x /\ 0 <= x <= T1 + T2 + 1) as Hok.
  { intros st' H.
    destruct (f_merge_Ok (Some name) rd itr mn dot a b st' Hoa Hob Hva Hvb H)
      as (_ & _ & _ & Htrial).
    destruct Htrial as (name' & pa & pb & pa' & T1 & T2 & zs1 & zs2 & [= <-] & Hpa & Hpb & Hpa'
                        & Hc1 & Hc2 & Hr).
    { simpl. rewrite bool_decide_eq_false_2 by exact Hname. reflexivity. }
    destruct (trial_range_ok_of_check a name pa T1 zs1 Hpa Hc1) as [Hr1 HT1].
    destruct (trial_range_ok_of_check b name pb T2 zs2 Hpb Hc2) as [Hr2 HT2].
    exists pa, pa', T1, T2, zs1, zs2. repeat (split; [assumption|]).
    intros v. rewrite Hr.
    apply check_trial_range_Ok in Hc1 as (Hl1 & _ & Hs1).
    apply check_trial_range_Ok in Hc2 as (_ & _ & Hs2).
    apply (merged_trial_range (__len__ a) pa T1 T2 zs1 zs2 v); try assumption.
    destruct Hoa as (_ & Hlen & _). exact Hlen. }
  split; [exact Hok|].
  intros Hno. destruct (f_merge (Some name) rd itr mn dot (a, b)) as [st' [[]|e]] eqn:E.
  - exfalso. apply Hno.
    destruct (Hok st' eq_refl) as (_ & _ & T1 & T2 & zs1 & zs2 & _ & _ & H1 & H2 & _).
    exists T1, T2, zs1, zs2. auto.
  - exists e. reflexivity.
Qed.


Lemma f_merge_trial_parameter_witness :
  (let st' := fst (f_merge (Some "parameters.trial") false false false false
                    (ex_trial_A, ex_trial_B)) in
  exists pa',
    _parameters (fst st') !! "parameters.trial" = Some pa' /\
    forall v, v ∈ p_range pa' <-> exists x, v = VInt x /\ 0 <= x <= 4) /\
  exists e, snd (f_merge (Some "parameters.p") false false false false (ex_p3, ex_merge_B))
            = Raise e.
Proof.
  split.
  {
  intros st'.
  assert (f_merge (Some "parameters.trial") false false false false (ex_trial_A, ex_trial_B)
          = (st', Ok tt)) as Hrun by (vm_compute; reflexivity).
  assert ("parameters.trial" <> EmptyString) as Hname by discriminate.
  destruct (proj1 (f_merge_trial_parameter ex_trial_A ex_trial_B "parameters.trial"
                     false false false false
                     (reachable_ledger_ok _ reachable_ex_trial_A)
                     (reachable_ledger_ok _ reachable_ex_trial_B)
                     visible_ok_ex_trial_A visible_ok_ex_trial_B Hname) st' Hrun)
    as (pa & pa' & T1 & T2 & zs1 & zs2 & HT1 & HT2 & H1 & H2 & Hpa & Hpa' & Hr & Hv).
  clear Hrun. clearbody st'.
  exists pa'. split; [exact Hpa'|]. clear Hpa Hpa' Hr.
  assert (T1 = 2) as ->.
  { destruct H1 as (p & Hp & Hl & Hs). vm_compute in Hp. injection Hp as <-.
    destruct zs1 as [|z0 [|z1 [|z2 [|z3 zs1]]]]; try (exfalso; clear -Hl; discriminate Hl).
    injection Hl as <- <- <-.
    pose proof (proj1 (Hs 2) ltac:(right; right; left)).
    pose proof (proj2 (Hs T1) ltac:(lia)) as Hin.
    repeat (apply elem_of_cons in Hin as [->|Hin]); try lia. inversion Hin. }
  assert (T2 = 1) as ->.
  { destruct H2 as (p & Hp & Hl & Hs). vm_compute in Hp. injection Hp as <-.
    destruct zs2 as [|z0 [|z1 [|z2 zs2]]]; try (exfalso; clear -Hl; discriminate Hl).
    injection Hl as <- <-.
    pose proof (proj1 (Hs 1) ltac:(right; left)).
    pose proof (proj2 (Hs T2) ltac:(lia)) as Hin.
    repeat (apply elem_of_cons in Hin as [->|Hin]); try lia. inversion Hin. }
  exact Hv. }
  apply (proj2 (f_merge_trial_parameter ex_p3 ex_merge_B "parameters.p"
                  false false false false
                  (reachable_ledger_ok _ reachable_ex_p3)
                  (reachable_ledger_ok _ reachable_ex_merge_B)
                  visible_ok_ex_p3 visible_ok_ex_merge_B ltac:(discriminate))).
  intros (T1 & T2 & zs1 & zs2 & (p & Hp & Hl & Hs) & _).
  vm_compute in Hp. injection Hp as <-.
  destruct zs1 as [|z0 [|z1 [|z2 [|z3 zs1]]]]; try (exfalso; clear -Hl; discriminate Hl).
  injection Hl as <- <- <-.
  pose proof (proj1 (Hs 1) ltac:(left)) as H1.
  pose proof (proj2 (Hs 0) ltac:(lia)) as Hin.
  repeat (apply elem_of_cons in Hin as [Hin|Hin]; [discriminate Hin|]). inversion Hin.
Defined.

(** ** Merging: when every run of the other trajectory is a duplicate *)










(** ** Merging: when the check and the search for duplicates return *)




















(** ** Merging: the other trajectory *)





(** ** Merging: trajectories with different parameters *)




(** ** Shrinking removes the ranges *)

Lemma shrink_loop keys : forall s,
  exists s',
    for_each keys (fun key =>
      let! ps := gets _parameters in
      match ps !! key with
      | Some p =>
          run! store_param key (f_unlock p) in
          let! p' := lift_result (_shrink (f_unlock p)) in
          store_param key p'
      | None => ret tt
      end) s = (s', Ok tt) /\
    (forall key p, key ∈ keys -> _parameters s !! key = Some p ->
       _parameters s' !! key = Some (set_p_range [] (f_unlock p))) /\
    (forall key, key ∉ keys -> _parameters s' !! key = _parameters s !! key).
Proof.
  induction keys as [|k keys IH]; intros s; cbn [for_each].
  - exists s. split; [reflexivity|]. split; [intros key p H; inversion H | reflexivity].
  - rewrite bind_run, bind_run. unfold gets at 1.
    destruct (_parameters s !! k) as [p|] eqn:Ek.
    + rewrite bind_run. unfold store_param at 1, modify at 1.
      rewrite bind_run. unfold lift_result, _shrink. cbn [p_locked f_unlock set_p_locked].
      unfold store_param at 1, modify at 1.
      match goal with
      | |- context [for_each keys _ ?s1] => destruct (IH s1) as (s' & Hrun & Hin & Hout)
      end.
      cbn [_parameters set_parameters] in Hin, Hout.
      rewrite insert_insert_eq in Hin, Hout.
      exists s'. split; [exact Hrun|]. split.
      * intros key q Hkey Hq. destruct (decide (key ∈ keys)) as [Hk|Hk].
        -- destruct (decide (key = k)) as [->|Hne].
           ++ assert (q = p) as -> by congruence.
              rewrite (Hin k _ Hk (lookup_insert_eq _ _ _)). reflexivity.
           ++ apply Hin; [exact Hk|]. rewrite lookup_insert_ne by congruence. exact Hq.
        -- apply elem_of_cons in Hkey as [->|Hkey]; [|contradiction].
           assert (q = p) as -> by congruence.
           rewrite (Hout k Hk). apply lookup_insert_eq.
      * intros key Hkey. apply not_elem_of_cons in Hkey as [Hne Hkey].
        rewrite (Hout key Hkey). apply lookup_insert_ne. congruence.
    + unfold ret at 1. destruct (IH s) as (s' & Hrun & Hin & Hout).
      exists s'. split; [exact Hrun|]. split.
      * intros key q Hkey Hq. apply elem_of_cons in Hkey as [->|Hkey]; [congruence|].
        apply Hin; assumption.
      * intros key Hkey. apply not_elem_of_cons in Hkey as [_ Hkey]. apply Hout, Hkey.
Qed.

(** X6. [f_shrink] on a stored trajectory raises [TypeError] and changes
    nothing.  On a trajectory that was not stored it returns, also when
    parameters are locked: every explored parameter is unlocked and has no
    range any more, every other parameter is as before, and no parameter is
    explored. *)
Theorem f_shrink_removes_ranges t :
  _is_run t = false ->
  (_stored t = true -> f_shrink t = (t, Raise TypeError)) /\
  (_stored t = false ->
   exists t',
     f_shrink t = (t', Ok tt) /\ _explored_parameters t' = [] /\
     (forall key p, key ∈ _explored_parameters t -> _parameters t !! key = Some p ->
        _parameters t' !! key = Some (set_p_range [] (f_unlock p))) /\
     (forall key, key ∉ _explored_parameters t ->
        _parameters t' !! key = _parameters t !! key)).
Proof.
  intros Hrun. unfold f_shrink. rewrite bind_run. unfold not_in_run. rewrite Hrun.
  rewrite bind_run. simpl. split; intros Hst; rewrite Hst; [reflexivity|].
  rewrite bind_run. simpl. rewrite bind_run.
  destruct (shrink_loop (_explored_parameters t) t) as (s' & Hloop & Hin & Hout).
  rewrite Hloop. unfold _add_run_info. run_monad.
  eexists. split; [reflexivity|]. simpl. split; [reflexivity|]. split; assumption.
Qed.

Lemma f_shrink_removes_ranges_witness :
  (exists t', f_shrink ex_p3 = (t', Ok tt) /\ _explored_parameters t' = [] /\
              p_range <$> _parameters t' !! "parameters.p" = Some []) /\
  f_shrink (fst (f_store ex_p3)) = (fst (f_store ex_p3), Raise TypeError).
Proof.
  split.
  - destruct (proj2 (f_shrink_removes_ranges ex_p3 eq_refl) eq_refl)
      as (t' & Hrun & Hex & Hin & _).
    exists t'. split; [exact Hrun|]. split; [exact Hex|].
    rewrite (Hin "parameters.p" (mkParam (VInt 0) (VInt 0) [VInt 1; VInt 2; VInt 3] false false));
      [reflexivity | left | vm_compute; reflexivity].
  - apply (proj1 (f_shrink_removes_ranges (fst (f_store ex_p3)) eq_refl) eq_refl).
Defined.

(** ** Expanding an explored trajectory *)

(** Appending runs to a ledger keeps the records it has. *)
Lemma add_run_infos_keep k : forall n t,
  runs_upto n t -> 0 <= n -> 0 <= k ->
  forall name info, _run_information t !! name = Some info ->
    _run_information (fst (for_each (seqZ n k) _add_run_info t)) !! name = Some info.
Proof.
  intros n t Hru Hn Hk. revert n t Hru Hn.
  pattern k. apply natlike_ind; [| |exact Hk]; clear k Hk.
  - intros n t Hru Hn name info H. rewrite seqZ_nil by lia. exact H.
  - intros k Hk IH n t Hru Hn name info H.
    rewrite seqZ_cons by lia. cbn [for_each]. rewrite bind_run.
    pose proof (add_run_info_ok n t) as Hok.
    pose proof (runs_upto_add_run_info n n t Hru ltac:(lia)) as Hru'.
    replace (Z.max n (n + 1)) with (Z.succ n) in Hru' by lia.
    destruct (add_run_info_info n t) as (info_n & _ & _ & Hinfo).
    destruct (_add_run_info n t) as [t1 r1]. cbn [fst snd] in *. subst r1.
    replace (Z.pred (Z.succ k)) with k by lia.
    apply (IH (Z.succ n) t1 Hru' ltac:(lia)).
    rewrite Hinfo, lookup_insert_ne; [exact H|]. intros <-.
    assert (is_Some (_run_information t !! FORMATTED_RUN_NAME n)) as Hs by eauto.
    apply (ru_info _ _ Hru) in Hs as (i & Hi & Hname).
    apply FORMATTED_RUN_NAME_inj in Hname; lia.
Qed.

Lemma f_expand_body_ok s count length k vs p n :
  _parameters s !! k = Some p -> f_has_range p = true ->
  Z.of_nat (List.length (p_range p ++ vs)) = n ->
  (count = 0 \/ length = Some n) ->
  exists s1,
    f_expand_body (count, length) (k, vs) s = (s1, Ok (count + 1, Some n)) /\
    same_ledger s s1 /\ _stored s1 = _stored s /\
    _expansion_not_stored s1 = _expansion_not_stored s /\
    _parameters s1 = <[k := set_p_range (p_range p ++ vs) (f_unlock p)]> (_parameters s) /\
    (forall k', k' ∈ _explored_parameters s1 <-> k' ∈ _explored_parameters s \/ k' = k).
Proof.
  intros Hk Hr Hn Hc.
  unfold f_expand_body, f_get, store_param, add_explored, _expand, lift_result.
  run_monad. rewrite Hk. cbn [fst snd p_locked f_unlock set_p_locked].
  change (f_has_range (f_unlock p)) with (f_has_range p). rewrite Hr. cbn [negb].
  change (p_range (f_unlock p)) with (p_range p).
  set (a := set_p_range (p_range p ++ vs) (f_unlock p)).
  assert (p_len a = n) as Hlen by exact Hn.
  match goal with
  | |- exists s1, (if _ then _ else _) ?st = _ /\ _ => exists st
  end.
  split.
  { rewrite Hlen. destruct Hc as [-> | ->]; [reflexivity|].
    destruct (count =? 0); [reflexivity|]. rewrite Z.eqb_refl. reflexivity. }
  match goal with
  | |- context [bool_decide ?P] => destruct (bool_decide P) eqn:E
  end.
  - apply bool_decide_eq_true in E. change (k ∈ _explored_parameters s) in E.
    split; [destruct s; split; [|split]; reflexivity|].
    repeat (split; [destruct s; cbn; rewrite ?insert_insert_eq; reflexivity|]).
    intros k'. destruct s; cbn in *. split; [auto|]. intros [?| ->]; assumption.
  - split; [destruct s; split; [|split]; reflexivity|].
    repeat (split; [destruct s; cbn; rewrite ?insert_insert_eq; reflexivity|]).
    intros k'. destruct s; cbn in *. rewrite elem_of_app, list_elem_of_singleton. reflexivity.
Qed.

Lemma f_expand_loop_ok n bd : forall s count length,
  NoDup (bd.*1) ->
  (forall k vs, (k, vs) ∈ bd ->
     exists p, _parameters s !! k = Some p /\ f_has_range p = true /\
               Z.of_nat (List.length (p_range p ++ vs)) = n) ->
  (count = 0 \/ length = Some n) ->
  exists s' count',
    for_fold bd f_expand_body (count, length) s
      = (s', Ok (count', if bd is [] then length else Some n)) /\
    same_ledger s s' /\ _stored s' = _stored s /\
    _expansion_not_stored s' = _expansion_not_stored s /\
    (forall k vs, (k, vs) ∈ bd ->
       exists p, _parameters s !! k = Some p /\
                 _parameters s' !! k = Some (set_p_range (p_range p ++ vs) (f_unlock p))) /\
    (forall k, k ∉ bd.*1 -> _parameters s' !! k = _parameters s !! k) /\
    (forall k, k ∈ _explored_parameters s' <-> k ∈ _explored_parameters s \/ k ∈ bd.*1).
Proof.
  induction bd as [|[k vs] bd IH]; intros s count length Hnd Hgood Hc.
  - exists s, count. cbn. split; [reflexivity|]. split; [apply same_ledger_refl|].
    split; [reflexivity|]. split; [reflexivity|]. split; [intros k vs H; inversion H|].
    split; [reflexivity|]. intros k. split; [auto|]. intros [H|H]; [exact H | inversion H].
  - cbn in Hnd. apply NoDup_cons in Hnd as [Hk Hnd].
    destruct (Hgood k vs) as (p & Hp & Hr & Hn); [left|].
    destruct (f_expand_body_ok s count length k vs p n Hp Hr Hn Hc)
      as (s1 & Hbody & Hsl1 & Hst1 & Hens1 & Hps1 & Hex1).
    destruct (IH s1 (count + 1) (Some n) Hnd) as
      (s' & count' & Hloop & Hsl & Hst & Hens & Hin & Hout & Hex).
    { intros k' vs' Hin. destruct (Hgood k' vs') as (p' & Hp' & ?); [right; exact Hin|].
      exists p'. split; [|assumption]. rewrite Hps1, lookup_insert_ne; [exact Hp'|].
      intros ->. apply Hk. apply list_elem_of_fmap. exists (k', vs'). auto. }
    { right. reflexivity. }
    exists s', count'. split.
    { cbn [for_fold]. rewrite bind_run, Hbody, Hloop. destruct bd; reflexivity. }
    split; [eapply same_ledger_trans; eassumption|].
    split; [congruence|]. split; [congruence|]. split; [|split].
    + intros k' vs' Hin'. apply elem_of_cons in Hin' as [[= -> ->]|Hin'].
      * exists p. split; [exact Hp|]. rewrite Hout by exact Hk.
        rewrite Hps1. apply lookup_insert_eq.
      * destruct (Hin k' vs' Hin') as (p' & Hp1 & Hp2). exists p'. split; [|exact Hp2].
        rewrite Hps1, lookup_insert_ne in Hp1; [exact Hp1|].
        intros ->. apply Hk. apply list_elem_of_fmap. exists (k', vs'). auto.
    + intros k' Hk'. cbn in Hk'. apply not_elem_of_cons in Hk' as [Hne Hk'].
      rewrite Hout by exact Hk'. rewrite Hps1. apply lookup_insert_ne. congruence.
    + intros k'. rewrite Hex, Hex1. cbn. rewrite elem_of_cons. tauto.
Qed.

(** The names that [f_expand] collects from its dictionary. *)
Lemma enlarge_set_ok bd : forall acc s,
  (forall k, k ∈ bd.*1 -> is_Some (_parameters s !! k)) ->
  for_fold bd (fun (acc : list string) (kv : string * list value) =>
                 run! f_get (fst kv) in ret (acc ++ [fst kv])) acc s
  = (s, Ok (acc ++ bd.*1)).
Proof.
  induction bd as [|[k vs] bd IH]; intros acc s H; cbn [for_fold fmap list_fmap fst].
  - rewrite app_nil_r. reflexivity.
  - destruct (H k ltac:(left)) as [p Hp].
    rewrite bind_run, bind_run. unfold f_get at 1. rewrite Hp. unfold ret at 1.
    rewrite IH by (intros k' Hk'; apply H; right; exact Hk').
    rewrite <- app_assoc. reflexivity.
Qed.

(** X7. For a trajectory with a well-formed ledger, not used as a single
    run, in which the range of every parameter named has exactly as many
    values as the trajectory has runs, [f_expand] with a non-empty
    dictionary of distinct names that are exactly the explored parameters
    and that gives each of them [m] further values returns:
    every range is the old one followed by the new values, the parameters
    are unlocked, [m] runs are appended after the runs there are, whose
    records are kept, and a stored trajectory is marked as having an
    expansion that is not stored.  When the names given are parameters but
    not exactly the explored ones, [f_expand] raises [TypeError] and changes
    nothing. *)
Theorem f_expand_appends t bd :
  _is_run t = false ->
  (forall m : nat,
     ledger_ok t -> bd <> [] -> NoDup (bd.*1) ->
     list_to_set (_explored_parameters t) =@{gset string} list_to_set (bd.*1) ->
     (forall k vs, (k, vs) ∈ bd ->
        exists p, _parameters t !! k = Some p /\ f_has_range p = true /\
                  Z.of_nat (List.length (p_range p)) = __len__ t /\ List.length vs = m) ->
     exists t',
       f_expand bd t = (t', Ok tt) /\
       (forall k vs, (k, vs) ∈ bd ->
          exists p, _parameters t !! k = Some p /\
                    _parameters t' !! k = Some (set_p_range (p_range p ++ vs) (f_unlock p))) /\
       (forall k, k ∉ bd.*1 -> _parameters t' !! k = _parameters t !! k) /\
       ledger_ok t' /\ __len__ t' = __len__ t + Z.of_nat m /\
       (forall name info, _run_information t !! name = Some info ->
                          _run_information t' !! name = Some info) /\
       _expansion_not_stored t' = _stored t || _expansion_not_stored t) /\
  ((forall k, k ∈ bd.*1 -> is_Some (_parameters t !! k)) ->
   ~ (list_to_set (_explored_parameters t) =@{gset string} list_to_set (bd.*1)) ->
   f_expand bd t = (t, Raise TypeError)).
Proof.
  intros Hrun. split.
  - intros m Hok Hne Hnd Hset Hgood.
    pose proof Hok as (Hnfc & Hlen & Hru).
    set (n := __len__ t + Z.of_nat m).
    destruct (f_expand_loop_ok n bd t 0 None Hnd) as
      (s' & count' & Hloop & Hsl & Hst & Hens & Hin & Hout & Hex).
    { intros k vs Hkv. destruct (Hgood k vs Hkv) as (p & Hp & Hr & Hl & Hm).
      exists p. split; [exact Hp|]. split; [exact Hr|]. rewrite length_app. subst n. lia. }
    { left. reflexivity. }
    pose proof (runs_upto_same _ _ _ Hsl Hru) as Hru'.
    destruct (runs_upto_add_run_infos (Z.of_nat m) (__len__ t) (__len__ t) s' Hru'
                ltac:(lia) ltac:(lia)) as (Hruf & Hnfcf & Hokf).
    replace (Z.max (__len__ t) (__len__ t + Z.of_nat m)) with n in Hruf by (subst n; lia).
    pose proof (add_run_infos_keep (Z.of_nat m) (__len__ t) s' Hru' ltac:(lia) ltac:(lia))
      as Hkeep.
    pose proof (add_run_infos_frame
                  (fun s => _parameters s = _parameters s' /\ _stored s = _stored s' /\
                            _expansion_not_stored s = _expansion_not_stored s')
                  (seqZ (__len__ t) (Z.of_nat m))
                  ltac:(intros [] ?; auto) ltac:(intros [] ?; auto) s'
                  (conj eq_refl (conj eq_refl eq_refl))) as (Hpf & Hstf & Hensf).
    set (tf := fst (for_each (seqZ (__len__ t) (Z.of_nat m)) _add_run_info s')) in *.
    assert (_length_during_nfc tf = None) as Hnfc_f
      by (rewrite Hnfcf, (proj1 Hsl); exact Hnfc).
    exists (if _stored t then set_expansion_not_stored true tf else tf).
    split.
    { unfold f_expand, not_in_run. rewrite bind_run, Hrun.
      rewrite bind_run, enlarge_set_ok.
      2:{ intros k Hk. apply list_elem_of_fmap in Hk as ([k' vs] & -> & Hkv).
          destruct (Hgood k' vs Hkv) as (p & Hp & _). cbn [fst]. rewrite Hp. eauto. }
      rewrite bind_run. unfold gets at 1. cbn [app].
      rewrite (bool_decide_eq_true_2 _ Hset). cbn [negb].
      rewrite bind_run, Hloop. destruct bd as [|kv bd']; [congruence|].
      rewrite bind_run. unfold gets at 1. rewrite (same_ledger_len _ _ Hsl).
      rewrite bind_run. unfold read_local, ret at 1. rewrite bind_run.
      unfold py_range. replace (n - __len__ t) with (Z.of_nat m) by (subst n; lia).
      fold tf in Hokf. subst tf.
      destruct (for_each (seqZ (__len__ t) (Z.of_nat m)) _add_run_info s') as [tf rf].
      cbn [fst snd] in *. subst rf. rewrite bind_run. unfold gets at 1.
      rewrite Hstf, Hst. destruct (_stored t); reflexivity. }
    assert (forall x : Trajectory,
              x = (if _stored t then set_expansion_not_stored true tf else tf) ->
              _parameters x = _parameters tf /\ same_ledger tf x) as Hx.
    { intros x ->. destruct (_stored t); [|split; [reflexivity | apply same_ledger_refl]].
      destruct tf; split; [reflexivity | repeat split]. }
    destruct (Hx _ eq_refl) as [Hpx Hlx].
    split; [|split; [|split; [|split; [|split]]]].
    + intros k vs Hkv. destruct (Hin k vs Hkv) as (p & Hp1 & Hp2).
      exists p. split; [exact Hp1|]. rewrite Hpx, Hpf. exact Hp2.
    + intros k Hk. rewrite Hpx, Hpf. apply Hout, Hk.
    + eapply ledger_ok_same; [exact Hlx|].
      apply (ledger_ok_intro n); [exact Hnfc_f | subst n; lia | exact Hruf].
    + rewrite (same_ledger_len _ _ Hlx). unfold __len__ at 1. rewrite Hnfc_f.
      apply (ru_size _ _ Hruf).
    + intros name info Hi. rewrite (proj2 (proj2 Hlx)). apply Hkeep.
      rewrite (proj2 (proj2 Hsl)). exact Hi.
    + destruct (_stored t) eqn:Es; cbn [orb].
      * destruct tf; reflexivity.
      * rewrite Hensf, Hens. reflexivity.
  - intros Hkeys Hset. unfold f_expand, not_in_run. rewrite bind_run, Hrun.
    rewrite bind_run, (enlarge_set_ok bd [] t Hkeys).
    rewrite bind_run. unfold gets at 1. cbn [app].
    rewrite (bool_decide_eq_false_2 _ Hset). reflexivity.
Qed.

Lemma f_expand_appends_witness :
  (exists t', f_expand [("parameters.p", [VInt 7; VInt 8])] ex_p3 = (t', Ok tt) /\
              __len__ t' = 5 /\
              p_range <$> _parameters t' !! "parameters.p"
              = Some [VInt 1; VInt 2; VInt 3; VInt 7; VInt 8]) /\
  f_expand [("parameters.q", [VInt 7; VInt 8])] ex_p3 = (ex_p3, Raise TypeError).
Proof.
  split.
  - destruct (proj1 (f_expand_appends ex_p3 [("parameters.p", [VInt 7; VInt 8])] eq_refl)
                2%nat)
      as (t' & Hrun & Hin & _ & _ & Hlen & _).
    + apply reachable_ledger_ok, reachable_ex_p3.
    + discriminate.
    + apply (bool_decide_unpack _). vm_compute. exact I.
    + apply (bool_decide_unpack _). vm_compute. exact I.
    + intros k vs Hkv. apply list_elem_of_singleton in Hkv. injection Hkv as -> ->.
      exists (mkParam (VInt 0) (VInt 0) [VInt 1; VInt 2; VInt 3] false false).
      repeat split; vm_compute; reflexivity.
    + exists t'. split; [exact Hrun|]. split; [rewrite Hlen; vm_compute; reflexivity|].
      destruct (Hin "parameters.p" [VInt 7; VInt 8]) as (p & Hp & Hp'); [left|].
      rewrite Hp'. vm_compute in Hp. injection Hp as <-. reflexivity.
  - apply (proj2 (f_expand_appends ex_p3 [("parameters.q", [VInt 7; VInt 8])] eq_refl)).
    + intros k Hk. apply list_elem_of_singleton in Hk. subst k. vm_compute. eauto.
    + apply (bool_decide_eq_false_1 _). vm_compute. reflexivity.
Defined.

(** ** Selecting a run *)

Lemma set_parameter_access_idem i p p' :
  _set_parameter_access i p = Ok p' -> _set_parameter_access i p' = Ok p'.
Proof.
  unfold _set_parameter_access. destruct (f_has_range p) eqn:Er.
  - destruct (py_index (p_range p) i) as [v|] eqn:Ev; [|discriminate].
    intros [= <-]. change (f_has_range (set_p_data v p)) with (f_has_range p).
    change (p_range (set_p_data v p)) with (p_range p). rewrite Er, Ev. reflexivity.
  - intros [= <-]. rewrite Er. reflexivity.
Qed.

Lemma set_parameter_access_forget i p p' :
  _set_parameter_access i p = Ok p' -> forget_data p' = forget_data p.
Proof.
  unfold _set_parameter_access. destruct (f_has_range p).
  - destruct (py_index (p_range p) i); [|discriminate]. intros [= <-]. reflexivity.
  - intros [= <-]. reflexivity.
Qed.

Lemma set_explored_loop i l : forall s,
  (forall key p, key ∈ l -> _parameters s !! key = Some p ->
     exists p', _set_parameter_access i p = Ok p') ->
  exists s',
    for_each l (fun key =>
      let! ps := gets _parameters in
      match ps !! key with
      | Some p =>
          let! p' := lift_result (_set_parameter_access i p) in
          store_param key p'
      | None => ret tt
      end) s = (s', Ok tt) /\
    cursor_frame s s' /\ _idx s' = _idx s /\ _crun s' = _crun s /\
    (forall key p, key ∈ l -> _parameters s !! key = Some p ->
       exists p', _set_parameter_access i p = Ok p' /\ _parameters s' !! key = Some p') /\
    (forall key, key ∉ l -> _parameters s' !! key = _parameters s !! key).
Proof.
  induction l as [|k l IH]; intros s Hgood; cbn [for_each].
  - exists s. split; [reflexivity|]. split; [apply cursor_frame_refl|].
    split; [reflexivity|]. split; [reflexivity|].
    split; [intros key p H; inversion H | reflexivity].
  - rewrite bind_run, bind_run. unfold gets at 1.
    destruct (_parameters s !! k) as [p|] eqn:Ek.
    + destruct (Hgood k p ltac:(left) Ek) as [p' Hp'].
      rewrite bind_run, Hp'. unfold lift_result at 1, store_param at 1, modify at 1.
      set (s1 := set_parameters (<[k := p']> (_parameters s)) s).
      assert (cursor_frame s s1) as Hf1.
      { split; [reflexivity|]. split; [repeat split|]. split; [reflexivity|].
        eapply same_modulo_data_insert; [reflexivity | exact Ek |].
        eapply set_parameter_access_forget, Hp'. }
      destruct (IH s1) as (s' & Hrun & Hf & Hi & Hc & Hin & Hout).
      { intros key q Hkey Hq. subst s1. cbn in Hq.
        destruct (decide (key = k)) as [->|Hne].
        - rewrite lookup_insert_eq in Hq. injection Hq as <-.
          exists p'. eapply set_parameter_access_idem, Hp'.
        - rewrite lookup_insert_ne in Hq by congruence. apply (Hgood key q); [right|]; assumption. }
      exists s'. split; [exact Hrun|]. split; [eapply cursor_frame_trans; eassumption|].
      split; [rewrite Hi; reflexivity|]. split; [rewrite Hc; reflexivity|]. split.
      * intros key q Hkey Hq. destruct (decide (key = k)) as [->|Hne].
        -- assert (q = p) as -> by congruence. exists p'. split; [exact Hp'|].
           destruct (decide (k ∈ l)) as [Hkl|Hkl].
           ++ destruct (Hin k p' Hkl) as (p'' & Hp'' & Hs'); [apply lookup_insert_eq|].
              rewrite (set_parameter_access_idem _ _ _ Hp') in Hp''. congruence.
           ++ rewrite (Hout k Hkl). apply lookup_insert_eq.
        -- apply elem_of_cons in Hkey as [->|Hkey]; [congruence|].
           apply Hin; [exact Hkey|]. subst s1. cbn. rewrite lookup_insert_ne by congruence.
           exact Hq.
      * intros key Hkey. apply not_elem_of_cons in Hkey as [Hne Hkey].
        rewrite (Hout key Hkey). apply lookup_insert_ne. congruence.
    + unfold ret at 1. destruct (IH s) as (s' & Hrun & Hf & Hi & Hc & Hin & Hout).
      { intros key q Hkey Hq. apply (Hgood key q); [right|]; assumption. }
      exists s'. split; [exact Hrun|]. split; [exact Hf|]. split; [exact Hi|].
      split; [exact Hc|]. split.
      * intros key q Hkey Hq. apply elem_of_cons in Hkey as [->|Hkey]; [congruence|].
        apply Hin; assumption.
      * intros key Hkey. apply not_elem_of_cons in Hkey as [_ Hkey]. apply Hout, Hkey.
Qed.

(** Selecting the run [i] by its index and by its name. *)
Lemma f_set_crun_ok t i :
  _is_run t = false -> ledger_ok t -> ranges_cover t -> 0 <= i < __len__ t ->
  exists t',
    f_set_crun (Some (inl i)) t = (t', Ok tt) /\
    f_set_crun (Some (inr (FORMATTED_RUN_NAME i))) t = (t', Ok tt) /\
    _idx t' = i /\ _crun t' = Some (FORMATTED_RUN_NAME i) /\ cursor_frame t t' /\
    (forall key p, key ∈ _explored_parameters t -> _parameters t !! key = Some p ->
       f_has_range p = true ->
       exists v, p_range p !! Z.to_nat i = Some v /\
                 _parameters t' !! key = Some (set_p_data v p)) /\
    (forall key, key ∉ _explored_parameters t ->
       _parameters t' !! key = _parameters t !! key).
Proof.
  intros Hrun (Hnfc & Hlen & Hru) Hcov Hi.
  set (s1 := set_idx i (set_crun (Some (FORMATTED_RUN_NAME i)) t)).
  assert (forall key p, key ∈ _explored_parameters s1 -> _parameters s1 !! key = Some p ->
            f_has_range p = true ->
            exists v, p_range p !! Z.to_nat i = Some v /\
                      _set_parameter_access i p = Ok (set_p_data v p)) as Hacc.
  { intros key p Hkey Hp Hr. unfold _set_parameter_access, py_index. rewrite Hr.
    pose proof (Hcov key p Hkey Hp Hr) as Hc.
    destruct (Z.leb_spec 0 i); [|lia].
    destruct (Z.ltb_spec i (Z.of_nat (List.length (p_range p)))); [|lia]. cbn [andb].
    destruct (lookup_lt_is_Some_2 (p_range p) (Z.to_nat i) ltac:(lia)) as [v Hv].
    exists v. rewrite Hv. auto. }
  destruct (set_explored_loop i (_explored_parameters s1) s1)
    as (t' & Hloop & Hf & Hidx & Hcrun & Hin & Hout).
  { intros key p Hkey Hp. destruct (f_has_range p) eqn:Hr.
    - destruct (Hacc key p Hkey Hp Hr) as (v & _ & Hv). eauto.
    - exists p. unfold _set_parameter_access. rewrite Hr. reflexivity. }
  exists t'. split; [|split].
  - unfold f_set_crun, not_in_run. rewrite bind_run, Hrun.
    destruct (Z.eqb_spec i (-1)); [lia|].
    rewrite bind_run, (f_idx_to_run_inl i (FORMATTED_RUN_NAME i));
      [|apply (ru_name_of _ _ Hru); split; [lia | reflexivity]].
    run_monad. cbn [_idx set_idx].
    unfold _set_explored_parameters_to_idx. rewrite bind_run. unfold gets at 1.
    exact Hloop.
  - unfold f_set_crun, not_in_run. rewrite bind_run, Hrun.
    rewrite bool_decide_eq_false_2 by (apply FORMATTED_RUN_NAME_not_dummy; lia).
    rewrite bind_run, (f_idx_to_run_inr i);
      [|apply (ru_idx_of _ _ Hru); split; [lia | reflexivity]].
    run_monad. cbn [_idx set_idx set_crun].
    unfold _set_explored_parameters_to_idx. rewrite bind_run. unfold gets at 1.
    replace (set_crun (Some (FORMATTED_RUN_NAME i)) (set_idx i t)) with s1
      by (destruct t; reflexivity).
    exact Hloop.
  - split; [rewrite Hidx; reflexivity|]. split; [rewrite Hcrun; reflexivity|].
    split; [|split].
    + eapply cursor_frame_trans; [|exact Hf]. subst s1. destruct t. repeat split.
    + intros key p Hkey Hp Hr. destruct (Hacc key p Hkey Hp Hr) as (v & Hv & Hset).
      exists v. split; [exact Hv|].
      destruct (Hin key p Hkey Hp) as (p' & Hp' & Hs'). congruence.
    + intros key Hkey. apply (Hout key Hkey).
Qed.

(** X8. On a trajectory that is not a single run and whose ranges have a
    value for every run, [f_set_crun] with the index [i] of a run and with
    the name of that run do the same: they return, [v_idx] is [i], [v_crun]
    is the name of run [i], every explored parameter with a range shows the
    value of its range at [i], and nothing else of the trajectory changes.
    With an index other than [-1] that is not the index of a run, or a name
    other than the dummy name that is not the name of a run, [f_set_crun]
    raises [KeyError] and changes nothing. *)
Theorem f_set_crun_selects t :
  _is_run t = false -> ledger_ok t ->
  (forall i, ranges_cover t -> 0 <= i < __len__ t ->
     exists t',
       f_set_crun (Some (inl i)) t = (t', Ok tt) /\
       f_set_crun (Some (inr (FORMATTED_RUN_NAME i))) t = (t', Ok tt) /\
       _idx t' = i /\ _crun t' = Some (FORMATTED_RUN_NAME i) /\ cursor_frame t t' /\
       (forall key p, key ∈ _explored_parameters t -> _parameters t !! key = Some p ->
          f_has_range p = true ->
          exists v, p_range p !! Z.to_nat i = Some v /\
                    _parameters t' !! key = Some (set_p_data v p)) /\
       (forall key, key ∉ _explored_parameters t ->
          _parameters t' !! key = _parameters t !! key)) /\
  (forall i, ~ 0 <= i < __len__ t -> i <> -1 ->
     f_set_crun (Some (inl i)) t = (t, Raise KeyError)) /\
  (forall name, name <> RUN_NAME_DUMMY ->
     (forall i, 0 <= i < __len__ t -> name <> FORMATTED_RUN_NAME i) ->
     f_set_crun (Some (inr name)) t = (t, Raise KeyError)).
Proof.
  intros Hrun Hok. split; [|split].
  - intros i Hcov Hi. apply f_set_crun_ok; assumption.
  - destruct Hok as (Hnfc & Hlen & Hru).
    intros i Hi Hne. unfold f_set_crun, not_in_run. rewrite bind_run, Hrun.
    destruct (Z.eqb_spec i (-1)); [lia|].
    rewrite bind_run. unfold f_idx_to_run.
    destruct (name_of_idx (_single_run_ids t) !! i) as [name|] eqn:E; [|reflexivity].
    apply (ru_name_of _ _ Hru) in E. tauto.
  - destruct Hok as (Hnfc & Hlen & Hru).
    intros name Hd Hname. unfold f_set_crun, not_in_run. rewrite bind_run, Hrun.
    rewrite bool_decide_eq_false_2 by exact Hd.
    rewrite bind_run. unfold f_idx_to_run.
    destruct (idx_of_name (_single_run_ids t) !! name) as [i|] eqn:E; [|reflexivity].
    apply (ru_idx_of _ _ Hru) in E. destruct E as [Hi ->]. exfalso.
    apply (Hname i Hi). reflexivity.
Qed.

Lemma f_set_crun_selects_witness :
  (exists t', f_set_crun (Some (inl 1)) ex_p3 = (t', Ok tt) /\
              f_set_crun (Some (inr "run_00000001")) ex_p3 = (t', Ok tt) /\
              p_data <$> _parameters t' !! "parameters.p" = Some (VInt 2)) /\
  f_set_crun (Some (inl 3)) ex_p3 = (ex_p3, Raise KeyError) /\
  f_set_crun (Some (inr "run_3")) ex_p3 = (ex_p3, Raise KeyError).
Proof.
  pose proof (f_set_crun_selects ex_p3 eq_refl (reachable_ledger_ok _ reachable_ex_p3))
    as (Hsel & Hidx & Hname).
  assert (__len__ ex_p3 = 3) as Hlen by (vm_compute; reflexivity).
  split; [|split].
  - destruct (Hsel 1 ranges_cover_ex_p3) as (t' & H1 & H2 & _ & _ & _ & Hin & _);
      [rewrite Hlen; lia|].
    exists t'. split; [exact H1|]. split; [exact H2|].
    destruct (Hin "parameters.p" (mkParam (VInt 0) (VInt 0) [VInt 1; VInt 2; VInt 3] false false))
      as (v & Hv & Hp); [left | vm_compute; reflexivity | reflexivity |].
    rewrite Hp. vm_compute in Hv. injection Hv as <-. reflexivity.
  - apply Hidx; rewrite ?Hlen; lia.
  - apply Hname; [vm_compute; discriminate|]. rewrite Hlen. intros i Hi.
    assert (i = 0 \/ i = 1 \/ i = 2) as [-> | [-> | ->]] by lia; vm_compute; discriminate.
Defined.

(** ** Completing a run *)

Lemma is_completed_idx i info t :
  name_of_idx (_single_run_ids t) !! i = Some (FORMATTED_RUN_NAME i) ->
  _run_information t !! FORMATTED_RUN_NAME i = Some info ->
  _is_completed (Some (inl i)) t = (t, Ok (ri_completed info)).
Proof.
  intros H1 H2. unfold _is_completed. rewrite bind_run.
  rewrite (f_get_run_information_idx i _ info t H1 H2). reflexivity.
Qed.

(** X9. On a trajectory with a well-formed ledger in which the range of
    every explored parameter has a value for every run, making the
    trajectory the single run [i], for the index [i] of a run, and
    finalizing that run returns; afterwards the trajectory is a single run
    with [v_idx = i], the record of run [i] is the one it was with
    [completed] set to 1, so that [_is_completed(i)] is 1, every other
    record is the one it was, so that [_is_completed(j)] answers for every
    other [j] what it answered before, and the length is the same.
    [f_is_completed] is not available afterwards: it raises [TypeError].
    Without the condition on the ranges [_make_single_run] can raise: see
    [ex_short_range]. *)
Theorem finalize_run_completes t i :
  ledger_ok t -> ranges_cover t -> 0 <= i < __len__ t ->
  exists t' info,
    (run! _make_single_run i in _finalize_run) t = (t', Ok tt) /\
    _is_run t' = true /\ _idx t' = i /\ __len__ t' = __len__ t /\ ledger_ok t' /\
    _run_information t !! FORMATTED_RUN_NAME i = Some info /\
    _run_information t' = <[FORMATTED_RUN_NAME i := set_ri_completed 1 info]> (_run_information t) /\
    _is_completed (Some (inl i)) t' = (t', Ok 1) /\
    (forall j, j <> i ->
       snd (_is_completed (Some (inl j)) t') = snd (_is_completed (Some (inl j)) t)) /\
    f_is_completed (Some (inl i)) t' = (t', Raise TypeError).
Proof.
  intros Hok Hcov Hi.
  set (t0 := set_is_run false t).
  assert (same_ledger t t0) as Hl0 by (subst t0; destruct t; repeat split).
  assert (ledger_ok t0) as Hok0 by (eapply ledger_ok_same; eassumption).
  assert (__len__ t0 = __len__ t) as Hlen0 by (apply same_ledger_len, Hl0).
  assert (ranges_cover t0) as Hcov0.
  { intros key p Hkey Hp Hr. rewrite Hlen0. apply (Hcov key p); [| |exact Hr].
    - subst t0. destruct t. exact Hkey.
    - subst t0. destruct t. exact Hp. }
  destruct (f_set_crun_ok t0 i) as (t1 & Hset & _ & Hidx & Hcrun & Hf & _);
    [subst t0; destruct t; reflexivity | exact Hok0 | exact Hcov0 | lia |].
  destruct Hf as (_ & Hl1 & _ & _).
  assert (same_ledger t t1) as Hl by (apply (same_ledger_trans t t0 t1); assumption).
  pose proof Hok as (Hnfc & Hlen & Hru).
  destruct (ledger_ok_record _ i t Hru Hi) as (info & Hinfo & Hii & _).
  set (t2 := set_is_run true t1).
  set (t' := set_run_information
               (<[FORMATTED_RUN_NAME i := set_ri_completed 1 info]> (_run_information t2)) t2).
  assert (_run_information t2 = _run_information t) as Hri2
    by (subst t2; destruct t1; apply (proj2 (proj2 Hl))).
  assert (_single_run_ids t' = _single_run_ids t) as Hids'
    by (subst t' t2; destruct t1; apply (proj1 (proj2 Hl))).
  assert (_run_information t'
          = <[FORMATTED_RUN_NAME i := set_ri_completed 1 info]> (_run_information t)) as Hri'
    by (rewrite <- Hri2; subst t'; destruct t2; reflexivity).
  assert (_length_during_nfc t' = None) as Hnfc'.
  { subst t' t2. destruct t1. cbn. rewrite <- Hnfc. apply (proj1 Hl). }
  assert (runs_upto (__len__ t) t') as Hru'.
  { eapply runs_upto_update_info;
      [exact Hru | rewrite Hinfo; eauto | exact Hids' | exact Hri' |].
    cbn. rewrite Hii. reflexivity. }
  assert (ledger_ok t') as Hok' by (apply (ledger_ok_intro (__len__ t)); assumption).
  exists t', info. split.
  { rewrite bind_run. unfold _make_single_run. rewrite bind_run. unfold modify at 1.
    fold t0. rewrite bind_run, Hset. unfold modify at 1. fold t2.
    unfold _finalize_run. rewrite bind_run. unfold gets at 1.
    rewrite bind_run. unfold gets at 1.
    replace (_crun t2) with (Some (FORMATTED_RUN_NAME i))
      by (subst t2; destruct t1; symmetry; exact Hcrun).
    rewrite Hri2, Hinfo. rewrite <- Hri2. reflexivity. }
  split; [subst t' t2; destruct t1; reflexivity|].
  split; [subst t' t2; destruct t1; exact Hidx|].
  assert (__len__ t' = __len__ t) as Hlen'
    by (unfold __len__ at 1; rewrite Hnfc'; apply (ru_size _ _ Hru')).
  split; [exact Hlen'|]. split; [exact Hok'|]. split; [exact Hinfo|]. split; [exact Hri'|].
  split; [|split].
  - rewrite (is_completed_idx i (set_ri_completed 1 info)); [reflexivity | |].
    + apply (ru_name_of _ _ Hru'). split; [lia | reflexivity].
    + rewrite Hri'. apply lookup_insert_eq.
  - intros j Hj. unfold _is_completed. rewrite !bind_run.
    unfold f_get_run_information, run_information_item at 1 3. rewrite !bind_run.
    unfold f_idx_to_run. rewrite Hids'.
    destruct (name_of_idx (_single_run_ids t) !! j) as [name|] eqn:E; [|reflexivity].
    apply (ru_name_of _ _ Hru) in E. destruct E as [Hjr ->].
    unfold run_information_item. rewrite Hri', lookup_insert_ne.
    + destruct (_run_information t !! FORMATTED_RUN_NAME j); reflexivity.
    + intros Heq. apply Hj. symmetry. apply FORMATTED_RUN_NAME_inj in Heq; lia.
  - unfold f_is_completed, not_in_run. rewrite bind_run.
    replace (_is_run t') with true by (subst t' t2; destruct t1; reflexivity). reflexivity.
Qed.

Lemma finalize_run_completes_witness :
  exists t', (run! _make_single_run 1 in _finalize_run) ex_p3 = (t', Ok tt) /\
             _is_completed (Some (inl 1)) t' = (t', Ok 1) /\
             snd (_is_completed (Some (inl 0)) t') = Ok 0.
Proof.
  destruct (finalize_run_completes ex_p3 1 (reachable_ledger_ok _ reachable_ex_p3)
              ranges_cover_ex_p3)
    as (t' & info & Hrun & _ & _ & _ & _ & _ & _ & Hc & Hother & _).
  - replace (__len__ ex_p3) with 3 by (vm_compute; reflexivity). lia.
  - exists t'. split; [exact Hrun|]. split; [exact Hc|].
    rewrite (Hother 0) by lia. vm_compute. reflexivity.
Defined.

(** ** Run records and run names *)

(** X11. In a trajectory with a well-formed ledger, [f_get_run_information]
    with the index of a run and with the name of that run return the same
    record, which carries that index, and leave the trajectory as it is;
    with an index that is not the index of a run, or a name that is not the
    name of a run, it raises [KeyError]. *)
Theorem f_get_run_information_agree t :
  ledger_ok t ->
  (forall i, 0 <= i < __len__ t ->
     exists info,
       f_get_run_information (inl i) t = (t, Ok info) /\
       f_get_run_information (inr (FORMATTED_RUN_NAME i)) t = (t, Ok info) /\
       ri_idx info = i) /\
  (forall i, ~ 0 <= i < __len__ t ->
     f_get_run_information (inl i) t = (t, Raise KeyError)) /\
  (forall name, (forall i, 0 <= i < __len__ t -> name <> FORMATTED_RUN_NAME i) ->
     f_get_run_information (inr name) t = (t, Raise KeyError)).
Proof.
  intros (Hnfc & Hlen & Hru). split; [|split].
  - intros i Hi. destruct (ledger_ok_record _ i t Hru Hi) as (info & Hinfo & Hidx & Hget).
    exists info. split; [exact Hget|]. split; [|exact Hidx].
    unfold f_get_run_information, run_information_item. rewrite Hinfo. reflexivity.
  - intros i Hi. unfold f_get_run_information, run_information_item at 1.
    rewrite bind_run. unfold f_idx_to_run.
    destruct (name_of_idx (_single_run_ids t) !! i) as [name|] eqn:E; [|reflexivity].
    apply (ru_name_of _ _ Hru) in E. tauto.
  - intros name Hname. unfold f_get_run_information, run_information_item at 1.
    destruct (_run_information t !! name) as [info|] eqn:E.
    + destruct (proj1 (ru_info _ _ Hru name) ltac:(eauto)) as (i & Hi & ->).
      exfalso. apply (Hname i Hi). reflexivity.
    + rewrite bind_run. unfold f_idx_to_run.
      destruct (idx_of_name (_single_run_ids t) !! name) as [i|] eqn:E'; [|reflexivity].
      apply (ru_idx_of _ _ Hru) in E'. destruct E' as [Hi ->].
      exfalso. apply (Hname i Hi). reflexivity.
Qed.

Lemma f_get_run_information_agree_witness :
  (exists info,
     f_get_run_information (inl 2) ex_p3 = (ex_p3, Ok info) /\
     f_get_run_information (inr "run_00000002") ex_p3 = (ex_p3, Ok info) /\
     ri_idx info = 2) /\
  f_get_run_information (inl 3) ex_p3 = (ex_p3, Raise KeyError) /\
  f_get_run_information (inr "run_3") ex_p3 = (ex_p3, Raise KeyError).
Proof.
  pose proof (f_get_run_information_agree ex_p3 (reachable_ledger_ok _ reachable_ex_p3))
    as (Hok & Hidx & Hname).
  assert (__len__ ex_p3 = 3) as Hlen by (vm_compute; reflexivity).
  split; [|split].
  - apply (Hok 2). rewrite Hlen. lia.
  - apply Hidx. rewrite Hlen. lia.
  - apply Hname. rewrite Hlen. intros i Hi.
    assert (i = 0 \/ i = 1 \/ i = 2) as [-> | [-> | ->]] by lia; vm_compute; discriminate.
Defined.

Lemma NoDup_run_names n : NoDup (FORMATTED_RUN_NAME <$> seqZ 0 n).
Proof.
  apply NoDup_fmap_2_strong; [|apply NoDup_seqZ].
  intros i j Hi Hj E. apply elem_of_seqZ in Hi, Hj.
  apply FORMATTED_RUN_NAME_inj in E; lia.
Qed.

(** X12. In a trajectory with a well-formed ledger, [f_get_run_names()]
    returns as many names as the trajectory has runs, the name of run [i]
    at position [i], without repetition, and each of them is mapped to its
    position by [f_idx_to_run]; [f_get_run_names(sort=False)] returns the
    same names in some order.  Neither changes the trajectory. *)
Theorem f_get_run_names_sorted t :
  ledger_ok t ->
  exists names unsorted,
    f_get_run_names true t = (t, Ok names) /\
    f_get_run_names false t = (t, Ok unsorted) /\
    Z.of_nat (List.length names) = __len__ t /\
    (forall i, 0 <= i < __len__ t -> names !! Z.to_nat i = Some (FORMATTED_RUN_NAME i)) /\
    (forall i name, names !! i = Some name ->
       f_idx_to_run (inr name) t = (t, Ok (inl (Z.of_nat i)))) /\
    NoDup names /\ unsorted ≡ₚ names.
Proof.
  intros Hok. pose proof Hok as (Hnfc & Hlen & Hru).
  exists (FORMATTED_RUN_NAME <$> seqZ 0 (__len__ t)), (map_to_list (_run_information t)).*1.
  split; [apply f_get_run_names_ok, Hok|]. split; [reflexivity|].
  split; [rewrite length_fmap, length_seqZ; lia|]. split; [|split; [|split]].
  - intros i Hi. rewrite list_lookup_fmap, lookup_seqZ_lt by lia.
    cbn. repeat f_equal; lia.
  - intros i name Hn. rewrite list_lookup_fmap in Hn.
    destruct (seqZ 0 (__len__ t) !! i) as [j|] eqn:Ej; [|discriminate].
    injection Hn as <-. apply lookup_seqZ in Ej as [-> Hi].
    apply f_idx_to_run_inr. apply (ru_idx_of _ _ Hru). split; [lia|].
    repeat f_equal; lia.
  - apply NoDup_run_names.
  - apply NoDup_Permutation.
    + apply NoDup_fst_map_to_list.
    + apply NoDup_run_names.
    + intros name. rewrite list_elem_of_fmap. split.
      * intros ([name' info] & -> & Hin). apply elem_of_map_to_list in Hin. cbn.
        destruct (proj1 (ru_info _ _ Hru name') ltac:(eauto)) as (i & Hi & ->).
        apply list_elem_of_fmap. exists i. split; [reflexivity|].
        apply elem_of_seqZ. lia.
      * intros Hin. apply list_elem_of_fmap in Hin as (i & -> & Hi).
        apply elem_of_seqZ in Hi.
        destruct (proj2 (ru_info _ _ Hru (FORMATTED_RUN_NAME i))) as [info Hinfo].
        { exists i. split; [lia | reflexivity]. }
        exists (FORMATTED_RUN_NAME i, info). split; [reflexivity|].
        apply elem_of_map_to_list. exact Hinfo.
Qed.

Lemma f_get_run_names_sorted_witness :
  exists names unsorted,
    f_get_run_names true ex_p3 = (ex_p3, Ok names) /\
    f_get_run_names false ex_p3 = (ex_p3, Ok unsorted) /\
    names !! 2%nat = Some "run_00000002" /\ unsorted ≡ₚ names.
Proof.
  destruct (f_get_run_names_sorted ex_p3 (reachable_ledger_ok _ reachable_ex_p3))
    as (names & unsorted & H1 & H2 & _ & Hat & _ & _ & Hp).
  exists names, unsorted. split; [exact H1|]. split; [exact H2|]. split; [|exact Hp].
  apply (Hat 2). replace (__len__ ex_p3) with 3 by (vm_compute; reflexivity). lia.
Defined.

(** ** Pickling and unpickling *)

Ltac simp_fields :=
  cbn [_is_run _length_during_nfc _parameters _explored_parameters _single_run_ids
       _run_information _idx _crun _full_copy _stored _expansion_not_stored _nodes
       _run_parent_groups _linked_by _logger name_of_idx idx_of_name
       set_logger set_single_run_ids set_run_information set_length_during_nfc].

(** X10. Whatever the trajectory, when [__getstate__] returns a snapshot the
    trajectory restored from it by [__setstate__] has the length of the
    original, and pickling the restored trajectory gives the same snapshot
    again; with [v_full_copy] true the restored trajectory is the original
    with a new logger.  With [v_full_copy] false and [v_idx] neither [-1]
    nor the index of a run, [__getstate__] raises [KeyError]. *)
Theorem getstate_round_trip t :
  (forall statedict, __getstate__ t = Ok statedict ->
     __len__ (__setstate__ statedict) = __len__ t /\
     __getstate__ (__setstate__ statedict) = Ok statedict /\
     (_full_copy t = true -> __setstate__ statedict = set_logger [] t)) /\
  (ledger_ok t -> _full_copy t = false -> _idx t <> -1 ->
   ~ 0 <= _idx t < __len__ t -> __getstate__ t = Raise KeyError).
Proof.
  split.
  - intros sd. unfold __getstate__ at 1.
    destruct (_full_copy t) eqn:Efc; cbn [negb].
    + intros [= <-]. split; [reflexivity|]. split; [|reflexivity].
      unfold __getstate__, __setstate__. destruct t; cbn in *. rewrite Efc. reflexivity.
    + destruct (Z.eqb_spec (_idx t) (-1)) as [Ei|Ei]; cbn [negb].
      * destruct (_length_during_nfc t) as [l|] eqn:E3; intros [= <-].
        -- split; [reflexivity|]. split; [|discriminate].
           unfold __getstate__, __setstate__. destruct t; cbn in *.
           rewrite Efc, Ei, E3. reflexivity.
        -- split; [destruct t; reflexivity|]. split; [|discriminate].
           unfold __getstate__, __setstate__. destruct t; cbn in *.
           rewrite Efc, Ei. reflexivity.
      * destruct (name_of_idx (_single_run_ids t) !! _idx t) as [runname|] eqn:E1;
          [|discriminate].
        destruct (_run_information t !! runname) as [info|] eqn:E2; [|discriminate].
        destruct (_length_during_nfc t) as [l|] eqn:E3; intros [= <-].
        -- split; [unfold __len__; destruct t; cbn in *; rewrite E3; reflexivity|].
           split; [|discriminate].
           unfold __getstate__, __setstate__. simp_fields.
           rewrite Efc. destruct (Z.eqb_spec (_idx t) (-1)); [contradiction|]. cbn [negb].
           rewrite !lookup_singleton_eq. simp_fields. rewrite ?E3. destruct t; reflexivity.
        -- split; [destruct t; reflexivity|]. split; [|discriminate].
           unfold __getstate__, __setstate__. simp_fields.
           rewrite Efc. destruct (Z.eqb_spec (_idx t) (-1)); [contradiction|]. cbn [negb].
           rewrite !lookup_singleton_eq. simp_fields. rewrite ?E3. destruct t; reflexivity.
  - intros (Hnfc & Hlen & Hru) Hfc Hidx Hout. unfold __getstate__. rewrite Hfc. cbn [negb].
    destruct (Z.eqb_spec (_idx t) (-1)) as [?|_]; [contradiction|]. cbn [negb].
    destruct (name_of_idx (_single_run_ids t) !! _idx t) as [runname|] eqn:E1; [|reflexivity].
    apply (ru_name_of _ _ Hru) in E1. tauto.
Qed.

Lemma getstate_round_trip_witness :
  (exists statedict,
     __getstate__ ex_p3_at_1 = Ok statedict /\
     __getstate__ (__setstate__ statedict) = Ok statedict) /\
  __getstate__ (fst (f_shrink ex_p3_at_1)) = Raise KeyError.
Proof.
  split.
  - destruct (__getstate__ ex_p3_at_1) as [sd|e] eqn:E; [|vm_compute in E; discriminate E].
    exists sd. split; [reflexivity|].
    apply (proj1 (getstate_round_trip ex_p3_at_1) sd E).
  - apply (proj2 (getstate_round_trip (fst (f_shrink ex_p3_at_1)))).
    + apply reachable_ledger_ok. apply (reach_op _ OpShrink).
      unfold ex_p3_at_1. apply reach_op, reachable_ex_p3.
    + vm_compute. reflexivity.
    + vm_compute. discriminate.
    + replace (__len__ (fst (f_shrink ex_p3_at_1))) with 1 by (vm_compute; reflexivity).
      replace (_idx (fst (f_shrink ex_p3_at_1))) with 1 by (vm_compute; reflexivity). lia.
Defined.

(** ** Renaming the run segments of a full name *)

Lemma split_dot_nonnil key : split_dot key <> [].
Proof.
  destruct key as [|c key]; cbn; [discriminate|].
  destruct (Ascii.eqb c "."); [discriminate|]. destruct (split_dot key); discriminate.
Qed.

Lemma split_dot_app seg rest :
  split_dot seg = [seg] -> split_dot (seg ++ String "." rest) = seg :: split_dot rest.
Proof.
  induction seg as [|c seg IH]; intros H; [reflexivity|].
  change (split_dot (String c (seg +:+ String "." rest)) = String c seg :: split_dot rest).
  cbn [split_dot] in H |- *. destruct (Ascii.eqb c "."); [discriminate H|].
  destruct (split_dot seg) as [|h t] eqn:E; [exfalso; exact (split_dot_nonnil _ E)|].
  injection H as -> ->. rewrite IH by reflexivity. reflexivity.
Qed.

Lemma split_dot_segments key : Forall (fun seg => split_dot seg = [seg]) (split_dot key).
Proof.
  induction key as [|c key IH]; cbn.
  - constructor; [reflexivity | constructor].
  - destruct (Ascii.eqb c ".") eqn:Ec.
    + constructor; [reflexivity | exact IH].
    + destruct (split_dot key) as [|h t] eqn:E; [exfalso; exact (split_dot_nonnil _ E)|].
      inversion IH as [|? ? Hh Ht]; subst. constructor; [|exact Ht].
      cbn. rewrite Ec, Hh. reflexivity.
Qed.

Lemma split_dot_join_dot l :
  l <> [] -> Forall (fun seg => split_dot seg = [seg]) l -> split_dot (join_dot l) = l.
Proof.
  unfold join_dot. induction l as [|x l IH]; intros Hne Hl; [congruence|].
  inversion Hl as [|? ? Hx Hl']; subst. destruct l as [|y l].
  - exact Hx.
  - change (String.concat "." (x :: y :: l))
      with (x +:+ String "." (String.concat "." (y :: l))).
    rewrite (split_dot_app _ _ Hx), IH; [reflexivity | discriminate | exact Hl'].
Qed.

Lemma join_dot_split_dot key : join_dot (split_dot key) = key.
Proof.
  unfold join_dot. induction key as [|c key IH]; [reflexivity|]. cbn [split_dot].
  destruct (Ascii.eqb_spec c ".") as [->|Hc].
  - destruct (split_dot key) as [|h t] eqn:E; [exfalso; exact (split_dot_nonnil _ E)|].
    change (String.concat "." (EmptyString :: h :: t))
      with (String "." (String.concat "." (h :: t))).
    rewrite IH. reflexivity.
  - destruct (split_dot key) as [|h t] eqn:E; [exfalso; exact (split_dot_nonnil _ E)|].
    rewrite <- IH. destruct t; reflexivity.
Qed.

Lemma positions_shift {A} (f : A -> bool) (l : list A) : forall g : nat -> nat,
  List.map fst (List.filter (fun p => f (snd p)) (imap (fun idx x => (g idx, x)) l))
  = List.map g (List.map fst (List.filter (fun p => f (snd p)) (imap (fun idx x => (idx, x)) l))).
Proof.
  induction l as [|x l IH]; intros g; [reflexivity|].
  cbn [imap List.filter snd]. unfold compose.
  destruct (f x); cbn [List.map fst];
    rewrite (IH (fun idx => g (S idx))), (IH S), !List.map_map; reflexivity.
Qed.

Lemma fold_insert_shift {A} (new : A) ps : forall x (l : list A),
  fold_left (fun sk pos => <[pos := new]> sk) (List.map S ps) (x :: l)
  = x :: fold_left (fun sk pos => <[pos := new]> sk) ps l.
Proof.
  induction ps as [|p ps IH]; intros x l; [reflexivity|]. cbn [List.map fold_left].
  change (<[S p := new]> (x :: l)) with (x :: <[p := new]> l). apply IH.
Qed.

Lemma fold_insert_positions {A} (f : A -> bool) (new : A) (l : list A) :
  fold_left (fun sk pos => <[pos := new]> sk)
    (List.map fst (List.filter (fun p => f (snd p)) (imap (fun idx x => (idx, x)) l))) l
  = List.map (fun x => if f x then new else x) l.
Proof.
  induction l as [|x l IH]; [reflexivity|].
  cbn [imap List.filter snd]. unfold compose.
  destruct (f x) eqn:Ef; cbn [List.map fst fold_left]; rewrite ?Ef;
    rewrite (positions_shift f l S).
  - change (<[0%nat := new]> (x :: l)) with (new :: l).
    rewrite fold_insert_shift, IH. reflexivity.
  - rewrite fold_insert_shift, IH. reflexivity.
Qed.

(** X13. [_rename_key] with the positions that its callers compute, those
    of the segments of the full name that start with [run_], and a new name
    without a dot, gives a full name with as many segments, in which every
    segment that starts with [run_] is the new name and every other segment
    is the one it was.  With no position the key is returned as it is. *)
Theorem rename_key_run_segments key new_name :
  split_dot new_name = [new_name] ->
  split_dot (_rename_key key (run_positions key) new_name)
  = List.map (fun seg => if String.prefix RUN_NAME seg then new_name else seg) (split_dot key)
  /\ _rename_key key [] new_name = key.
Proof.
  intros Hnew. split.
  - unfold _rename_key, run_positions. rewrite fold_insert_positions.
    apply split_dot_join_dot.
    + destruct (split_dot key) eqn:E; [exfalso; exact (split_dot_nonnil _ E) | discriminate].
    + apply Forall_forall. intros seg Hin. apply list_elem_of_In, in_map_iff in Hin as (seg0 & <- & Hin).
      destruct (String.prefix RUN_NAME seg0); [exact Hnew|].
      pose proof (split_dot_segments key) as Hall.
      rewrite Forall_forall in Hall. apply Hall. apply list_elem_of_In, Hin.
  - unfold _rename_key. cbn [fold_left]. apply join_dot_split_dot.
Qed.

Lemma rename_key_run_segments_witness :
  split_dot (_rename_key "results.run_00000000.x" (run_positions "results.run_00000000.x")
               "run_00000005")
  = ["results"; "run_00000005"; "x"].
Proof.
  apply (proj1 (rename_key_run_segments "results.run_00000000.x" "run_00000005" eq_refl)).
Defined.

(** ** Finding runs by their parameter values *)

Lemma zip_args_lookup cols i :
  cols <> [] -> zip_args cols !! i = mapM (fun c : list value => c !! i) cols.
Proof.
  induction cols as [|c cols IH]; intros Hne; [congruence|].
  destruct cols as [|c' cols].
  - cbn [zip_args mapM]. change (List.map (fun v => [v]) c) with ((fun v => [v]) <$> c).
    rewrite list_lookup_fmap. destruct (c !! i); reflexivity.
  - change (zip_args (c :: c' :: cols)) with (zip_with cons c (zip_args (c' :: cols))).
    rewrite lookup_zip_with, IH by discriminate.
    cbn [mapM]. destruct (c !! i); [|reflexivity]. cbn.
    destruct (c' !! i); [|reflexivity]. cbn.
    destruct (mapM (fun c0 : list value => c0 !! i) cols); reflexivity.
Qed.

(** The positions of [true] in a list, as [enumerate] and [if item] give
    them. *)
Lemma true_positions (l : list bool) : forall g : nat -> nat,
  (forall a b, (a < b)%nat -> (g a < g b)%nat) ->
  StronglySorted Z.lt
    (List.map (fun p : nat * bool => Z.of_nat (fst p))
       (List.filter snd (imap (fun idx item => (g idx, item)) l))) /\
  (forall z, z ∈ List.map (fun p : nat * bool => Z.of_nat (fst p))
                   (List.filter snd (imap (fun idx item => (g idx, item)) l)) <->
             exists i, z = Z.of_nat (g i) /\ l !! i = Some true).
Proof.
  induction l as [|x l IH]; intros g Hg.
  - cbn. split; [constructor|]. intros z. split; [intros H; inversion H|].
    intros (i & _ & H). discriminate H.
  - destruct (IH (fun i => g (S i))) as [Hs Hm]; [intros a b Hab; apply Hg; lia|].
    cbn [imap List.filter snd]. unfold compose.
    assert (forall z, (exists i, z = Z.of_nat (g i) /\ (x :: l) !! i = Some true) <->
                      (x = true /\ z = Z.of_nat (g 0%nat)) \/
                      exists i, z = Z.of_nat (g (S i)) /\ l !! i = Some true) as Hsplit.
    { intros z. split.
      - intros ([|i] & Hz & Hi); [left; cbn in Hi; split; congruence | right; eauto].
      - intros [[-> ->]|(i & Hz & Hi)]; [exists 0%nat; auto | exists (S i); auto]. }
    destruct x; cbn [List.map fst].
    + split.
      * constructor; [exact Hs|]. apply Forall_forall. intros z Hz.
        apply Hm in Hz as (i & -> & _). specialize (Hg 0%nat (S i)). lia.
      * intros z. rewrite Hsplit, elem_of_cons, Hm. tauto.
    + split; [exact Hs|]. intros z. rewrite Hsplit, Hm.
      split; [auto | intros [[? _]|?]; [discriminate | assumption]].
Qed.

Lemma find_idx_loop t names : forall ps acc,
  mapM (fun name => _parameters t !! name) names = Some ps ->
  for_fold names
    (fun (iter_list : list (list value)) name =>
       let! param := f_get name in
       match param with
       | INode _ => raise TypeError
       | IParam p =>
           if f_has_range p then ret (iter_list ++ [f_get_range p])
           else
             let! n := gets __len__ in
             ret (iter_list ++ [replicate (Z.to_nat n) (p_f_get p)])
       end) acc t
  = (t, Ok (acc ++ List.map (find_column t) ps)).
Proof.
  induction names as [|name names IH]; intros ps acc Hps.
  - cbn in Hps. injection Hps as <-. cbn. rewrite app_nil_r. reflexivity.
  - cbn [mapM] in Hps. destruct (_parameters t !! name) as [p|] eqn:Ep; [|discriminate].
    cbn in Hps. destruct (mapM _ names) as [ps'|] eqn:Eps; [|discriminate].
    cbn in Hps. injection Hps as <-.
    cbn [for_fold]. rewrite bind_run, bind_run. unfold f_get at 1. rewrite Ep.
    assert (forall acc', for_fold names
              (fun (iter_list : list (list value)) name =>
                 let! param := f_get name in
                 match param with
                 | INode _ => raise TypeError
                 | IParam p =>
                     if f_has_range p then ret (iter_list ++ [f_get_range p])
                     else
                       let! n := gets __len__ in
                       ret (iter_list ++ [replicate (Z.to_nat n) (p_f_get p)])
                 end) acc' t = (t, Ok (acc' ++ List.map (find_column t) ps'))) as IH'
      by (intros acc'; apply IH; reflexivity).
    cbn [List.map]. destruct (f_has_range p) eqn:Er.
    + replace (find_column t p) with (f_get_range p)
        by (unfold find_column; rewrite Er; reflexivity).
      unfold ret at 1. rewrite IH', <- app_assoc. reflexivity.
    + replace (find_column t p) with (replicate (Z.to_nat (__len__ t)) (p_f_get p))
        by (unfold find_column; rewrite Er; reflexivity).
      rewrite bind_run. unfold gets at 1, ret at 1. rewrite IH', <- app_assoc. reflexivity.
Qed.

Lemma find_idx_bad_name t good bad rest ps : forall acc,
  mapM (fun name => _parameters t !! name) good = Some ps ->
  _parameters t !! bad = None ->
  for_fold (good ++ bad :: rest)
    (fun (iter_list : list (list value)) name =>
       let! param := f_get name in
       match param with
       | INode _ => raise TypeError
       | IParam p =>
           if f_has_range p then ret (iter_list ++ [f_get_range p])
           else
             let! n := gets __len__ in
             ret (iter_list ++ [replicate (Z.to_nat n) (p_f_get p)])
       end) acc t
  = (t, Raise (match _nodes t !! bad with
               | Some _ => TypeError
               | None => AttributeError
               end)).
Proof.
  revert ps. induction good as [|name good IH]; intros ps acc Hps Hbad.
  - cbn [app for_fold]. rewrite bind_run, bind_run. unfold f_get. rewrite Hbad.
    destruct (_nodes t !! bad); reflexivity.
  - cbn [mapM] in Hps. destruct (_parameters t !! name) as [p|] eqn:Ep; [|discriminate].
    cbn in Hps. destruct (mapM _ good) as [ps'|] eqn:Eps; [|discriminate].
    change ((name :: good) ++ bad :: rest) with (name :: (good ++ bad :: rest)).
    cbn [for_fold]. rewrite bind_run, bind_run. unfold f_get at 1. rewrite Ep.
    destruct (f_has_range p).
    + unfold ret at 1. apply (IH ps'); [reflexivity | exact Hbad].
    + rewrite bind_run. unfold gets at 1, ret at 1. apply (IH ps'); [reflexivity | exact Hbad].
Qed.

Lemma points_columns t ps i :
  ps <> [] ->
  Forall (fun p => f_has_range p = true -> List.length (p_range p) = Z.to_nat (__len__ t)) ps ->
  0 <= i ->
  mapM (fun c : list value => c !! Z.to_nat i) (List.map (find_column t) ps)
  = if i <? __len__ t then points ps i else None.
Proof.
  intros Hne Hall Hi. unfold points.
  induction ps as [|p ps IH]; [congruence|].
  inversion Hall as [|? ? Hp Hall']; subst.
  assert (find_column t p !! Z.to_nat i
          = if i <? __len__ t then point p i else None) as Hcol.
  { unfold find_column, point, f_get_range. destruct (f_has_range p) eqn:Er.
    - specialize (Hp eq_refl). unfold py_index.
      destruct (Z.ltb_spec i (__len__ t)).
      + destruct (Z.leb_spec 0 i); [|lia].
        destruct (Z.ltb_spec i (Z.of_nat (List.length (p_range p)))); [|lia]. reflexivity.
      + apply lookup_ge_None. lia.
    - destruct (Z.ltb_spec i (__len__ t)).
      + apply lookup_replicate. split; [reflexivity | lia].
      + apply lookup_ge_None. rewrite length_replicate. lia. }
  cbn [List.map mapM]. rewrite Hcol. destruct ps as [|p' ps].
  - cbn. destruct (i <? __len__ t); [|reflexivity]. reflexivity.
  - rewrite IH by (discriminate || assumption).
    destruct (i <? __len__ t); reflexivity.
Qed.

(** X14. [f_find_idx], outside a single run or with [v_full_copy] true,
    with at least one name, all of them names of parameters, on a
    trajectory in which every range has one value per run: the generator
    yields, in increasing order, exactly the indices of the runs at which
    the values of the named parameters satisfy the predicate, where a
    parameter without a range has its current value at every run; the
    trajectory is not changed.  It raises [TypeError] in a single run
    without [v_full_copy], for an empty list of names, and for a name that
    is found but is not a parameter, and [AttributeError] for a name that is
    not found. *)
Theorem f_find_idx_yields t predicate :
  (_is_run t && negb (_full_copy t) = true ->
   forall names, f_find_idx names predicate t = (t, Raise TypeError)) /\
  (_is_run t && negb (_full_copy t) = false ->
   (forall names ps,
      names <> [] ->
      mapM (fun name => _parameters t !! name) names = Some ps ->
      Forall (fun p => f_has_range p = true ->
                       List.length (p_range p) = Z.to_nat (__len__ t)) ps ->
      exists idxs,
        f_find_idx names predicate t = (t, Ok idxs) /\
        StronglySorted Z.lt idxs /\
        (forall i, i ∈ idxs <->
                   0 <= i < __len__ t /\
                   exists row, points ps i = Some row /\ predicate row = true)) /\
   f_find_idx [] predicate t = (t, Raise TypeError) /\
   (forall good bad rest ps,
      mapM (fun name => _parameters t !! name) good = Some ps ->
      _parameters t !! bad = None ->
      f_find_idx (good ++ bad :: rest) predicate t
      = (t, Raise (match _nodes t !! bad with
                   | Some _ => TypeError
                   | None => AttributeError
                   end)))).
Proof.
  split.
  { intros Hmode names. unfold f_find_idx. rewrite bind_run. unfold gets at 1.
    rewrite bind_run. unfold gets at 1. rewrite Hmode. reflexivity. }
  intros Hmode. split; [|split].
  - intros names ps Hne Hps Hall.
    assert (ps <> []) as Hpne.
    { intros ->. destruct names as [|name names]; [congruence|]. cbn in Hps.
      destruct (_parameters t !! name); [|discriminate]. cbn in Hps.
      destruct (mapM _ names); discriminate. }
    set (cols := List.map (find_column t) ps).
    assert (cols <> []) as Hcne by (subst cols; destruct ps; [congruence | discriminate]).
    destruct (true_positions (List.map predicate (zip_args cols)) (fun i => i))
      as [Hsorted Hmem]; [auto|].
    eexists. split; [|split; [exact Hsorted|]].
    + unfold f_find_idx. rewrite bind_run. unfold gets at 1.
      rewrite bind_run. unfold gets at 1. rewrite Hmode.
      rewrite bind_run, (find_idx_loop t names ps [] Hps). cbn [app]. fold cols.
      destruct cols; [congruence|]. reflexivity.
    + intros i. rewrite Hmem. split.
      * intros (n & -> & Hn). change (List.map predicate (zip_args cols))
          with (predicate <$> zip_args cols) in Hn.
        rewrite list_lookup_fmap, zip_args_lookup in Hn by exact Hcne.
        destruct (mapM (fun c : list value => c !! n) cols) as [row|] eqn:Erow;
          [|discriminate].
        injection Hn as Hrow. subst cols.
        replace n with (Z.to_nat (Z.of_nat n)) in Erow by lia.
        rewrite (points_columns t ps (Z.of_nat n) Hpne Hall) in Erow by lia.
        destruct (Z.ltb_spec (Z.of_nat n) (__len__ t)); [|discriminate].
        split; [lia|]. exists row. auto.
      * intros (Hi & row & Hrow & Hpred). exists (Z.to_nat i). split; [lia|].
        change (List.map predicate (zip_args cols)) with (predicate <$> zip_args cols).
        rewrite list_lookup_fmap, zip_args_lookup by exact Hcne. subst cols.
        rewrite (points_columns t ps i Hpne Hall) by lia.
        destruct (Z.ltb_spec i (__len__ t)); [|lia]. rewrite Hrow. cbn. rewrite Hpred.
        reflexivity.
  - unfold f_find_idx. rewrite bind_run. unfold gets at 1.
    rewrite bind_run. unfold gets at 1. rewrite Hmode. reflexivity.
  - intros good bad rest ps Hps Hbad.
    unfold f_find_idx. rewrite bind_run. unfold gets at 1.
    rewrite bind_run. unfold gets at 1. rewrite Hmode.
    rewrite bind_run, (find_idx_bad_name t good bad rest ps [] Hps Hbad). reflexivity.
Qed.

Lemma f_find_idx_yields_witness :
  (exists idxs,
     f_find_idx ["parameters.p"; "parameters.q"]
       (fun row => match row with
                   | [VInt p; VInt q] => (p + q) >? 2
                   | _ => false
                   end) ex_p3 = (ex_p3, Ok idxs) /\
     (forall i, i ∈ idxs <-> i = 1 \/ i = 2)) /\
  f_find_idx [] (fun _ => true) ex_p3 = (ex_p3, Raise TypeError) /\
  f_find_idx ["parameters.p"; "parameters.r"] (fun _ => true) ex_p3
    = (ex_p3, Raise AttributeError) /\
  f_find_idx ["parameters.p"] (fun _ => true) (fst (_make_single_run 1 ex_p3))
    = (fst (_make_single_run 1 ex_p3), Raise TypeError).
Proof.
  split; [|split; [|split]].
  - set (pred := fun row => match row with
                    | [VInt p; VInt q] => (p + q) >? 2
                    | _ => false
                    end).
    destruct (proj1 (proj2 (f_find_idx_yields ex_p3 pred) eq_refl)
                ["parameters.p"; "parameters.q"]
                [mkParam (VInt 0) (VInt 0) [VInt 1; VInt 2; VInt 3] false false;
                 mkParam (VInt 1) (VInt 1) [] false false])
      as (idxs & Hrun & _ & Hmem).
    + discriminate.
    + vm_compute. reflexivity.
    + repeat constructor; vm_compute; congruence.
    + exists idxs. split; [exact Hrun|]. intros i. rewrite Hmem.
      replace (__len__ ex_p3) with 3 by (vm_compute; reflexivity). split.
      * intros (Hi & row & Hrow & Hp).
        assert (i = 0 \/ i = 1 \/ i = 2) as [-> | [-> | ->]] by lia; [|auto|auto].
        vm_compute in Hrow. injection Hrow as <-. vm_compute in Hp. discriminate Hp.
      * intros [-> | ->]; (split; [lia|]); eexists; (split; [vm_compute; reflexivity|]);
          vm_compute; reflexivity.
  - apply (proj1 (proj2 (proj2 (f_find_idx_yields ex_p3 (fun _ => true)) eq_refl))).
  - apply (proj2 (proj2 (proj2 (f_find_idx_yields ex_p3 (fun _ => true)) eq_refl))
             ["parameters.p"] "parameters.r" []
             [mkParam (VInt 0) (VInt 0) [VInt 1; VInt 2; VInt 3] false false]);
      vm_compute; reflexivity.
  - apply (proj1 (f_find_idx_yields (fst (_make_single_run 1 ex_p3)) (fun _ => true))).
    vm_compute. reflexivity.
Defined.

(** ** Links whose target lies under the dummy run *)

Lemma merge_links_dummy_loop run_name_dict b (l : list (string * list linking)) : forall a,
  Forall (fun kv => str_in RUN_NAME_DUMMY (fst kv) = true) l ->
  for_each l (fun kv =>
    let '(old_linked_name, old_link_dict) := kv in
    if str_in RUN_NAME_DUMMY old_linked_name
    then on_self (log (WarnLinkedUnderDummy old_linked_name))
    else
      let! old_linked_item := on_other (f_get old_linked_name) in
      let new_linked_full_name :=
        renamed_full_name run_name_dict old_linked_name (item_run_branch old_linked_item) in
      for_each old_link_dict
        (merge_links_of run_name_dict old_linked_name new_linked_full_name)) (a, b)
  = ((set_logger (_logger a ++ List.map (fun kv => WarnLinkedUnderDummy (fst kv)) l) a, b),
     Ok tt).
Proof.
  induction l as [|[name d] l IH]; intros a Hall.
  - cbn. rewrite app_nil_r. destruct a; reflexivity.
  - inversion Hall as [|? ? Hname Hall']; subst. cbn [fst] in Hname.
    cbn [for_each]. rewrite bind_run, Hname. unfold on_self at 1, log at 1, modify at 1.
    cbn [fst snd]. rewrite (IH _ Hall'). cbn [List.map fst].
    destruct a; cbn. rewrite <- app_assoc. reflexivity.
Qed.

(** X15. When every linked item of the other trajectory lies under the
    dummy run [run_ALL], [_merge_links] returns and copies nothing: the
    other trajectory is as it was, and the current one differs only by its
    log, which has the announcement of the merge of the links, if there is
    a linked item at all, and one warning per linked item. *)
Theorem merge_links_skips_targets_under_dummy run_name_dict a b :
  Forall (fun kv => str_in RUN_NAME_DUMMY (fst kv) = true) (_linked_by b) ->
  _merge_links run_name_dict (a, b)
  = ((set_logger
        (_logger a ++
         match _linked_by b with
         | [] => []
         | _ :: _ =>
             InfoMergingLinks ::
             List.map (fun kv => WarnLinkedUnderDummy (fst kv)) (_linked_by b)
         end) a, b), Ok tt).
Proof.
  intros Hall. unfold _merge_links. rewrite bind_run. unfold gets at 1. cbn [snd].
  destruct (_linked_by b) as [|kv l] eqn:E.
  - cbn. rewrite app_nil_r. destruct a; reflexivity.
  - cbn [List.length Nat.ltb Nat.leb]. rewrite bind_run.
    unfold on_self at 1, log at 1, modify at 1. cbn [fst snd].
    rewrite (merge_links_dummy_loop run_name_dict b (kv :: l) _ Hall).
    destruct a; cbn. rewrite <- app_assoc. reflexivity.
Qed.

Lemma merge_links_skips_targets_under_dummy_witness :
  exists a',
    _merge_links [] (ex_links_A, set_linked_by [("results.run_ALL.x", [])] ex_links_B)
    = ((a', set_linked_by [("results.run_ALL.x", [])] ex_links_B), Ok tt) /\
    _nodes a' = _nodes ex_links_A.
Proof.
  eexists. split.
  - apply (merge_links_skips_targets_under_dummy [] ex_links_A
             (set_linked_by [("results.run_ALL.x", [])] ex_links_B)).
    repeat constructor.
  - reflexivity.
Defined.

(** ** Exploring again *)

Lemma explore_guard_raises t bd :
  _is_run t = false -> ledger_ok t ->
  1 < __len__ t \/ _explored_parameters t <> [] \/
  (exists info, _run_information t !! FORMATTED_RUN_NAME 0 = Some info /\
                ri_completed info <> 0) ->
  f_explore bd t = (t, Raise TypeError).
Proof.
  intros Hrun (Hnfc & Hlen & Hru) Hcase.
  unfold f_explore, not_in_run. rewrite bind_run, Hrun.
  rewrite bind_run. unfold gets at 1. rewrite bind_run. unfold gets at 1.
  rewrite bind_run.
  destruct (Z.ltb_spec 1 (__len__ t)); [reflexivity|].
  destruct (_explored_parameters t) as [|k l] eqn:Eex; [|reflexivity].
  cbn [List.length Nat.ltb Nat.leb].
  destruct Hcase as [?|[?|(info & Hinfo & Hc)]]; [lia | congruence|].
  rewrite bind_run. unfold f_is_completed, not_in_run. rewrite bind_run, Hrun.
  rewrite (is_completed_idx 0 info);
    [|apply (ru_name_of _ _ Hru); split; [lia | reflexivity] | exact Hinfo].
  unfold ret at 1, truthy. destruct (Z.eqb_spec (ri_completed info) 0); [contradiction|].
  reflexivity.
Qed.

Lemma explore_body_explored locals kv s :
  match f_explore_body locals kv s with
  | (s', r) =>
      _is_run s' = _is_run s /\
      (_explored_parameters s <> [] -> _explored_parameters s' <> []) /\
      (is_ok r = true -> _explored_parameters s' <> [])
  end.
Proof.
  destruct locals as [count length], kv as [key vs]. unfold f_explore_body.
  rewrite bind_run. unfold f_get.
  destruct (_parameters s !! key) as [p|].
  - cbn [item_is_leaf item_is_parameter negb orb].
    rewrite bind_run. unfold lift_result. destruct (_explore vs p) as [p'|e].
    + rewrite bind_run. unfold store_param at 1, modify at 1.
      rewrite bind_run. unfold add_explored at 1, modify at 1.
      set (s1 := set_parameters (<[key := p']> (_parameters s)) s).
      set (s2 := if bool_decide (key ∈ _explored_parameters s1) then s1
                 else set_explored_parameters (_explored_parameters s1 ++ [key]) s1).
      assert (_is_run s2 = _is_run s) as Hr
        by (subst s2 s1; destruct (bool_decide _); destruct s; reflexivity).
      assert (_explored_parameters s2 <> []) as Hex.
      { subst s2. destruct (bool_decide (key ∈ _explored_parameters s1)) eqn:E.
        - apply bool_decide_eq_true in E. intros H. rewrite H in E. inversion E.
        - destruct s1; cbn. intros H. apply app_eq_nil in H as [_ H]. discriminate H. }
      rewrite bind_run. unfold gets at 1.
      match goal with
      | |- context [read_local ?l] => destruct l as [l0|]
      end.
      * rewrite bind_run. unfold read_local, ret at 1.
        destruct (negb (l0 =? p_len p')); cbn; auto.
      * rewrite bind_run. unfold read_local, raise at 1. auto.
    + split; [reflexivity|]. split; [auto|]. intros H. discriminate H.
  - destruct (_nodes s !! key) as [n|].
    + cbn [item_is_parameter negb orb]. rewrite orb_true_r. cbn.
      split; [reflexivity|]. split; [auto|]. intros H. discriminate H.
    + split; [reflexivity|]. split; [auto|]. intros H. discriminate H.
Qed.

Lemma explore_loop_explored bd : forall locals s,
  match for_fold bd f_explore_body locals s with
  | (s', r) =>
      _is_run s' = _is_run s /\
      (_explored_parameters s <> [] -> _explored_parameters s' <> []) /\
      (bd <> [] -> is_ok r = true -> _explored_parameters s' <> [])
  end.
Proof.
  induction bd as [|kv bd IH]; intros locals s.
  - cbn. split; [reflexivity|]. split; [auto | congruence].
  - cbn [for_fold]. rewrite bind_run.
    pose proof (explore_body_explored locals kv s) as H.
    destruct (f_explore_body locals kv s) as [s1 [locals1|e]].
    + destruct H as (Hr & Hk & Hok). specialize (Hok eq_refl).
      specialize (IH locals1 s1).
      destruct (for_fold bd f_explore_body locals1 s1) as [s2 r2].
      destruct IH as (Hr' & Hk' & _).
      split; [congruence|]. split; [auto|]. intros _ _. apply Hk', Hok.
    + destruct H as (Hr & Hk & _). split; [exact Hr|]. split; [exact Hk|].
      intros _ H. discriminate H.
Qed.

Lemma add_run_infos_explored l s :
  _is_run (fst (for_each l _add_run_info s)) = _is_run s /\
  _explored_parameters (fst (for_each l _add_run_info s)) = _explored_parameters s.
Proof.
  apply (add_run_infos_frame
           (fun s' => _is_run s' = _is_run s /\
                      _explored_parameters s' = _explored_parameters s) l
           ltac:(intros [] ?; auto) ltac:(intros [] ?; auto) s (conj eq_refl eq_refl)).
Qed.

Lemma f_explore_Ok_explored bd t t' :
  bd <> [] -> f_explore bd t = (t', Ok tt) ->
  _is_run t' = _is_run t /\ _explored_parameters t' <> [].
Proof.
  intros Hne. unfold f_explore, not_in_run. rewrite bind_run.
  destruct (_is_run t) eqn:Hrun; [discriminate|].
  rewrite bind_run. unfold gets at 1. rewrite bind_run. unfold gets at 1.
  rewrite bind_run.
  destruct ((if 1 <? __len__ t then ret true
             else if (0 <? List.length (_explored_parameters t))%nat then ret true
             else let! c := f_is_completed (Some (inl 0)) in ret (truthy c)) t)
    as [s0 [[|]|e]] eqn:Ealready; try discriminate.
  assert (s0 = t) as ->.
  { revert Ealready. destruct (1 <? __len__ t); [intros [= <-]; reflexivity|].
    destruct (0 <? List.length (_explored_parameters t))%nat; [intros [= <-]; reflexivity|].
    rewrite bind_run.
    pose proof (readonly_f_is_completed (Some (inl 0)) t) as Hro.
    destruct (f_is_completed (Some (inl 0)) t) as [s1 [c|e]]; cbn in Hro; subst s1;
      intros [= <-]; reflexivity. }
  rewrite bind_run.
  set (t1 := fst ((if (0 <? List.length (_explored_parameters t))%nat
                   then log InfoAlreadyExplored else ret tt) t)).
  assert (_is_run t1 = false /\ 
          (if (0 <? List.length (_explored_parameters t))%nat
           then log InfoAlreadyExplored else ret tt) t = (t1, Ok tt)) as [Hrun1 ->].
  { subst t1. destruct (0 <? List.length (_explored_parameters t))%nat;
      cbn; split; try reflexivity; destruct t; exact Hrun. }
  rewrite bind_run.
  pose proof (explore_loop_explored bd (0, None) t1) as Hloop.
  destruct (for_fold bd f_explore_body (0, None) t1) as [s2 [[count length]|e]];
    [|discriminate].
  destruct Hloop as (Hr & Hk & Hok). specialize (Hok Hne eq_refl).
  rewrite bind_run. destruct length as [l|]; [|discriminate].
  unfold read_local, ret at 1.
  destruct (add_run_infos_explored (py_range 0 l) s2) as [Hr3 He3].
  destruct (for_each (py_range 0 l) _add_run_info s2) as [s3 r3]. cbn [fst] in *.
  intros [= <- _]. split; [congruence|]. rewrite He3. exact Hok.
Qed.

(** X16. [f_explore] on a trajectory that has more than one run, or an
    explored parameter, or a completed run 0, raises [TypeError] and changes
    nothing.  So after [f_explore] has returned for a non-empty
    dictionary, a further [f_explore] raises [TypeError] whatever it is
    given. *)
Theorem f_explore_refuses_explored t :
  _is_run t = false -> ledger_ok t ->
  (forall bd,
     1 < __len__ t \/ _explored_parameters t <> [] \/
     (exists info, _run_information t !! FORMATTED_RUN_NAME 0 = Some info /\
                   ri_completed info <> 0) ->
     f_explore bd t = (t, Raise TypeError)) /\
  (forall bd t', bd <> [] -> f_explore bd t = (t', Ok tt) ->
     forall bd', f_explore bd' t' = (t', Raise TypeError)).
Proof.
  intros Hrun Hok. split.
  - intros bd Hcase. apply explore_guard_raises; assumption.
  - intros bd t' Hne Hex bd'.
    assert (ledger_ok t') as Hok'.
    { pose proof (ledger_ok_f_explore bd t Hok) as H. rewrite Hex in H. exact H. }
    destruct (f_explore_Ok_explored bd t t' Hne Hex) as [Hrun' Hex'].
    apply explore_guard_raises; [congruence | exact Hok' | right; left; exact Hex'].
Qed.

Lemma f_explore_refuses_explored_witness :
  f_explore [("parameters.p", [VInt 1; VInt 2; VInt 3])] ex_pq = (ex_p3, Ok tt) /\
  f_explore [("parameters.q", [VInt 4; VInt 5; VInt 6])] ex_p3 = (ex_p3, Raise TypeError) /\
  f_explore [] ex_p3 = (ex_p3, Raise TypeError).
Proof.
  assert (f_explore [("parameters.p", [VInt 1; VInt 2; VInt 3])] ex_pq = (ex_p3, Ok tt)) as H
    by (vm_compute; reflexivity).
  split; [exact H|]. split.
  - apply (proj2 (f_explore_refuses_explored ex_pq eq_refl
                    (reachable_ledger_ok _ reachable_ex_pq))
             [("parameters.p", [VInt 1; VInt 2; VInt 3])] ex_p3);
      [discriminate | exact H].
  - apply (proj1 (f_explore_refuses_explored ex_p3 eq_refl
                    (reachable_ledger_ok _ reachable_ex_p3)) []).
    left. replace (__len__ ex_p3) with 3 by (vm_compute; reflexivity). lia.
Defined.

(** ** Shrinking and exploring again *)



